(** * Massive-MIMO slicing simulator: a shallow embedding of simulation.py
      and utilities/stats.py, and the properties of its allocation policies.

    Conventions of the embedding.
    - Python integers are [Z]; indices into node pools and queues are [nat].
    - The logical clock, arrival delays and deadlines are floats in the
      source that are only added and compared; they are embedded as [Z].
    - A Python exception is a [Raise] result; every function that can raise
      returns in the [result] monad.
    - Python dictionaries keyed by strings are [gmap string _].
    - Python lists are Rocq lists; [list.remove], [del l[i]], [list.sort]
      and iteration over a list that is mutated meanwhile are written out. *)

From stdpp Require Import base list strings gmap fin_maps sorting.
From Stdlib Require Import ZArith Lia.

Local Open Scope string_scope.
Local Open Scope list_scope.
Local Open Scope Z_scope.

(** ** Exceptions and the result monad *)

Inductive exn : Type :=
| KeyError
| IndexError
| ValueError
| ZeroDivisionError
| EmptyClock
| OutsideEmbedding.

Inductive result (A : Type) : Type :=
| Ok (a : A)
| Raise (e : exn).

Arguments Ok {A} a.
Arguments Raise {A} e.

Definition rbind {A B : Type} (m : result A) (f : A → result B) : result B :=
  match m with
  | Ok a => f a
  | Raise e => Raise e
  end.

Notation "x <-! m ; k" := (rbind m (fun x => k))
  (at level 100, m at next level, right associativity).

Definition of_option {A : Type} (e : exn) (o : option A) : result A :=
  match o with
  | Some a => Ok a
  | None => Raise e
  end.

(** ** Data model *)

(** Event kinds, as the class constants of [Simulation]. *)
Definition _URLLC : Z := 0.
Definition _mMTC : Z := 1.
Definition _DEPARTURE : Z := 2.
Definition _URLLC_ARRIVAL : Z := 3.
Definition _mMTC_ARRIVAL : Z := 4.

(** Modelled from the spec: the Event class (utilities/event.py is not part
    of the sources).  The fields are the ones simulation.py reads: [type],
    [time], [dead_time], [node_id] and [counter].  A departure event leaves
    the last three unset; they are never read and are embedded as 0.
    Events are compared by object identity in Python; the per-class
    [counter] makes distinct arrivals of one class structurally distinct, so
    structural equality is used for [list.remove] and [in]. *)
Record Event : Type := mkEvent {
  etype : Z;
  etime : Z;
  dead_time : Z;
  node_id : nat;
  counter : Z
}.

Global Instance Event_eq_dec : EqDecision Event.
Proof. solve_decision. Defined.

(** Modelled from the spec: the inter-arrival generator of a node
    (utilities/event_generator.py is not part of the sources): a first delay
    from [get_init], then a lazy infinite sequence of delays from
    [get_next]; [drawn] counts the [get_next] calls made so far. *)
Record EventGenerator : Type := mkGen {
  init_delay : Z;
  next_delay : nat → Z;
  drawn : nat
}.

Definition get_init (g : EventGenerator) : Z := init_delay g.

Definition get_next (g : EventGenerator) : Z * EventGenerator :=
  (next_delay g (drawn g),
   {| init_delay := init_delay g; next_delay := next_delay g; drawn := S (drawn g) |}).

(** A node: the profile values read by the engine ([pilot_samples],
    [deadline]), the two flags it writes ([active], [assigned]) and its
    generator. *)
Record Node : Type := mkNode {
  pilot_samples : Z;
  deadline : Z;
  active : bool;
  assigned : bool;
  event_generator : EventGenerator
}.

Definition set_active (b : bool) (n : Node) : Node :=
  {| pilot_samples := pilot_samples n; deadline := deadline n;
     active := b; assigned := assigned n; event_generator := event_generator n |}.

Definition set_assigned (b : bool) (n : Node) : Node :=
  {| pilot_samples := pilot_samples n; deadline := deadline n;
     active := active n; assigned := b; event_generator := event_generator n |}.

Definition set_generator (g : EventGenerator) (n : Node) : Node :=
  {| pilot_samples := pilot_samples n; deadline := deadline n;
     active := active n; assigned := assigned n; event_generator := g |}.

(** Modelled from the spec: [Slice.get_node] (slices/slice.py is not part of
    the sources): the node at an index of the pool, an [IndexError] outside
    of it. *)
Definition get_node (pool : list Node) (i : nat) : result Node :=
  of_option IndexError (pool !! i).

(** The outcome record handed to the trace: [event.get_entry(time, success)]. *)
Record Entry : Type := mkEntry {
  entry_event : Event;
  entry_time : Z;
  entry_success : bool
}.

Definition get_entry (ev : Event) (t : Z) (ok : bool) : Entry :=
  {| entry_event := ev; entry_time := t; entry_success := ok |}.

(** ** utilities/stats.py *)

Module Stats.

(** The Stats object: the handle of the statistics file and the
    dictionary of counters. *)
Record t : Type := mk {
  stats_file : string;
  stats : gmap string Z
}.

(** [Stats.__init__]: the five counters start at 0. *)
Definition init (stats_file_path : string) : t :=
  {| stats_file := stats_file_path;
     stats := <["config_no" := 0]> (<["no_urllc_arrivals" := 0]>
              (<["no_mmtc_arrivals" := 0]> (<["no_missed_urllc" := 0]>
              (<["no_missed_mmtc" := 0]> ∅)))) |}.

(** The body of the loop of [clear_stats] for one key. *)
Definition clear_key (key : string) (d : gmap string Z) : gmap string Z :=
  if decide (key = "config_no") then d else <[key := 0]> d.

(** [for key in self.stats: ...] over a given list of keys. *)
Definition clear_keys (keys : list string) (d : gmap string Z) : gmap string Z :=
  foldl (fun acc key => clear_key key acc) d keys.

(** [Stats.clear_stats]. *)
Definition clear_stats (s : t) : t :=
  {| stats_file := stats_file s;
     stats := clear_keys (map fst (map_to_list (stats s))) (stats s) |}.

(** [self.stats[key] += 1]. *)
Definition incr (key : string) (d : gmap string Z) : result (gmap string Z) :=
  v <-! of_option KeyError (d !! key);
  Ok (<[key := v + 1]> d).

End Stats.

(** ** Python list primitives *)

(** [l.remove(x)]: drops the first element equal to [x]; [ValueError] when
    there is none. *)
Fixpoint py_remove (x : Event) (l : list Event) : result (list Event) :=
  match l with
  | [] => Raise ValueError
  | y :: l' =>
      if decide (x = y) then Ok l'
      else (r <-! py_remove x l'; Ok (y :: r))
  end.

(** [del l[i]]: [IndexError] outside of the list. *)
Definition py_del (i : nat) (l : list Event) : result (list Event) :=
  if decide (i < length l)%nat then Ok (delete i l) else Raise IndexError.

(** [l.sort(key=..., reverse=...)]: a stable sort.  [insert_sorted] puts an
    element in front of the first element that may follow it, so elements
    with equal keys keep their order, also when [reverse] is set. *)
Fixpoint insert_sorted (reverse : bool) (key : Event → Z) (x : Event)
    (l : list Event) : list Event :=
  match l with
  | [] => [x]
  | y :: l' =>
      if (if reverse then key y <=? key x else key x <=? key y)
      then x :: y :: l'
      else y :: insert_sorted reverse key x l'
  end.

Definition py_sort (key : Event → Z) (reverse : bool) (l : list Event) : list Event :=
  foldr (insert_sorted reverse key) [] l.

(** ** The event heap *)

(** Modelled from the spec: the EventHeap class (events/event_heap.py is not
    part of the sources).  [push] stores an event, [pop] removes and returns
    the event with the smallest time and fails with [EmptyClock] on an empty
    heap.  The spec leaves the order of events with equal times open; here
    the one pushed first is returned first. *)
Module EventHeap.

Definition t : Type := list Event.

Definition empty : t := [].

Definition push (ev : Event) (h : t) : t := h ++ [ev].

Fixpoint earliest (h : t) : option Event :=
  match h with
  | [] => None
  | ev :: h' =>
      match earliest h' with
      | Some m => if etime m <? etime ev then Some m else Some ev
      | None => Some ev
      end
  end.

Fixpoint drop_first (ev : Event) (h : t) : t :=
  match h with
  | [] => []
  | x :: h' => if decide (ev = x) then h' else x :: drop_first ev h'
  end.

Definition pop (h : t) : result (Event * t) :=
  m <-! of_option EmptyClock (earliest h);
  Ok (m, drop_first m h).

End EventHeap.

(** ** The simulation object *)

Inductive queue_key : Type := K_URLLC | K_mMTC.

Record Simulation : Type := mkSim {
  stats : gmap string Z;                   (* self.stats.stats *)
  trace : list Entry;                      (* entries written to self.trace *)
  time : Z;
  no_pilots : Z;
  simulation_length : Z;
  frame_length : Z;
  pilot_strategy : string;
  event_heap : EventHeap.t;
  send_queue_URLLC : list Event;           (* self.send_queue['_URLLC'] *)
  send_queue_mMTC : list Event;            (* self.send_queue['_mMTC'] *)
  pool_URLLC : list Node;                  (* self.Slices[_URLLC].pool *)
  pool_mMTC : list Node;                   (* self.Slices[_mMTC].pool *)
  frame_counter : Z;
  frame_loops : Z;
  node_pointer : nat
}.

Definition send_queue (s : Simulation) (key : queue_key) : list Event :=
  match key with
  | K_URLLC => send_queue_URLLC s
  | K_mMTC => send_queue_mMTC s
  end.

Definition set_stats (v : gmap string Z) (s : Simulation) : Simulation :=
  mkSim v (trace s) (time s) (no_pilots s) (simulation_length s) (frame_length s)
    (pilot_strategy s) (event_heap s) (send_queue_URLLC s) (send_queue_mMTC s)
    (pool_URLLC s) (pool_mMTC s) (frame_counter s) (frame_loops s) (node_pointer s).

Definition set_trace (v : list Entry) (s : Simulation) : Simulation :=
  mkSim (stats s) v (time s) (no_pilots s) (simulation_length s) (frame_length s)
    (pilot_strategy s) (event_heap s) (send_queue_URLLC s) (send_queue_mMTC s)
    (pool_URLLC s) (pool_mMTC s) (frame_counter s) (frame_loops s) (node_pointer s).

Definition set_time (v : Z) (s : Simulation) : Simulation :=
  mkSim (stats s) (trace s) v (no_pilots s) (simulation_length s) (frame_length s)
    (pilot_strategy s) (event_heap s) (send_queue_URLLC s) (send_queue_mMTC s)
    (pool_URLLC s) (pool_mMTC s) (frame_counter s) (frame_loops s) (node_pointer s).

Definition set_event_heap (v : EventHeap.t) (s : Simulation) : Simulation :=
  mkSim (stats s) (trace s) (time s) (no_pilots s) (simulation_length s) (frame_length s)
    (pilot_strategy s) v (send_queue_URLLC s) (send_queue_mMTC s)
    (pool_URLLC s) (pool_mMTC s) (frame_counter s) (frame_loops s) (node_pointer s).

Definition set_send_queue (key : queue_key) (v : list Event) (s : Simulation) : Simulation :=
  match key with
  | K_URLLC =>
      mkSim (stats s) (trace s) (time s) (no_pilots s) (simulation_length s) (frame_length s)
        (pilot_strategy s) (event_heap s) v (send_queue_mMTC s)
        (pool_URLLC s) (pool_mMTC s) (frame_counter s) (frame_loops s) (node_pointer s)
  | K_mMTC =>
      mkSim (stats s) (trace s) (time s) (no_pilots s) (simulation_length s) (frame_length s)
        (pilot_strategy s) (event_heap s) (send_queue_URLLC s) v
        (pool_URLLC s) (pool_mMTC s) (frame_counter s) (frame_loops s) (node_pointer s)
  end.

Definition set_pool_URLLC (v : list Node) (s : Simulation) : Simulation :=
  mkSim (stats s) (trace s) (time s) (no_pilots s) (simulation_length s) (frame_length s)
    (pilot_strategy s) (event_heap s) (send_queue_URLLC s) (send_queue_mMTC s)
    v (pool_mMTC s) (frame_counter s) (frame_loops s) (node_pointer s).

Definition set_pool_mMTC (v : list Node) (s : Simulation) : Simulation :=
  mkSim (stats s) (trace s) (time s) (no_pilots s) (simulation_length s) (frame_length s)
    (pilot_strategy s) (event_heap s) (send_queue_URLLC s) (send_queue_mMTC s)
    (pool_URLLC s) v (frame_counter s) (frame_loops s) (node_pointer s).

Definition set_frame_counter (v : Z) (s : Simulation) : Simulation :=
  mkSim (stats s) (trace s) (time s) (no_pilots s) (simulation_length s) (frame_length s)
    (pilot_strategy s) (event_heap s) (send_queue_URLLC s) (send_queue_mMTC s)
    (pool_URLLC s) (pool_mMTC s) v (frame_loops s) (node_pointer s).

Definition set_node_pointer (v : nat) (s : Simulation) : Simulation :=
  mkSim (stats s) (trace s) (time s) (no_pilots s) (simulation_length s) (frame_length s)
    (pilot_strategy s) (event_heap s) (send_queue_URLLC s) (send_queue_mMTC s)
    (pool_URLLC s) (pool_mMTC s) (frame_counter s) (frame_loops s) v.

(** [self.trace.write_trace(entry)] *)
Definition write_trace (entry : Entry) (tr : list Entry) : list Entry := tr ++ [entry].

(** ** Arrivals and expiry *)

(** [__handle_urllc_arrival] *)
Definition __handle_urllc_arrival (event : Event) (s : Simulation) : result Simulation :=
  st <-! Stats.incr "no_urllc_arrivals" (stats s);
  let queue := event :: send_queue_URLLC s in
  node <-! get_node (pool_URLLC s) (node_id event);
  let '(next_arrival, g) := get_next (event_generator node) in
  let node' := set_generator g (set_active true node) in
  cnt <-! of_option KeyError (st !! "no_urllc_arrivals");
  let ev := mkEvent _URLLC_ARRIVAL (time s + next_arrival)
              (time s + next_arrival + deadline node') (node_id event) cnt in
  Ok (set_event_heap (EventHeap.push ev (event_heap s))
       (set_pool_URLLC (<[node_id event := node']> (pool_URLLC s))
         (set_send_queue K_URLLC queue (set_stats st s)))).

(** [__handle_mmtc_arrival] *)
Definition __handle_mmtc_arrival (event : Event) (s : Simulation) : result Simulation :=
  st <-! Stats.incr "no_mmtc_arrivals" (stats s);
  let queue := event :: send_queue_mMTC s in
  node <-! get_node (pool_mMTC s) (node_id event);
  let '(next_arrival, g) := get_next (event_generator node) in
  let node' := set_generator g (set_active true node) in
  cnt <-! of_option KeyError (st !! "no_mmtc_arrivals");
  let ev := mkEvent _mMTC_ARRIVAL (time s + next_arrival)
              (time s + next_arrival + deadline node') (node_id event) cnt in
  Ok (set_event_heap (EventHeap.push ev (event_heap s))
       (set_pool_mMTC (<[node_id event := node']> (pool_mMTC s))
         (set_send_queue K_mMTC queue (set_stats st s)))).

(** The test of the first loop of [__handle_expired_events] at index [i]:
    [queue[i].dead_time < self.time]. *)
Definition expired_at (t : Z) (queue : list Event) (i : nat) : Prop :=
  match queue !! i with
  | Some event => dead_time event < t
  | None => False
  end.

Global Instance expired_at_dec t queue i : Decision (expired_at t queue i).
Proof. unfold expired_at. destruct (queue !! i); apply _. Defined.

(** The first loop of [__handle_expired_events]: the indices of the entries
    of a queue whose deadline lies strictly before the clock, ascending. *)
Definition remove_indices (t : Z) (queue : list Event) : list nat :=
  filter (expired_at t queue) (seq 0 (length queue)).

(** The body of the second loop of [__handle_expired_events], for index [i]
    of the queue under [key]. *)
Definition expire_index (key : queue_key) (s : Simulation) (i : nat) : result Simulation :=
  event <-! of_option IndexError (send_queue s key !! i);
  s1 <-! (if decide (etype event = _URLLC_ARRIVAL) then
            node <-! get_node (pool_URLLC s) (node_id event);
            st <-! Stats.incr "no_missed_urllc" (stats s);
            Ok (set_trace (write_trace (get_entry event (time s) false) (trace s))
                 (set_stats st
                   (set_pool_URLLC (<[node_id event := set_active false node]> (pool_URLLC s)) s)))
          else if decide (etype event = _mMTC_ARRIVAL) then
            node <-! get_node (pool_mMTC s) (node_id event);
            st <-! Stats.incr "no_missed_mmtc" (stats s);
            Ok (set_trace (write_trace (get_entry event (time s) false) (trace s))
                 (set_stats st
                   (set_pool_mMTC (<[node_id event := set_active false node]> (pool_mMTC s)) s)))
          else Ok s);
  queue <-! py_del i (send_queue s1 key);
  Ok (set_send_queue key queue s1).

(** [for i in sorted(remove_indices, reverse=True)]: the indices were
    collected in ascending order, so sorting them in descending order
    reverses the list. *)
Fixpoint expire_indices (key : queue_key) (indices : list nat) (s : Simulation)
    : result Simulation :=
  match indices with
  | [] => Ok s
  | i :: rest => s1 <-! expire_index key s i; expire_indices key rest s1
  end.

Definition expire_queue (key : queue_key) (s : Simulation) : result Simulation :=
  expire_indices key (reverse (remove_indices (time s) (send_queue s key))) s.

(** [__handle_expired_events]: the queues in the order of the dictionary. *)
Definition __handle_expired_events (s : Simulation) : result Simulation :=
  s1 <-! expire_queue K_URLLC s;
  expire_queue K_mMTC s1.

(** ** Allocation policies *)

(** The loop state of the serving loops: the remaining budget, the send
    queue they remove from and the trace they write to. *)
Record Pass : Type := mkPass {
  budget : Z;
  queue : list Event;
  written : list Entry
}.

(** [for event in events: ...] over a list that is separate from the send
    queue (a sorted copy), looking up the cost of each event's node;
    [break] at the first request that does not fit, with the cost already
    subtracted. *)
Fixpoint serve_events (pool : list Node) (t : Z) (events : list Event) (p : Pass)
    : result Pass :=
  match events with
  | [] => Ok p
  | event :: rest =>
      node <-! get_node pool (node_id event);
      let no_pilots := budget p - pilot_samples node in
      if decide (0 <= no_pilots) then
        q <-! py_remove event (queue p);
        serve_events pool t rest
          (mkPass no_pilots q (write_trace (get_entry event t true) (written p)))
      else Ok (mkPass no_pilots (queue p) (written p))
  end.

(** [__fist_come_first_served] *)
Definition __fist_come_first_served (s : Simulation) : result Simulation :=
  let urllc_events := py_sort dead_time false (send_queue_URLLC s) in
  let mmtc_events := send_queue_mMTC s in
  a <-! serve_events (pool_URLLC s) (time s) urllc_events
          (mkPass (no_pilots s) (send_queue_URLLC s) (trace s));
  let s1 := set_trace (written a) (set_send_queue K_URLLC (queue a) s) in
  if decide (0 < budget a) then
    let mmtc_events := py_sort dead_time false mmtc_events in
    b <-! serve_events (pool_mMTC s) (time s) mmtc_events
            (mkPass (budget a) (send_queue_mMTC s) (written a));
    Ok (set_trace (written b) (set_send_queue K_mMTC (queue b) s1))
  else Ok s1.

(** The inner loop of the queue-aware round robin: the queued events of one
    node, each at the node's cost.  The flag tells whether the loop ran to
    its end ([true]) or left at a request that does not fit ([false]);
    what leaving means ([return] or [break]) is up to the caller. *)
Fixpoint drain_node (cost : Z) (t : Z) (events : list Event) (p : Pass)
    : result (bool * Pass) :=
  match events with
  | [] => Ok (true, p)
  | event :: rest =>
      let no_pilots := budget p - cost in
      if decide (0 <= no_pilots) then
        q <-! py_remove event (queue p);
        drain_node cost t rest
          (mkPass no_pilots q (write_trace (get_entry event t true) (written p)))
      else Ok (false, mkPass no_pilots (queue p) (written p))
  end.

(** The outer loop [for _node in nodes], with [ind = nodes.index(_node)];
    nodes are distinct objects, so [ind] is the position in the pool.
    [returns] tells whether the inner loop leaves by [return] (the whole
    policy stops) or by [break] (the next node is tried). *)
Fixpoint drain_nodes (returns : bool) (t : Z) (nodes : list Node) (ind : nat) (p : Pass)
    : result (bool * Pass) :=
  match nodes with
  | [] => Ok (true, p)
  | _node :: rest =>
      let events := filter (fun e => node_id e = ind) (queue p) in
      r <-! drain_node (pilot_samples _node) t events p;
      if (fst r || negb returns)%bool
      then drain_nodes returns t rest (S ind) (snd r)
      else Ok (false, snd r)
  end.

(** [__round_robin_queue_info] *)
Definition __round_robin_queue_info (s : Simulation) : result Simulation :=
  a <-! drain_nodes true (time s) (pool_URLLC s) 0
          (mkPass (no_pilots s) (send_queue_URLLC s) (trace s));
  let s1 := set_trace (written (snd a)) (set_send_queue K_URLLC (queue (snd a)) s) in
  if fst a then
    if decide (0 < budget (snd a)) then
      b <-! drain_nodes true (time s) (pool_mMTC s) 0
              (mkPass (budget (snd a)) (send_queue_mMTC s) (written (snd a)));
      Ok (set_trace (written (snd b)) (set_send_queue K_mMTC (queue (snd b)) s1))
    else Ok s1
  else Ok s1.

(** [for event in mmtc_events: ...] where [mmtc_events] IS the send queue
    (no copy is taken): the list iterator reads position [i] of the live
    list and then moves to [i + 1], while the body removes the served event
    from that same list.  [fuel] bounds the number of iterations; the
    length of the queue is always enough ([serve_live_fuel]). *)
Fixpoint serve_live (fuel : nat) (pool : list Node) (t : Z) (i : nat) (p : Pass)
    : result Pass :=
  match fuel with
  | O => Ok p
  | S fuel' =>
      match queue p !! i with
      | None => Ok p
      | Some event =>
          node <-! get_node pool (node_id event);
          let no_pilots := budget p - pilot_samples node in
          if decide (0 <= no_pilots) then
            q <-! py_remove event (queue p);
            serve_live fuel' pool t (S i)
              (mkPass no_pilots q (write_trace (get_entry event t true) (written p)))
          else Ok (mkPass no_pilots (queue p) (written p))
      end
  end.

(** The class-B pass shared by RRQ_FCFS and RRN_FCFS: the send queue is
    sorted in place, latest deadline first, and served while iterating it. *)
Definition serve_mmtc_latest_first (s : Simulation) (no_pilots : Z) (tr : list Entry)
    : result Pass :=
  let mmtc_events := py_sort dead_time true (send_queue_mMTC s) in
  serve_live (length mmtc_events) (pool_mMTC s) (time s) 0
    (mkPass no_pilots mmtc_events tr).

(** [__round_robin_queue_first_come_first_served] *)
Definition __round_robin_queue_first_come_first_served (s : Simulation) : result Simulation :=
  a <-! drain_nodes true (time s) (pool_URLLC s) 0
          (mkPass (no_pilots s) (send_queue_URLLC s) (trace s));
  let s1 := set_trace (written (snd a)) (set_send_queue K_URLLC (queue (snd a)) s) in
  if fst a then
    if decide (0 < budget (snd a)) then
      b <-! serve_mmtc_latest_first s (budget (snd a)) (written (snd a));
      Ok (set_trace (written b) (set_send_queue K_mMTC (queue b) s1))
    else Ok s1
  else Ok s1.

(** The head of both RRN policies: the frame counter advances modulo
    [frame_loops] and the cursor goes back to 0 when the counter is 1.
    [cursor_resets] is the test the code makes. *)
Definition next_frame_counter (s : Simulation) : Z :=
  (frame_counter s + 1) mod frame_loops s.

Definition cursor_resets (s : Simulation) : Prop :=
  next_frame_counter s = 1.

Global Instance cursor_resets_dec s : Decision (cursor_resets s).
Proof. unfold cursor_resets. apply _. Defined.

Definition advance_frame (s : Simulation) : result Simulation :=
  if decide (frame_loops s = 0) then Raise ZeroDivisionError
  else
    let s1 := set_frame_counter (next_frame_counter s) s in
    Ok (if decide (cursor_resets s) then set_node_pointer 0%nat s1 else s1).

(** The loop state of the grant loop of the RRN policies. *)
Record Grant : Type := mkGrant {
  g_budget : Z;
  g_pointer : nat;
  g_pool : list Node
}.

(** [for i in range(start_ind, len(pool)): ...]: a node whose cost fits is
    marked [assigned] and the cursor moves on; at the first node that does
    not fit its cost is given back and the loop stops. *)
Fixpoint grant_nodes (indices : list nat) (g : Grant) : result Grant :=
  match indices with
  | [] => Ok g
  | i :: rest =>
      _node <-! get_node (g_pool g) i;
      let no_pilots := g_budget g - pilot_samples _node in
      if decide (0 <= no_pilots) then
        grant_nodes rest
          (mkGrant no_pilots (S (g_pointer g)) (<[i := set_assigned true _node]> (g_pool g)))
      else Ok (mkGrant (no_pilots + pilot_samples _node) (g_pointer g) (g_pool g))
  end.

(** [range(start, stop)] *)
Definition py_range (start stop : nat) : list nat := seq start (stop - start).

Definition grant_pass (s : Simulation) : result Grant :=
  let start_ind := node_pointer s in
  grant_nodes (py_range start_ind (length (pool_URLLC s)))
    (mkGrant (no_pilots s) (node_pointer s) (pool_URLLC s)).

(** [list(filter(lambda e: self.Slices[s].get_node(e.node_id).assigned, queue))] *)
Fixpoint filter_assigned (pool : list Node) (events : list Event) : result (list Event) :=
  match events with
  | [] => Ok []
  | e :: rest =>
      _node <-! get_node pool (node_id e);
      r <-! filter_assigned pool rest;
      Ok (if assigned _node then e :: r else r)
  end.

(** The loop state of [__handle_send_queue]. *)
Record Resolve : Type := mkResolve {
  r_queue : list Event;
  r_pool : list Node;
  r_trace : list Entry;
  overlapped_event : list Event
}.

(** The body of [for event in events_assigend: ...]. *)
Definition resolve_event (t : Z) (events_assigend : list Event) (event : Event)
    (r : Resolve) : result Resolve :=
  if decide (event ∈ overlapped_event r) then Ok r
  else
    let events_from_same_node :=
      filter (fun e => node_id e = node_id event) events_assigend in
    if decide (length events_from_same_node = 1%nat) then
      q <-! py_remove event (r_queue r);
      _node <-! get_node (r_pool r) (node_id event);
      Ok (mkResolve q (<[node_id event := set_active false _node]> (r_pool r))
            (write_trace (get_entry event t true) (r_trace r)) (overlapped_event r))
    else
      _node <-! get_node (r_pool r) (node_id event);
      let pool := <[node_id event := set_active true _node]> (r_pool r) in
      let events_from_same_node := py_sort dead_time false events_from_same_node in
      first <-! of_option IndexError (events_from_same_node !! 0%nat);
      q <-! py_remove first (r_queue r);
      Ok (mkResolve q pool (write_trace (get_entry first t true) (r_trace r))
            (overlapped_event r ++ events_from_same_node)).

Fixpoint resolve_events (t : Z) (events_assigend : list Event) (todo : list Event)
    (r : Resolve) : result Resolve :=
  match todo with
  | [] => Ok r
  | event :: rest =>
      r1 <-! resolve_event t events_assigend event r;
      resolve_events t events_assigend rest r1
  end.

(** [__handle_send_queue] *)
Definition __handle_send_queue (s : Simulation) : result Simulation :=
  let queue := send_queue_URLLC s in
  events_assigend <-! filter_assigned (pool_URLLC s) queue;
  r <-! resolve_events (time s) events_assigend events_assigend
          (mkResolve (send_queue_URLLC s) (pool_URLLC s) (trace s) []);
  Ok (set_trace (r_trace r)
       (set_pool_URLLC (r_pool r) (set_send_queue K_URLLC (r_queue r) s))).

(** [__round_robin_half_queue_info] (RRN_RRQ) *)
Definition __round_robin_half_queue_info (s : Simulation) : result Simulation :=
  s0 <-! advance_frame s;
  g <-! grant_pass s0;
  let s1 := set_node_pointer (g_pointer g) (set_pool_URLLC (g_pool g) s0) in
  s2 <-! (if decide (0 < g_budget g) then
            b <-! drain_nodes false (time s1) (pool_mMTC s1) 0
                    (mkPass (g_budget g) (send_queue_mMTC s1) (trace s1));
            Ok (set_trace (written (snd b)) (set_send_queue K_mMTC (queue (snd b)) s1))
          else Ok s1);
  __handle_send_queue s2.

(** [__round_robin_no_queue_info_first_come_first_served] (RRN_FCFS) *)
Definition __round_robin_no_queue_info_first_come_first_served (s : Simulation)
    : result Simulation :=
  s0 <-! advance_frame s;
  g <-! grant_pass s0;
  let s1 := set_node_pointer (g_pointer g) (set_pool_URLLC (g_pool g) s0) in
  s2 <-! (if decide (0 < g_budget g) then
            b <-! serve_mmtc_latest_first s1 (g_budget g) (trace s1);
            Ok (set_trace (written b) (set_send_queue K_mMTC (queue b) s1))
          else Ok s1);
  __handle_send_queue s2.

(** ** The engine *)

(** [self.strategy_mapping] *)
Definition strategy_mapping : gmap string (Simulation → result Simulation) :=
  <["FCFS_FCFS" := __fist_come_first_served]>
  (<["RRQ_RRQ" := __round_robin_queue_info]>
  (<["RRQ_FCFS" := __round_robin_queue_first_come_first_served]>
  (<["RRN_FCFS" := __round_robin_no_queue_info_first_come_first_served]>
  (<["RRN_RRQ" := __round_robin_half_queue_info]> ∅)))).

(** [__assign_pilots] *)
Definition __assign_pilots (s : Simulation) : result Simulation :=
  policy <-! of_option KeyError (strategy_mapping !! pilot_strategy s);
  policy s.

(** [self.event_heap.push(self._DEPARTURE, time)] *)
Definition departure_event (t : Z) : Event := mkEvent _DEPARTURE t 0 0%nat 0.

(** [__handle_departure] *)
Definition __handle_departure (event : Event) (s : Simulation) : result Simulation :=
  s1 <-! __handle_expired_events s;
  s2 <-! __assign_pilots s1;
  Ok (set_event_heap
        (EventHeap.push (departure_event (time s2 + frame_length s2)) (event_heap s2)) s2).

(** [__handle_event]: the dictionary [event_actions] has the three event
    kinds as keys. *)
Definition __handle_event (event : Event) (s : Simulation) : result Simulation :=
  if decide (etype event = _URLLC_ARRIVAL) then __handle_urllc_arrival event s
  else if decide (etype event = _mMTC_ARRIVAL) then __handle_mmtc_arrival event s
  else if decide (etype event = _DEPARTURE) then __handle_departure event s
  else Raise KeyError.

(** The configuration values [Simulation.__init__] reads. *)
Record Config : Type := mkConfig {
  cfg_no_pilots : Z;
  cfg_simulation_length : Z;
  cfg_frame_length : Z;
  cfg_strategy : string
}.

(** [__initialize_nodes]: one first arrival per node of a slice, where
    [slice_type] is 0 for class A and 1 for class B. *)
Fixpoint initialize_nodes_from (slice_type : Z) (nodes : list Node) (ind : nat)
    (s : Simulation) : result Simulation :=
  match nodes with
  | [] => Ok s
  | _node :: rest =>
      let next_arrival := get_init (event_generator _node) in
      let key := if decide (slice_type = _URLLC)
                 then "no_urllc_arrivals" else "no_mmtc_arrivals" in
      st <-! Stats.incr key (stats s);
      cnt <-! of_option KeyError (st !! key);
      let ev := mkEvent (slice_type + 3) (time s + next_arrival)
                  (time s + next_arrival + deadline _node) ind cnt in
      initialize_nodes_from slice_type rest (S ind)
        (set_event_heap (EventHeap.push ev (event_heap s)) (set_stats st s))
  end.

Definition __initialize_nodes (slice_type : Z) (nodes : list Node) (s : Simulation)
    : result Simulation :=
  initialize_nodes_from slice_type nodes 0 s.

(** [a / b] on the values the embedding covers.  Python's true division
    raises [ZeroDivisionError] for a divisor 0 and gives a float otherwise.
    The embedding holds [frame_loops] and [frame_counter] as integers, so it
    covers the quotients that are integers, where the float is that
    integer; for any other quotient it answers [OutsideEmbedding], which is
    an outcome of the embedding and not an exception of the program: the
    program goes on with a fractional [frame_loops] there, and nothing is
    stated about it. *)
Definition true_div (a b : Z) : result Z :=
  if decide (b = 0) then Raise ZeroDivisionError
  else if decide (a mod b = 0) then Ok (a / b)
  else Raise OutsideEmbedding.

(** [Simulation.__init__].  The two slices are built by code that is not
    part of the sources and are taken as the pools [urllc] and [mmtc];
    [scheduler] is the optional argument that overrides the configured
    strategy.  [frame_loops] is the quotient of class-A node 0's deadline by
    the frame length, by [true_div]. *)
Definition init (config : Config) (st : gmap string Z) (tr : list Entry)
    (urllc mmtc : list Node) (scheduler : option string) : result Simulation :=
  let strategy := match scheduler with
                  | Some name => name
                  | None => cfg_strategy config
                  end in
  node0 <-! get_node urllc 0;
  loops <-! true_div (deadline node0) (cfg_frame_length config);
  let s := mkSim st tr 0 (cfg_no_pilots config) (cfg_simulation_length config)
             (cfg_frame_length config) strategy EventHeap.empty [] [] urllc mmtc
             0 loops 0%nat in
  s1 <-! __initialize_nodes _URLLC urllc s;
  s2 <-! __initialize_nodes _mMTC mmtc s1;
  Ok (set_event_heap
        (EventHeap.push (departure_event (time s2 + frame_length s2)) (event_heap s2)) s2).

(** One turn of the loop of [run]: pop the next event, advance the clock,
    handle the event. *)
Definition run_step (s : Simulation) : result Simulation :=
  r <-! EventHeap.pop (event_heap s);
  let next_event := fst r in
  let s1 := set_time (etime next_event) (set_event_heap (snd r) s) in
  __handle_event next_event s1.

(** [run], unrolled for at most [turns] turns of its [while] loop: the
    state when the loop has ended, or after [turns] turns. *)
Fixpoint run (turns : nat) (s : Simulation) : result Simulation :=
  match turns with
  | O => Ok s
  | S turns' =>
      if decide (time s < simulation_length s) then
        s1 <-! run_step s; run turns' s1
      else Ok s
  end.

(** ** Notions used to state the properties *)

(** The five names [strategy_mapping] knows. *)
Definition recognized : list string :=
  ["FCFS_FCFS"; "RRQ_RRQ"; "RRQ_FCFS"; "RRN_FCFS"; "RRN_RRQ"].


Definition rmap {A B : Type} (f : A → B) (r : result A) : result B :=
  match r with
  | Ok a => Ok (f a)
  | Raise e => Raise e
  end.

(** A request has expired at time [t] when its deadline lies strictly
    before [t]. *)
Definition expired (t : Z) (e : Event) : Prop := dead_time e < t.

Global Instance expired_dec t e : Decision (expired t e).
Proof. unfold expired. apply _. Defined.

(** What retiring one expired request does to the state, apart from taking
    it out of its queue. *)
Definition retire_failed (t : Z) (s : Simulation) (e : Event) : Simulation :=
  if decide (etype e = _URLLC_ARRIVAL) then
    set_trace (write_trace (get_entry e t false) (trace s))
      (set_stats (alter Z.succ "no_missed_urllc" (stats s))
        (set_pool_URLLC (alter (set_active false) (node_id e) (pool_URLLC s)) s))
  else if decide (etype e = _mMTC_ARRIVAL) then
    set_trace (write_trace (get_entry e t false) (trace s))
      (set_stats (alter Z.succ "no_missed_mmtc" (stats s))
        (set_pool_mMTC (alter (set_active false) (node_id e) (pool_mMTC s)) s))
  else s.

(** A queued request can be retired without an exception: its node exists
    in the pool of its class and the counter of its class exists. *)
Definition wf_event (s : Simulation) (e : Event) : Prop :=
  (etype e = _URLLC_ARRIVAL →
     (node_id e < length (pool_URLLC s))%nat ∧ is_Some (stats s !! "no_missed_urllc"))
  ∧ (etype e = _mMTC_ARRIVAL →
     (node_id e < length (pool_mMTC s))%nat ∧ is_Some (stats s !! "no_missed_mmtc")).

(** The nodes that own the requests of kind [cls] in a list. *)
Definition owners (cls : Z) (E : list Event) : list nat :=
  map node_id (filter (fun e => etype e = cls) E).

(** The requests of one node, and the trace entries of one node. *)
Definition of_node (n : nat) (l : list Event) : list Event :=
  filter (fun e => node_id e = n) l.

Definition entries_of_node (n : nat) (l : list Entry) : list Entry :=
  filter (fun en => node_id (entry_event en) = n) l.

Definition is_assigned (pool : list Node) (i : nat) : bool :=
  match pool !! i with
  | Some _node => assigned _node
  | None => false
  end.

(** Serving a list of (cost, request) pairs while the budget allows: the
    requests served, the budget left (with the cost of the first request
    that does not fit already subtracted, as in the code) and whether all
    of them fitted. *)
Fixpoint served_prefix (b : Z) (items : list (Z * Event)) : list Event :=
  match items with
  | [] => []
  | (c, e) :: rest => if decide (0 <= b - c) then e :: served_prefix (b - c) rest else []
  end.

Fixpoint budget_after (b : Z) (items : list (Z * Event)) : Z :=
  match items with
  | [] => b
  | (c, e) :: rest => if decide (0 <= b - c) then budget_after (b - c) rest else b - c
  end.

Fixpoint all_fit (b : Z) (items : list (Z * Event)) : bool :=
  match items with
  | [] => true
  | (c, e) :: rest => if decide (0 <= b - c) then all_fit (b - c) rest else false
  end.

(** The requests of a queue in round-robin order: node by node in pool
    order from index [ind], each node's requests in queue order, each with
    the cost of its node. *)
Fixpoint rr_items (nodes : list Node) (ind : nat) (q : list Event) : list (Z * Event) :=
  match nodes with
  | [] => []
  | _node :: rest =>
      map (fun e => (pilot_samples _node, e)) (of_node ind q) ++ rr_items rest (S ind) q
  end.

(** What one serving pass does to its loop state: the requests [sv] are
    served in order and taken out of the queue, leaving budget [b]. *)
Definition pass_serves (t : Z) (p : Pass) (sv : list Event) (b : Z) (p' : Pass) : Prop :=
  budget p' = b
  ∧ written p' = written p ++ map (fun e => get_entry e t true) sv
  ∧ queue p ≡ₚ sv ++ queue p'
  ∧ sublist (queue p') (queue p).

(** The view overlap resolution has of node [n] while it runs, from the
    send queue [Q0], pool [P0] and trace [T0] it started with and the list
    [A] of requests of assigned nodes: the node has not been looked at yet,
    or it has been resolved. *)
Definition Untouched (Q0 : list Event) (P0 : list Node) (T0 : list Entry)
    (n : nat) (r : Resolve) : Prop :=
  of_node n (r_queue r) = of_node n Q0
  ∧ r_pool r !! n = P0 !! n
  ∧ entries_of_node n (r_trace r) = entries_of_node n T0
  ∧ ∀ x, x ∈ overlapped_event r → node_id x ≠ n.

Definition Done (t : Z) (Q0 : list Event) (P0 : list Node) (T0 : list Entry)
    (A : list Event) (n : nat) (r : Resolve) : Prop :=
  ∃ first,
    py_sort dead_time false (of_node n A) !! 0%nat = Some first
    ∧ py_remove first (of_node n Q0) = Ok (of_node n (r_queue r))
    ∧ entries_of_node n (r_trace r) = entries_of_node n T0 ++ [get_entry first t true]
    ∧ r_pool r !! n =
        set_active (bool_decide (length (of_node n A) ≠ 1%nat)) <$> P0 !! n
    ∧ (length (of_node n A) ≠ 1%nat → ∀ x, x ∈ of_node n A → x ∈ overlapped_event r).

Definition Inv (t : Z) (Q0 : list Event) (P0 : list Node) (T0 : list Entry)
    (A : list Event) (pre : list Event) (r : Resolve) : Prop :=
  length (r_pool r) = length P0
  ∧ (∃ new, r_trace r = T0 ++ new
            ∧ Forall (fun en => entry_success en = true ∧ entry_time en = t) new)
  ∧ ∀ n, (n ∈ map node_id pre → Done t Q0 P0 T0 A n r)
         ∧ (n ∉ map node_id pre → Untouched Q0 P0 T0 n r).

(** The resource cost of a request of a class with pool [pool]: the
    [pilot_samples] of its node; [priced] pairs each request with its cost. *)
Definition node_cost (pool : list Node) (e : Event) : Z :=
  match pool !! node_id e with
  | Some _node => pilot_samples _node
  | None => 0
  end.

Definition priced (pool : list Node) (events : list Event) : list (Z * Event) :=
  map (fun e => (node_cost pool e, e)) events.

(** The resource cost of a served request, in the pool of its class. *)
Definition cost_of (s : Simulation) (ev : Event) : Z :=
  node_cost (if decide (etype ev = _URLLC_ARRIVAL) then pool_URLLC s else pool_mMTC s) ev.

(** The sum of the resource costs of a list of requests of one class. *)
Definition total_cost (pool : list Node) (events : list Event) : Z :=
  foldr Z.add 0 (map (node_cost pool) events).

(** A serving loop from [p] to [p'] stays within its budget: it reports the
    requests [sv] as served, and if it started with a budget that is not
    negative their costs sum to at most that budget, and to exactly what
    is missing from the budget when the loop ends with a budget that is not
    negative. *)
Definition within_budget (pool : list Node) (t : Z) (p p' : Pass) (sv : list Event) : Prop :=
  written p' = written p ++ map (fun e => get_entry e t true) sv
  ∧ Forall (fun e => e ∈ queue p) sv
  ∧ (0 <= budget p →
       total_cost pool sv <= budget p
       ∧ (0 <= budget p' → total_cost pool sv = budget p - budget p')).

(** The entries a step from [s] to [s'] has added to the trace, and the sum
    of the costs of the requests it reported as served. *)
Definition new_entries (s s' : Simulation) : list Entry :=
  drop (length (trace s)) (trace s').

Definition served_cost (s s' : Simulation) : Z :=
  foldr Z.add 0
    (map (fun en => cost_of s (entry_event en))
         (filter (fun en => entry_success en = true) (new_entries s s'))).

(** The state in which [__handle_departure] calls [__assign_pilots] at the
    next event of [s]: the event is popped, the clock advanced and the
    expired requests removed. *)
Definition allocation_input (s : Simulation) : result Simulation :=
  r <-! EventHeap.pop (event_heap s);
  __handle_expired_events (set_time (etime (fst r)) (set_event_heap (snd r) s)).

(** ** Concrete scenarios *)

(** A generator with a first delay and a list of later delays, 1000 once
    the list is used up. *)
Definition delays (first : Z) (later : list Z) : EventGenerator :=
  mkGen first (fun k => nth k later 1000) 0.

Definition node_profile (cost dl : Z) : Node :=
  mkNode cost dl false false (delays 1000 []).

Definition fresh_stats : gmap string Z := Stats.stats (Stats.init "stats.csv").

(** Scenario A of the spec, with one class-B request added: budget 5, node 0
    (cost 3, deadline 10) and node 1 (cost 3, deadline 8) of class A, and a
    class-B request of cost 1. *)
Definition scenario_A : Simulation :=
  mkSim fresh_stats [] 5 5 100 5 "FCFS_FCFS" EventHeap.empty
    [mkEvent _URLLC_ARRIVAL 1 10 0 1; mkEvent _URLLC_ARRIVAL 2 8 1 2]
    [mkEvent _mMTC_ARRIVAL 1 50 0 1]
    [node_profile 3 9; node_profile 3 6] [node_profile 1 49] 0 3 0.

(** Scenario B of the spec: budget 4, class-A node 0 with two queued
    requests and node 1 with one, all of cost 2. *)
Definition scenario_B : Simulation :=
  mkSim fresh_stats [] 10 4 100 10 "RRQ_RRQ" EventHeap.empty
    [mkEvent _URLLC_ARRIVAL 7 37 0 4; mkEvent _URLLC_ARRIVAL 5 35 1 3;
     mkEvent _URLLC_ARRIVAL 2 32 0 2]
    []
    [node_profile 2 30; node_profile 2 30] [node_profile 1 50] 0 3 0.

(** Scenario C of the spec: a class-B request with deadline 5 still queued
    at the frame boundary at time 6. *)
Definition scenario_C : Simulation :=
  mkSim fresh_stats [] 6 4 100 3 "FCFS_FCFS" EventHeap.empty
    [] [mkEvent _mMTC_ARRIVAL 1 5 0 1]
    [node_profile 2 9] [node_profile 5 4] 0 3 0.

(** Scenario D of the spec: class-A node 0 has been granted in this frame
    and has two live requests, with deadlines 12 and 9. *)
Definition scenario_D : Simulation :=
  mkSim fresh_stats [] 5 4 100 5 "RRN_FCFS" EventHeap.empty
    [mkEvent _URLLC_ARRIVAL 4 12 0 2; mkEvent _URLLC_ARRIVAL 1 9 0 1] []
    [mkNode 2 8 true true (delays 1000 []); node_profile 2 8] [] 1 2 1.

(** A class-B queue for the latest-deadline-first pass: three requests of
    cost 1 with deadlines 50, 90 and 70, and budget 10. *)
Definition scenario_latest_first : Simulation :=
  mkSim fresh_stats [] 10 10 100 10 "RRQ_FCFS" EventHeap.empty
    []
    [mkEvent _mMTC_ARRIVAL 3 50 0 3; mkEvent _mMTC_ARRIVAL 2 90 1 2;
     mkEvent _mMTC_ARRIVAL 1 70 1 1]
    [node_profile 3 9] [node_profile 1 40; node_profile 1 40] 0 3 0.

(** A run of RRN_FCFS over two frames: budget 2, frames of length 10, two
    class-A nodes of cost 2 and deadline 30 (so three frames per
    superframe); node 0 sends at times 1 and 11, node 1 at time 12. *)
Definition two_frame_pool : list Node :=
  [mkNode 2 30 false false (delays 1 [10]); mkNode 2 30 false false (delays 12 [])].

Definition two_frame_start : result Simulation :=
  init (mkConfig 2 20 10 "RRN_FCFS") fresh_stats [] two_frame_pool [] None.


(** A run of RRN_FCFS where the deadline of class-A node 0 equals the frame
    length, so a superframe is one frame: budget 2, two class-A nodes of
    cost 2 sending every 10 time units. *)
Definition ratio_one_pool : list Node :=
  [mkNode 2 10 false false (delays 1 [10; 10; 10; 10]);
   mkNode 2 10 false false (delays 2 [10; 10; 10; 10])].

Definition ratio_one_start : result Simulation :=
  init (mkConfig 2 45 10 "RRN_FCFS") fresh_stats [] ratio_one_pool [] None.

(** ** Notions for the engine as a whole *)

(** A request belongs to the traffic model of [s]: it is an arrival of one
    of the two classes and names a node of the pool of its class. *)
Definition wf_arrival (s : Simulation) (e : Event) : Prop :=
  (etype e = _URLLC_ARRIVAL ∧ (node_id e < length (pool_URLLC s))%nat)
  ∨ (etype e = _mMTC_ARRIVAL ∧ (node_id e < length (pool_mMTC s))%nat).

Definition is_departure (e : Event) : Prop := etype e = _DEPARTURE.

Global Instance is_departure_dec e : Decision (is_departure e).
Proof. unfold is_departure. apply _. Defined.

(** The keys of the statistics dictionary the engine increments. *)
Definition engine_counters : list string :=
  ["no_urllc_arrivals"; "no_mmtc_arrivals"; "no_missed_urllc"; "no_missed_mmtc"].

(** The state of a run that was set up properly: the strategy is one of the
    five, [frame_loops] is not 0, the counters exist, the heap holds
    arrivals of existing nodes and exactly one frame-boundary event, and
    each send queue holds arrivals of its class from existing nodes. *)
Record engine_ok (s : Simulation) : Prop := mk_engine_ok {
  ok_strategy : pilot_strategy s ∈ recognized;
  ok_loops : frame_loops s ≠ 0;
  ok_stats : Forall (fun key => is_Some (stats s !! key)) engine_counters;
  ok_heap : Forall (fun e => is_departure e ∨ wf_arrival s e) (event_heap s);
  ok_departure : length (filter is_departure (event_heap s : list Event)) = 1%nat;
  ok_queue_URLLC :
    Forall (fun e => etype e = _URLLC_ARRIVAL ∧ (node_id e < length (pool_URLLC s))%nat)
           (send_queue_URLLC s);
  ok_queue_mMTC :
    Forall (fun e => etype e = _mMTC_ARRIVAL ∧ (node_id e < length (pool_mMTC s))%nat)
           (send_queue_mMTC s)
}.

(** The profile of a node: what the engine never writes. *)
Definition profile (n : Node) : Z * Z := (pilot_samples n, deadline n).

(** What an allocation pass leaves alone: everything but the two send
    queues, the trace, the flags of the class-A nodes and the cursor of the
    RRN policies. *)
Definition same_setup (s s' : Simulation) : Prop :=
  stats s' = stats s ∧ time s' = time s ∧ no_pilots s' = no_pilots s
  ∧ simulation_length s' = simulation_length s ∧ frame_length s' = frame_length s
  ∧ pilot_strategy s' = pilot_strategy s ∧ event_heap s' = event_heap s
  ∧ frame_loops s' = frame_loops s ∧ pool_mMTC s' = pool_mMTC s
  ∧ map profile (pool_URLLC s') = map profile (pool_URLLC s)
  ∧ map event_generator (pool_URLLC s') = map event_generator (pool_URLLC s).

(** An allocation pass from [s] to [s'] loses no request and invents none:
    it takes the requests [svA] out of the class-A queue and [svB] out of
    the class-B queue, and what it adds to the trace is one successful
    entry, at the time of the pass, for each of them. *)
Definition pass_conserves (s s' : Simulation) (svA svB : list Event) : Prop :=
  send_queue_URLLC s ≡ₚ svA ++ send_queue_URLLC s'
  ∧ send_queue_mMTC s ≡ₚ svB ++ send_queue_mMTC s'
  ∧ ∃ new, trace s' = trace s ++ new
           ∧ new ≡ₚ map (fun e => get_entry e (time s) true) (svA ++ svB).

(** The loop-level form of the same: a serving loop takes [sv] out of the
    queue it works on and reports each of them once. *)
Definition loop_conserves (t : Z) (q : list Event) (tr : list Entry)
    (q' : list Event) (tr' : list Entry) (sv : list Event) : Prop :=
  q ≡ₚ sv ++ q' ∧ tr' = tr ++ map (fun e => get_entry e t true) sv.

(** How many nodes of a run of nodes with costs [costs] the grant loop
    marks with budget [b]: the nodes are taken in order as long as the cost
    of the next one fits what is left. *)
Fixpoint grant_count (b : Z) (costs : list Z) : nat :=
  match costs with
  | [] => 0%nat
  | c :: rest => if decide (0 <= b - c) then S (grant_count (b - c) rest) else 0%nat
  end.

(** The sum of a list of costs. *)
Definition sum_costs (costs : list Z) : Z := foldr Z.add 0 costs.

(** The shape every policy has: it ends in a state that differs from the
    one it started in by served requests only. *)
Definition pass_ok (s s' : Simulation) : Prop :=
  (∃ svA svB, pass_conserves s s' svA svB) ∧ same_setup s s'.

(** The delays a node will draw: the part of its generator that the engine
    never changes. *)
Definition delay_source (n : Node) : Z * (nat → Z) :=
  (init_delay (event_generator n), next_delay (event_generator n)).

(** No node ever draws a negative delay. *)
Definition delays_nonneg (pool : list Node) : Prop :=
  Forall (fun n => 0 <= init_delay (event_generator n)
                   ∧ ∀ k, 0 <= next_delay (event_generator n) k) pool.

(** The clock is ahead of nothing: every event in the heap is due now or
    later, a frame boundary in the heap is due within one frame length,
    frames have a length that is not negative and no node draws a negative
    delay. *)
Definition clock_ok (s : Simulation) : Prop :=
  0 <= frame_length s
  ∧ Forall (fun e => time s <= etime e) (event_heap s)
  ∧ Forall (fun e => is_departure e → etime e <= time s + frame_length s) (event_heap s)
  ∧ delays_nonneg (pool_URLLC s) ∧ delays_nonneg (pool_mMTC s).

(** The first arrivals [__initialize_nodes] pushes for the nodes of a
    slice, at time [t], for nodes at positions [ind], [ind + 1], ... and
    an arrival counter that stands at [cnt]. *)
Fixpoint first_arrivals (slice_type : Z) (t : Z) (nodes : list Node) (ind : nat) (cnt : Z)
    : list Event :=
  match nodes with
  | [] => []
  | n :: rest =>
      mkEvent (slice_type + 3) (t + init_delay (event_generator n))
        (t + init_delay (event_generator n) + deadline n) ind (cnt + 1)
      :: first_arrivals slice_type t rest (S ind) (cnt + 1)
  end.

(** The counter [__initialize_nodes] and the arrival handlers step for a
    slice type. *)
Definition arrivals_key (slice_type : Z) : string :=
  if decide (slice_type = _URLLC) then "no_urllc_arrivals" else "no_mmtc_arrivals".

(** The strategy [Simulation.__init__] settles on. *)
Definition chosen_strategy (config : Config) (scheduler : option string) : string :=
  default (cfg_strategy config) scheduler.

(** *** The books of a run *)

(** How many events of a list are of kind [cls]. *)
Definition count_class (cls : Z) (E : list Event) : Z := Z.of_nat (length (owners cls E)).

(** The requests of kind [cls] the engine knows of: arrivals still to come
    in the heap, requests waiting in the two queues and requests with an
    entry in the trace. *)
Definition in_flight (cls : Z) (s : Simulation) : Z :=
  count_class cls (event_heap s) + count_class cls (send_queue_URLLC s)
  + count_class cls (send_queue_mMTC s) + count_class cls (map entry_event (trace s)).

(** The requests a trace records as failed. *)
Definition failures (tr : list Entry) : list Event :=
  map entry_event (filter (fun en => entry_success en = false) tr).

Definition arrivals_counter (cls : Z) : string :=
  if decide (cls = _URLLC_ARRIVAL) then "no_urllc_arrivals" else "no_mmtc_arrivals".

Definition missed_counter (cls : Z) : string :=
  if decide (cls = _URLLC_ARRIVAL) then "no_missed_urllc" else "no_missed_mmtc".

(** The books of a class: by how much its arrival counter exceeds the
    requests the engine knows of, and by how much its missed counter
    exceeds the failures in the trace. *)
Definition books (cls : Z) (s : Simulation) : option (Z * Z) :=
  match stats s !! arrivals_counter cls, stats s !! missed_counter cls with
  | Some a, Some m =>
      Some (a - in_flight cls s, m - count_class cls (failures (trace s)))
  | _, _ => None
  end.

(** *** The cursor of the RRN policies *)

(** The cursor lies within the class-A pool, every node before it has been
    granted, and the frame counter counts within a superframe. *)
Definition cursor_ok (s : Simulation) : Prop :=
  (node_pointer s ≤ length (pool_URLLC s))%nat
  ∧ (∀ i, (i < node_pointer s)%nat → assigned <$> pool_URLLC s !! i = Some true)
  ∧ 0 <= frame_counter s < frame_loops s.

(** *** The requests the engine knows of *)

(** All the events a state holds: those in the heap, those waiting in the
    two queues and those with an entry in the trace. *)
Definition all_events (s : Simulation) : list Event :=
  event_heap s ++ send_queue_URLLC s ++ send_queue_mMTC s ++ map entry_event (trace s).

(** Those of kind [cls]. *)
Definition known (cls : Z) (s : Simulation) : list Event :=
  filter (fun e => etype e = cls) (all_events s).

(** The requests of kind [cls] are numbered apart: no number is above the
    arrival counter of the class and no number is carried twice. *)
Definition numbered (cls : Z) (s : Simulation) : Prop :=
  ∃ v, stats s !! arrivals_counter cls = Some v
       ∧ Forall (fun e => counter e <= v) (known cls s)
       ∧ NoDup (map counter (known cls s)).

(** *** What the trace says *)

(** The verdict of an entry agrees with its time stamp: a success is
    stamped at or before the deadline of its request, a failure after it. *)
Definition verdict_ok (en : Entry) : Prop :=
  if entry_success en then entry_time en <= dead_time (entry_event en)
  else dead_time (entry_event en) < entry_time en.

(** Every verdict of the trace agrees with its time stamp, no entry is
    stamped later than now, and the entries are in the order of their
    time stamps. *)
Definition trace_ok (s : Simulation) : Prop :=
  Forall verdict_ok (trace s)
  ∧ Forall (fun en => entry_time en <= time s) (trace s)
  ∧ StronglySorted Z.le (map entry_time (trace s)).

(** *** Requests do not linger *)

Definition deadlines_nonneg (pool : list Node) : Prop :=
  Forall (fun n => 0 <= deadline n) pool.

(** No arrival in the heap is due after its own deadline, and no queued
    request has a deadline more than one frame length before a frame
    boundary that is still to come. *)
Definition timely (s : Simulation) : Prop :=
  Forall (fun e => ¬ is_departure e → etime e <= dead_time e) (event_heap s)
  ∧ (∀ d e, d ∈ event_heap s → is_departure d →
            e ∈ send_queue_URLLC s ++ send_queue_mMTC s →
            etime d <= dead_time e + frame_length s)
  ∧ deadlines_nonneg (pool_URLLC s) ∧ deadlines_nonneg (pool_mMTC s).

(** *** Values that floating point holds exactly *)

(** The code computes the first arrivals in floating point (the clock
    starts at [0.0]); the embedding computes them in integers.  The two
    agree on integers that a double holds exactly, sums included. *)
Definition exact_bound : Z := 2 ^ 53.

(** The first delay and the deadline of every node of a pool are such
    integers. *)
Definition times_exact (pool : list Node) : Prop :=
  Forall (fun n => 0 <= init_delay (event_generator n)
                   ∧ 0 <= deadline n
                   ∧ init_delay (event_generator n) + deadline n <= exact_bound) pool.

(** * Properties *)

(** ** General facts on the result monad and the list primitives *)

Lemma rbind_ok {A B : Type} (m : result A) (f : A → result B) (b : B) :
  rbind m f = Ok b → ∃ a, m = Ok a ∧ f a = Ok b.
Proof. destruct m as [a|e]; simpl; [by exists a | done]. Qed.

Lemma get_node_ok (pool : list Node) i nd : get_node pool i = Ok nd → pool !! i = Some nd.
Proof. unfold get_node. by destruct (pool !! i) as [x|]; simpl; [intros [= ->]|]. Qed.

(** ** The statistics object *)

Lemma clear_keys_lookup (keys : list string) (d : gmap string Z) (k : string) :
  Stats.clear_keys keys d !! k =
  if decide (k ∈ keys ∧ k ≠ "config_no") then Some 0 else d !! k.
Proof.
  revert d. induction keys as [|key keys IH]; intros d.
  - rewrite decide_False; [done|]. intros [H _]. by apply elem_of_nil in H.
  - unfold Stats.clear_keys in *. cbn [foldl]. rewrite IH. unfold Stats.clear_key.
    destruct (decide (k ∈ keys ∧ k ≠ "config_no")) as [[Hin Hne]|Hn].
    + rewrite decide_True; [done | split; [by right | done]].
    + destruct (decide (key = "config_no")) as [->|Hkey].
      * rewrite decide_False; [done |].
        intros [Hin Hne]. apply Hn. split; [|done].
        apply elem_of_cons in Hin as [->|?]; done.
      * destruct (decide (k = key)) as [->|Hk].
        -- rewrite lookup_insert_eq. rewrite decide_True; [done|].
           split; [by left | done].
        -- rewrite lookup_insert_ne by done. rewrite decide_False; [done|].
           intros [Hin Hne]. apply Hn. split; [|done].
           apply elem_of_cons in Hin as [->|?]; done.
Qed.

(** C10. [clear_stats] sets every counter of the dictionary to 0 except
    [config_no], which keeps its value; keys that are absent stay absent and
    the file handle is unchanged. *)
Theorem clear_stats_spec (s : Stats.t) :
  (∀ k v, k ≠ "config_no" → Stats.stats s !! k = Some v →
          Stats.stats (Stats.clear_stats s) !! k = Some 0)
  ∧ Stats.stats (Stats.clear_stats s) !! "config_no" = Stats.stats s !! "config_no"
  ∧ (∀ k, Stats.stats s !! k = None → Stats.stats (Stats.clear_stats s) !! k = None)
  ∧ Stats.stats_file (Stats.clear_stats s) = Stats.stats_file s.
Proof.
  assert (Hkeys : ∀ k, k ∈ map fst (map_to_list (Stats.stats s)) ↔
                       is_Some (Stats.stats s !! k)).
  { intros k. rewrite list_elem_of_fmap. split.
    - intros [[k' v] [-> Hin]]. apply elem_of_map_to_list in Hin. by exists v.
    - intros [v Hv]. exists (k, v). split; [done|]. by apply elem_of_map_to_list. }
  unfold Stats.clear_stats; simpl. repeat split.
  - intros k v Hne Hk. rewrite clear_keys_lookup.
    rewrite decide_True; [done|]. split; [|done]. apply Hkeys. by exists v.
  - rewrite clear_keys_lookup. rewrite decide_False; [done|]. by intros [_ ?].
  - intros k Hk. rewrite clear_keys_lookup. rewrite decide_False; [done|].
    intros [Hin _]. apply Hkeys in Hin as [v Hv]. congruence.
Qed.

(** ** Expiry at a frame boundary *)

Lemma incr_alter key (d : gmap string Z) :
  is_Some (d !! key) → Stats.incr key d = Ok (alter Z.succ key d).
Proof.
  intros [v Hv]. unfold Stats.incr. rewrite Hv. simpl. f_equal.
  apply map_eq. intros k. destruct (decide (k = key)) as [->|Hk].
  - rewrite lookup_insert_eq, lookup_alter_eq, Hv. simpl. f_equal; lia.
  - by rewrite lookup_insert_ne, lookup_alter_ne.
Qed.

Lemma insert_alter_node (pool : list Node) i (f : Node → Node) x :
  pool !! i = Some x → <[i := f x]> pool = alter f i pool.
Proof.
  intros H. apply list_eq. intros j. destruct (decide (j = i)) as [->|Hj].
  - rewrite list_lookup_insert_eq by (by eapply lookup_lt_Some).
    by rewrite list_lookup_alter_eq, H.
  - by rewrite list_lookup_insert_ne, list_lookup_alter_ne.
Qed.

Lemma get_node_lt pool i : (i < length pool)%nat → ∃ x, pool !! i = Some x ∧ get_node pool i = Ok x.
Proof.
  intros H. destruct (lookup_lt_is_Some_2 pool i H) as [x Hx].
  exists x. split; [done|]. unfold get_node. by rewrite Hx.
Qed.

Lemma expire_index_ok key s i e :
  send_queue s key !! i = Some e → wf_event s e →
  expire_index key s i =
    Ok (set_send_queue key (delete i (send_queue s key)) (retire_failed (time s) s e)).
Proof.
  intros Hi [HU HM]. unfold expire_index. rewrite Hi. simpl.
  assert (Hlt : (i < length (send_queue s key))%nat) by (by eapply lookup_lt_Some).
  unfold retire_failed.
  destruct (decide (etype e = _URLLC_ARRIVAL)) as [Ht|Ht].
  - destruct (HU Ht) as [Hn Hs]. destruct (get_node_lt _ _ Hn) as (x & Hx & ->). simpl.
    rewrite (incr_alter _ _ Hs). simpl. rewrite (insert_alter_node _ _ _ _ Hx).
    unfold py_del. destruct key; simpl in *; rewrite decide_True by done; done.
  - destruct (decide (etype e = _mMTC_ARRIVAL)) as [Ht'|Ht'].
    + destruct (HM Ht') as [Hn Hs]. destruct (get_node_lt _ _ Hn) as (x & Hx & ->). simpl.
      rewrite (incr_alter _ _ Hs). simpl. rewrite (insert_alter_node _ _ _ _ Hx).
      unfold py_del. destruct key; simpl in *; rewrite decide_True by done; done.
    + simpl. unfold py_del. rewrite decide_True by done. done.
Qed.

Lemma filter_ext_in {A} (P Q : A → Prop) `{∀ x, Decision (P x)} `{∀ x, Decision (Q x)}
    (l : list A) :
  (∀ x, x ∈ l → (P x ↔ Q x)) → filter P l = filter Q l.
Proof.
  induction l as [|a l IH]; intros HPQ; [done|].
  rewrite !filter_cons.
  assert (Ha : P a ↔ Q a) by (apply HPQ; left).
  rewrite IH by (intros; apply HPQ; by right).
  destruct (decide (P a)), (decide (Q a)); tauto.
Qed.

Lemma remove_indices_snoc t (q : list Event) x :
  remove_indices t (q ++ [x]) =
  remove_indices t q ++ (if decide (expired t x) then [length q] else []).
Proof.
  unfold remove_indices. rewrite length_app. simpl.
  rewrite seq_app. simpl. rewrite filter_app. f_equal.
  - apply filter_ext_in. intros i Hi. apply elem_of_seq in Hi.
    unfold expired_at. rewrite lookup_app_l by lia. done.
  - rewrite filter_cons, filter_nil.
    assert (Hx : expired_at t (q ++ [x]) (length q) ↔ expired t x).
    { unfold expired_at. rewrite list_lookup_middle by done. done. }
    destruct (decide (expired_at t (q ++ [x]) (length q))), (decide (expired t x)); tauto.
Qed.

Lemma retire_failed_time t s e : time (retire_failed t s e) = time s.
Proof. unfold retire_failed. repeat case_decide; done. Qed.

Lemma retire_failed_queue t s e key :
  send_queue (retire_failed t s e) key = send_queue s key.
Proof. unfold retire_failed. repeat case_decide; destruct key; done. Qed.

Lemma retire_failed_wf t s e e' : wf_event s e' → wf_event (retire_failed t s e) e'.
Proof.
  unfold wf_event, retire_failed. intros [HU HM].
  repeat case_decide; simpl; try done.
  - split; intros Ht; [destruct (HU Ht) as [? [v Hv]] | destruct (HM Ht) as [? [v Hv]]].
    + rewrite length_alter. split; [done|]. rewrite lookup_alter_eq, Hv. by eexists.
    + split; [done|]. rewrite lookup_alter_ne by done. by eexists.
  - split; intros Ht; [destruct (HU Ht) as [? [v Hv]] | destruct (HM Ht) as [? [v Hv]]].
    + split; [done|]. rewrite lookup_alter_ne by done. by eexists.
    + rewrite length_alter. split; [done|]. rewrite lookup_alter_eq, Hv. by eexists.
Qed.

Lemma set_send_queue_wf key q s e : wf_event s e → wf_event (set_send_queue key q s) e.
Proof. unfold wf_event. destruct key; done. Qed.

Lemma send_queue_set key q s : send_queue (set_send_queue key q s) key = q.
Proof. by destruct key. Qed.

Lemma time_set_send_queue key q s : time (set_send_queue key q s) = time s.
Proof. by destruct key. Qed.

Lemma set_send_queue_twice key q q' s :
  set_send_queue key q (set_send_queue key q' s) = set_send_queue key q s.
Proof. by destruct key. Qed.

Lemma retire_failed_set_queue t key q s e :
  retire_failed t (set_send_queue key q s) e = set_send_queue key q (retire_failed t s e).
Proof. unfold retire_failed. repeat case_decide; destruct key; done. Qed.

Lemma retire_all_set_queue t key q E s :
  foldl (retire_failed t) (set_send_queue key q s) E =
  set_send_queue key q (foldl (retire_failed t) s E).
Proof.
  revert s. induction E as [|e E IH]; intros s; simpl; [done|].
  by rewrite retire_failed_set_queue, IH.
Qed.

Lemma expire_indices_prefix key (q0 : list Event) :
  ∀ (suf : list Event) (s : Simulation),
    send_queue s key = q0 ++ suf →
    Forall (wf_event s) q0 →
    expire_indices key (reverse (remove_indices (time s) q0)) s =
      Ok (set_send_queue key (filter (fun e => ¬ expired (time s) e) q0 ++ suf)
            (foldl (retire_failed (time s)) s (reverse (filter (expired (time s)) q0)))).
Proof.
  induction q0 as [|x q1 IH] using rev_ind; intros suf s Hq Hwf.
  - cbn. cbn in Hq. rewrite <- Hq. by destruct s, key.
  - apply Forall_app in Hwf as [Hwf1 Hwfx]. rewrite Forall_singleton in Hwfx.
    rewrite remove_indices_snoc, !filter_app, !filter_cons, !filter_nil.
    rewrite <- app_assoc in Hq.
    destruct (decide (expired (time s) x)) as [Hx|Hx].
    + rewrite decide_False by tauto.
      rewrite !reverse_app. simpl.
      rewrite (expire_index_ok key s (length q1) x); [|by rewrite Hq; apply list_lookup_middle|done].
      simpl. rewrite Hq. 
      assert (Hdel : delete (length q1) (q1 ++ [x] ++ suf) = q1 ++ suf).
      { clear. induction q1; simpl; [done|]. by f_equal. }
      rewrite Hdel.
      set (s1 := set_send_queue key (q1 ++ suf) (retire_failed (time s) s x)).
      assert (Ht : time s1 = time s).
      { unfold s1. by rewrite time_set_send_queue, retire_failed_time. }
      specialize (IH suf s1). rewrite Ht in IH. rewrite IH.
      * f_equal. unfold s1. rewrite retire_all_set_queue, set_send_queue_twice.
        by rewrite app_nil_r.
      * unfold s1. apply send_queue_set.
      * unfold s1. eapply Forall_impl; [exact Hwf1|]. intros e He.
        by apply set_send_queue_wf, retire_failed_wf.
    + rewrite decide_True by done. rewrite !app_nil_r.
      rewrite (IH ([x] ++ suf) s Hq Hwf1). by rewrite <- app_assoc.
Qed.

Lemma owners_snoc cls E e :
  owners cls (E ++ [e]) = owners cls E ++ (if decide (etype e = cls) then [node_id e] else []).
Proof.
  unfold owners. rewrite filter_app, map_app, filter_cons, filter_nil.
  by destruct (decide (etype e = cls)).
Qed.

Lemma retire_all_frame t s E :
  let F := foldl (retire_failed t) s E in
  time F = time s ∧ no_pilots F = no_pilots s ∧ simulation_length F = simulation_length s
  ∧ frame_length F = frame_length s ∧ pilot_strategy F = pilot_strategy s
  ∧ event_heap F = event_heap s ∧ send_queue_URLLC F = send_queue_URLLC s
  ∧ send_queue_mMTC F = send_queue_mMTC s ∧ frame_counter F = frame_counter s
  ∧ frame_loops F = frame_loops s ∧ node_pointer F = node_pointer s.
Proof.
  induction E as [|e E IH] using rev_ind; [done|].
  rewrite foldl_app. simpl. simpl in IH. unfold retire_failed at 1 3 5 7 9 11 13 15 17 19 21.
  repeat case_decide; simpl; done.
Qed.

Lemma retire_all_trace t s E :
  Forall (fun e => etype e = _URLLC_ARRIVAL ∨ etype e = _mMTC_ARRIVAL) E →
  trace (foldl (retire_failed t) s E) = trace s ++ map (fun e => get_entry e t false) E.
Proof.
  induction E as [|e E IH] using rev_ind; intros HE.
  - simpl. by rewrite app_nil_r.
  - apply Forall_app in HE as [HE He]. rewrite Forall_singleton in He.
    rewrite foldl_app. simpl. rewrite map_app, app_assoc, <- IH by done.
    unfold retire_failed, write_trace. repeat case_decide; simpl; try done. tauto.
Qed.

Lemma retire_failed_pool_URLLC t s e :
  pool_URLLC (retire_failed t s e) =
  if decide (etype e = _URLLC_ARRIVAL)
  then alter (set_active false) (node_id e) (pool_URLLC s) else pool_URLLC s.
Proof. unfold retire_failed. repeat case_decide; done. Qed.

Lemma retire_failed_pool_mMTC t s e :
  pool_mMTC (retire_failed t s e) =
  if decide (etype e = _mMTC_ARRIVAL)
  then alter (set_active false) (node_id e) (pool_mMTC s) else pool_mMTC s.
Proof.
  unfold retire_failed. repeat case_decide; try done.
  exfalso. unfold _URLLC_ARRIVAL, _mMTC_ARRIVAL in *. congruence.
Qed.

Lemma retire_failed_stats t s e :
  stats (retire_failed t s e) =
  if decide (etype e = _URLLC_ARRIVAL) then alter Z.succ "no_missed_urllc" (stats s)
  else if decide (etype e = _mMTC_ARRIVAL) then alter Z.succ "no_missed_mmtc" (stats s)
  else stats s.
Proof. unfold retire_failed. repeat case_decide; done. Qed.

Lemma retire_all_pool (cls : Z) (pool : Simulation → list Node) t s E n :
  (∀ s e, pool (retire_failed t s e) =
          if decide (etype e = cls)
          then alter (set_active false) (node_id e) (pool s) else pool s) →
  pool (foldl (retire_failed t) s E) !! n =
  (if decide (n ∈ owners cls E) then set_active false else id) <$> pool s !! n.
Proof.
  intros Hstep. induction E as [|e E IH] using rev_ind.
  - cbn [foldl]. rewrite decide_False by (unfold owners; cbn; apply not_elem_of_nil).
    by destruct (pool s !! n).
  - rewrite foldl_app, owners_snoc. cbn [foldl]. rewrite Hstep.
    destruct (decide (etype e = cls)) as [Ht|Ht].
    + destruct (decide (n = node_id e)) as [->|Hn].
      * rewrite list_lookup_alter_eq, IH.
        rewrite (decide_True (P := node_id e ∈ _ ++ _)) by (apply elem_of_app; right; by left).
        destruct (pool s !! node_id e); [|done].
        by case_decide.
      * rewrite list_lookup_alter_ne by done. rewrite IH.
        destruct (decide (n ∈ owners cls E)) as [Hin|Hin].
        -- rewrite decide_True; [done|]. apply elem_of_app; by left.
        -- rewrite decide_False; [done|]. rewrite elem_of_app, list_elem_of_singleton. tauto.
    + rewrite app_nil_r. apply IH.
Qed.

Lemma option_fmap_add (o : option Z) (a : Z) :
  (fun v => Z.succ v) <$> ((fun v => v + a) <$> o) = (fun v => v + (a + 1)) <$> o.
Proof. destruct o; simpl; [f_equal; lia | done]. Qed.

Lemma retire_all_stats t s E key cls :
  (key = "no_missed_urllc" ∧ cls = _URLLC_ARRIVAL) ∨
  (key = "no_missed_mmtc" ∧ cls = _mMTC_ARRIVAL) →
  stats (foldl (retire_failed t) s E) !! key =
  (fun v => v + Z.of_nat (length (owners cls E))) <$> stats s !! key.
Proof.
  intros Hk. induction E as [|e E IH] using rev_ind.
  - cbn. destruct (stats s !! key); simpl; [f_equal; lia | done].
  - rewrite foldl_app, owners_snoc, length_app. cbn [foldl]. rewrite retire_failed_stats.
    destruct Hk as [[-> ->]|[-> ->]].
    + destruct (decide (etype e = _URLLC_ARRIVAL)) as [Ht|Ht].
      * rewrite lookup_alter_eq, IH. cbn [length]. rewrite option_fmap_add.
        destruct (stats s !! "no_missed_urllc"); simpl; [f_equal; lia | done].
      * replace (length (owners _URLLC_ARRIVAL E) + length [])%nat
          with (length (owners _URLLC_ARRIVAL E)) by (cbn; lia).
        destruct (decide (etype e = _mMTC_ARRIVAL)).
        -- rewrite lookup_alter_ne by done. apply IH.
        -- apply IH.
    + destruct (decide (etype e = _URLLC_ARRIVAL)) as [Ht|Ht].
      * rewrite decide_False by (rewrite Ht; done).
        replace (length (owners _mMTC_ARRIVAL E) + length [])%nat
          with (length (owners _mMTC_ARRIVAL E)) by (cbn; lia).
        rewrite lookup_alter_ne by done. apply IH.
      * destruct (decide (etype e = _mMTC_ARRIVAL)).
        -- rewrite lookup_alter_eq, IH. cbn [length]. rewrite option_fmap_add.
           destruct (stats s !! "no_missed_mmtc"); simpl; [f_equal; lia | done].
        -- replace (length (owners _mMTC_ARRIVAL E) + length [])%nat
             with (length (owners _mMTC_ARRIVAL E)) by (cbn; lia).
           apply IH.
Qed.

Lemma retire_all_wf t s E e : wf_event s e → wf_event (foldl (retire_failed t) s E) e.
Proof.
  revert s. induction E as [|x E IH]; intros s H; [done|].
  cbn [foldl]. by apply IH, retire_failed_wf.
Qed.

Lemma owners_same cls E :
  Forall (fun e => etype e = cls) E → owners cls E = map node_id E.
Proof.
  intros H. unfold owners. f_equal. induction H as [|e E He _ IH]; [done|].
  rewrite filter_cons, decide_True by done. by f_equal.
Qed.

Lemma owners_other cls cls' E :
  cls ≠ cls' → Forall (fun e => etype e = cls') E → owners cls E = [].
Proof.
  intros Hne H. unfold owners. induction H as [|e E He _ IH]; [done|].
  rewrite filter_cons, decide_False by congruence. done.
Qed.

Lemma owners_app cls E1 E2 : owners cls (E1 ++ E2) = owners cls E1 ++ owners cls E2.
Proof. unfold owners. by rewrite filter_app, map_app. Qed.

Lemma arrival_kinds_differ : _URLLC_ARRIVAL ≠ _mMTC_ARRIVAL.
Proof. by compute. Qed.

(** C5. At a frame boundary, when every queued request is an arrival of its
    queue's class whose node exists and the two missed counters exist,
    [__handle_expired_events] succeeds and removes from both queues exactly
    the requests whose deadline lies strictly before the clock; every
    removed request is reported once to the trace as failed, the missed
    counter of each class grows by the number of its removed requests, the
    node of every removed request ends with [active] cleared, and nodes
    that own no removed request are unchanged. *)
Theorem handle_expired_events_spec (s : Simulation) :
  Forall (fun e => etype e = _URLLC_ARRIVAL ∧ (node_id e < length (pool_URLLC s))%nat)
         (send_queue_URLLC s) →
  Forall (fun e => etype e = _mMTC_ARRIVAL ∧ (node_id e < length (pool_mMTC s))%nat)
         (send_queue_mMTC s) →
  is_Some (stats s !! "no_missed_urllc") →
  is_Some (stats s !! "no_missed_mmtc") →
  ∃ s', __handle_expired_events s = Ok s'
    ∧ send_queue_URLLC s' = filter (fun e => ¬ expired (time s) e) (send_queue_URLLC s)
    ∧ send_queue_mMTC s' = filter (fun e => ¬ expired (time s) e) (send_queue_mMTC s)
    ∧ trace s' = trace s ++
        map (fun e => get_entry e (time s) false)
            (reverse (filter (expired (time s)) (send_queue_URLLC s)) ++
             reverse (filter (expired (time s)) (send_queue_mMTC s)))
    ∧ stats s' !! "no_missed_urllc" =
        (fun v => v + Z.of_nat (length (filter (expired (time s)) (send_queue_URLLC s))))
          <$> stats s !! "no_missed_urllc"
    ∧ stats s' !! "no_missed_mmtc" =
        (fun v => v + Z.of_nat (length (filter (expired (time s)) (send_queue_mMTC s))))
          <$> stats s !! "no_missed_mmtc"
    ∧ (∀ e, e ∈ send_queue_URLLC s → expired (time s) e →
            active <$> pool_URLLC s' !! node_id e = Some false)
    ∧ (∀ e, e ∈ send_queue_mMTC s → expired (time s) e →
            active <$> pool_mMTC s' !! node_id e = Some false)
    ∧ (∀ n, (∀ e, e ∈ send_queue_URLLC s → expired (time s) e → node_id e ≠ n) →
            pool_URLLC s' !! n = pool_URLLC s !! n)
    ∧ (∀ n, (∀ e, e ∈ send_queue_mMTC s → expired (time s) e → node_id e ≠ n) →
            pool_mMTC s' !! n = pool_mMTC s !! n)
    ∧ (∀ event, __handle_departure event s =
         (s2 <-! __assign_pilots s';
          Ok (set_event_heap
                (EventHeap.push (departure_event (time s2 + frame_length s2)) (event_heap s2))
                s2))).
Proof.
  intros HU HM HsU HsM.
  set (t := time s).
  set (EU := reverse (filter (expired t) (send_queue_URLLC s))).
  set (EM := reverse (filter (expired t) (send_queue_mMTC s))).
  set (F := foldl (retire_failed t) s (EU ++ EM)).
  assert (HtU : Forall (fun e => etype e = _URLLC_ARRIVAL) EU).
  { unfold EU. rewrite Forall_reverse. apply Forall_forall. intros e He.
    apply list_elem_of_filter in He as [_ He].
    by destruct (proj1 (Forall_forall _ _) HU e He). }
  assert (HtM : Forall (fun e => etype e = _mMTC_ARRIVAL) EM).
  { unfold EM. rewrite Forall_reverse. apply Forall_forall. intros e He.
    apply list_elem_of_filter in He as [_ He].
    by destruct (proj1 (Forall_forall _ _) HM e He). }
  assert (HoU : owners _URLLC_ARRIVAL (EU ++ EM) = map node_id EU).
  { rewrite owners_app, (owners_same _ _ HtU), (owners_other _ _ _ arrival_kinds_differ HtM), app_nil_r; done. }
  assert (HoM : owners _mMTC_ARRIVAL (EU ++ EM) = map node_id EM).
  { rewrite owners_app, (owners_same _ _ HtM), (owners_other _ _ _ (not_eq_sym arrival_kinds_differ) HtU); done. }
  assert (HwU : Forall (wf_event s) (send_queue_URLLC s)).
  { eapply Forall_impl; [exact HU|]. intros e [Ht Hn]. split; intros Ht'; [done|].
    exfalso. rewrite Ht in Ht'. done. }
  assert (HwM : Forall (wf_event s) (send_queue_mMTC s)).
  { eapply Forall_impl; [exact HM|]. intros e [Ht Hn]. split; intros Ht'; [|done].
    exfalso. rewrite Ht in Ht'. done. }
  exists (set_send_queue K_mMTC (filter (fun e => ¬ expired t e) (send_queue_mMTC s))
           (set_send_queue K_URLLC (filter (fun e => ¬ expired t e) (send_queue_URLLC s)) F)).
  pose proof (retire_all_frame t s (EU ++ EM)) as HF. cbv zeta in HF. fold F in HF.
  destruct HF as (HFt & _ & _ & _ & _ & _ & HFqU & HFqM & _).
  match goal with |- ?run = Ok ?s' ∧ _ => assert (Hrun : run = Ok s') end.
  { unfold __handle_expired_events, expire_queue.
    pose proof (expire_indices_prefix K_URLLC (send_queue_URLLC s) [] s
                  (eq_sym (app_nil_r _)) HwU) as H1.
    change (time s) with t in H1. fold EU in H1. rewrite app_nil_r in H1.
    change (send_queue s K_URLLC) with (send_queue_URLLC s).
    change (time s) with t. rewrite H1. cbn [rbind].
    set (s1 := set_send_queue K_URLLC _ _).
    assert (Ht1 : time s1 = t).
    { unfold s1. rewrite time_set_send_queue.
      by destruct (retire_all_frame t s EU) as (-> & _). }
    assert (Hq1 : send_queue s1 K_mMTC = send_queue_mMTC s).
    { unfold s1. cbn. by destruct (retire_all_frame t s EU) as (_&_&_&_&_&_&_&->&_). }
    assert (HwM1 : Forall (wf_event s1) (send_queue_mMTC s)).
    { eapply Forall_impl; [exact HwM|]. intros e He. unfold s1.
      by apply set_send_queue_wf, retire_all_wf. }
    pose proof (expire_indices_prefix K_mMTC (send_queue_mMTC s) [] s1) as H2.
    rewrite app_nil_r in H2. specialize (H2 Hq1 HwM1).
    rewrite Ht1 in H2. fold EM in H2. rewrite app_nil_r in H2.
    rewrite Hq1, Ht1, H2. f_equal. unfold s1.
    rewrite retire_all_set_queue. unfold F. rewrite foldl_app.
    by destruct (foldl (retire_failed t) (foldl (retire_failed t) s EU) EM). }
  split; [exact Hrun|]. split; [done|]. split; [done|].
  split; [|split; [|split; [|split; [|split; [|split; [|split]]]]]].
  - unfold F. cbn. rewrite retire_all_trace.
    + done.
    + apply Forall_app. split; (eapply Forall_impl; [eassumption|]; cbn; tauto).
  - cbn. unfold F. rewrite (retire_all_stats t s _ _ _URLLC_ARRIVAL) by tauto.
    rewrite HoU, length_map. unfold EU. by rewrite length_reverse.
  - cbn. unfold F. rewrite (retire_all_stats t s _ _ _mMTC_ARRIVAL) by tauto.
    rewrite HoM, length_map. unfold EM. by rewrite length_reverse.
  - intros e He Hx. cbn. unfold F.
    rewrite (retire_all_pool _URLLC_ARRIVAL pool_URLLC) by apply retire_failed_pool_URLLC.
    rewrite HoU, decide_True.
    + destruct (proj1 (Forall_forall _ _) HU e He) as [_ Hlt].
      apply lookup_lt_is_Some_2 in Hlt as [x ->]. done.
    + apply list_elem_of_fmap. exists e. split; [done|]. unfold EU.
      rewrite elem_of_reverse. apply list_elem_of_filter. done.
  - intros e He Hx. cbn. unfold F.
    rewrite (retire_all_pool _mMTC_ARRIVAL pool_mMTC) by apply retire_failed_pool_mMTC.
    rewrite HoM, decide_True.
    + destruct (proj1 (Forall_forall _ _) HM e He) as [_ Hlt].
      apply lookup_lt_is_Some_2 in Hlt as [x ->]. done.
    + apply list_elem_of_fmap. exists e. split; [done|]. unfold EM.
      rewrite elem_of_reverse. apply list_elem_of_filter. done.
  - intros n Hn. cbn. unfold F.
    rewrite (retire_all_pool _URLLC_ARRIVAL pool_URLLC) by apply retire_failed_pool_URLLC.
    rewrite HoU, decide_False; [by destruct (pool_URLLC s !! n)|].
    intros Hin. apply list_elem_of_fmap in Hin as (e & -> & He). unfold EU in He.
    rewrite elem_of_reverse in He. apply list_elem_of_filter in He as [Hx He].
    by apply (Hn e He Hx).
  - intros n Hn. cbn. unfold F.
    rewrite (retire_all_pool _mMTC_ARRIVAL pool_mMTC) by apply retire_failed_pool_mMTC.
    rewrite HoM, decide_False; [by destruct (pool_mMTC s !! n)|].
    intros Hin. apply list_elem_of_fmap in Hin as (e & -> & He). unfold EM in He.
    rewrite elem_of_reverse in He. apply list_elem_of_filter in He as [Hx He].
    by apply (Hn e He Hx).
  - intros event. unfold __handle_departure. by rewrite Hrun.
Qed.

(** Scenario C: the class-B request with deadline 5 is removed at the frame
    boundary at time 6, counted as missed and reported as failed. *)
Lemma handle_expired_events_scenario_C :
  ∃ s', __handle_expired_events scenario_C = Ok s'
    ∧ send_queue_mMTC s' = []
    ∧ trace s' = [get_entry (mkEvent _mMTC_ARRIVAL 1 5 0 1) 6 false]
    ∧ stats s' !! "no_missed_mmtc" = Some 1
    ∧ active <$> pool_mMTC s' !! 0%nat = Some false.
Proof.
  destruct (handle_expired_events_spec scenario_C)
    as (s' & H & HqU & HqM & Htr & HsU & HsM & HaU & HaM & _).
  - constructor.
  - repeat constructor.
  - by eexists.
  - by eexists.
  - exists s'. split; [exact H|]. split; [exact HqM|]. split; [exact Htr|].
    split; [exact HsM|].
    apply (HaM (mkEvent _mMTC_ARRIVAL 1 5 0 1)); [by left|]. unfold expired. simpl. lia.
Defined.

(** ** Sorting and removal *)

Lemma insert_sorted_perm reverse key x l : insert_sorted reverse key x l ≡ₚ x :: l.
Proof.
  induction l as [|y l IH]; simpl; [done|].
  destruct (if reverse then key y <=? key x else key x <=? key y); [done|].
  rewrite IH. apply Permutation_swap.
Qed.

Lemma py_sort_perm key reverse l : py_sort key reverse l ≡ₚ l.
Proof.
  induction l as [|x l IH]; simpl; [done|].
  unfold py_sort in *. simpl. by rewrite insert_sorted_perm, IH.
Qed.

Lemma insert_sorted_sorted key x l :
  StronglySorted (fun a b => key a <= key b) l →
  StronglySorted (fun a b => key a <= key b) (insert_sorted false key x l).
Proof.
  induction 1 as [|y l Hl IH Hy]; simpl.
  - repeat constructor.
  - destruct (key x <=? key y) eqn:Hxy.
    + apply Z.leb_le in Hxy. constructor; [by constructor|].
      constructor; [done|]. eapply Forall_impl; [exact Hy|]. intros z Hz. simpl in Hz. lia.
    + apply Z.leb_gt in Hxy. constructor; [done|].
      rewrite insert_sorted_perm. constructor; [lia|done].
Qed.

Lemma py_sort_sorted key l :
  StronglySorted (fun a b => key a <= key b) (py_sort key false l).
Proof.
  induction l as [|x l IH]; [constructor|].
  unfold py_sort in *. simpl. by apply insert_sorted_sorted.
Qed.

Lemma py_sort_head_min key l first :
  py_sort key false l !! 0%nat = Some first →
  first ∈ l ∧ ∀ x, x ∈ l → key first <= key x.
Proof.
  intros H. pose proof (py_sort_sorted key l) as Hs. pose proof (py_sort_perm key false l) as Hp.
  destruct (py_sort key false l) as [|y l'] eqn:E; [done|]. simpl in H. injection H as ->.
  split.
  - rewrite <- Hp. by left.
  - intros x Hx. rewrite <- Hp in Hx. apply StronglySorted_inv in Hs as [_ Hall].
    apply elem_of_cons in Hx as [->|Hx]; [lia|].
    by apply (proj1 (Forall_forall _ _) Hall).
Qed.

Lemma py_sort_head_exists key reverse l x :
  x ∈ l → ∃ first, py_sort key reverse l !! 0%nat = Some first.
Proof.
  intros Hx. rewrite <- (py_sort_perm key reverse l) in Hx.
  destruct (py_sort key reverse l) as [|y l']; [by apply elem_of_nil in Hx|].
  by exists y.
Qed.

Lemma py_remove_elem x l : x ∈ l → ∃ l', py_remove x l = Ok l'.
Proof.
  induction l as [|y l IH]; intros Hx; [by apply elem_of_nil in Hx|].
  simpl. destruct (decide (x = y)) as [->|Hne]; [by eexists|].
  apply elem_of_cons in Hx as [?|Hx]; [done|].
  destruct (IH Hx) as [l' ->]. by eexists.
Qed.

Lemma py_remove_of_node_same x l l' :
  py_remove x l = Ok l' → py_remove x (of_node (node_id x) l) = Ok (of_node (node_id x) l').
Proof.
  revert l'. induction l as [|y l IH]; intros l' H; [done|].
  simpl in H. unfold of_node in *. rewrite filter_cons.
  destruct (decide (x = y)) as [->|Hne].
  - injection H as <-. rewrite decide_True by done. simpl. by rewrite decide_True.
  - destruct (py_remove x l) as [r|] eqn:E; [|done]. simpl in H. injection H as <-.
    rewrite filter_cons. specialize (IH r eq_refl).
    destruct (decide (node_id y = node_id x)).
    + simpl. rewrite decide_False by done. by rewrite IH.
    + done.
Qed.

Lemma py_remove_of_node_other n x l l' :
  py_remove x l = Ok l' → node_id x ≠ n → of_node n l' = of_node n l.
Proof.
  revert l'. induction l as [|y l IH]; intros l' H Hn; [done|].
  simpl in H. unfold of_node in *. rewrite filter_cons.
  destruct (decide (x = y)) as [->|Hne].
  - injection H as <-. by rewrite decide_False.
  - destruct (py_remove x l) as [r|] eqn:E; [|done]. simpl in H. injection H as <-.
    rewrite filter_cons. by rewrite (IH r eq_refl Hn).
Qed.

Lemma py_remove_length x l l' : py_remove x l = Ok l' → length l = S (length l').
Proof.
  revert l'. induction l as [|y l IH]; intros l' H; [done|].
  simpl in H. destruct (decide (x = y)) as [->|Hne].
  - by injection H as <-.
  - destruct (py_remove x l) as [r|] eqn:E; [|done]. simpl in H. injection H as <-.
    simpl. by rewrite (IH r eq_refl).
Qed.

(** ** Overlap resolution *)

Lemma filter_assigned_ok pool (events : list Event) :
  Forall (fun e => (node_id e < length pool)%nat) events →
  filter_assigned pool events = Ok (filter (fun e => is_assigned pool (node_id e)) events).
Proof.
  induction 1 as [|e l He _ IH]; [done|].
  simpl. apply lookup_lt_is_Some_2 in He as [x Hx].
  unfold get_node. rewrite Hx. simpl. rewrite IH. simpl.
  assert (Ha : is_assigned pool (node_id e) = assigned x)
    by (unfold is_assigned; by rewrite Hx).
  rewrite filter_cons. destruct (assigned x).
  - by rewrite decide_True by (by rewrite Ha).
  - rewrite decide_False; [done|]. rewrite Ha. simpl. tauto.
Qed.

Lemma of_node_assigned pool n (l : list Event) :
  of_node n (filter (fun e => is_assigned pool (node_id e)) l) =
  if is_assigned pool n then of_node n l else [].
Proof.
  unfold of_node. induction l as [|e l IH]; [by destruct (is_assigned pool n)|].
  rewrite !filter_cons.
  destruct (decide (node_id e = n)) as [<-|Hn].
  - destruct (is_assigned pool (node_id e)) eqn:Ha.
    + rewrite decide_True by exact I.
      rewrite filter_cons, decide_True by done. by rewrite IH.
    + rewrite decide_False by (intros []). done.
  - destruct (decide (is_assigned pool (node_id e))).
    + rewrite filter_cons, decide_False by done. apply IH.
    + apply IH.
Qed.

Lemma elem_of_of_node n (l : list Event) x : x ∈ of_node n l ↔ node_id x = n ∧ x ∈ l.
Proof. unfold of_node. by rewrite list_elem_of_filter. Qed.

Lemma of_node_app n (l1 l2 : list Event) : of_node n (l1 ++ l2) = of_node n l1 ++ of_node n l2.
Proof. unfold of_node. apply filter_app. Qed.

Lemma entries_of_node_snoc n (tr : list Entry) en :
  entries_of_node n (write_trace en tr) =
  entries_of_node n tr ++ (if decide (node_id (entry_event en) = n) then [en] else []).
Proof.
  unfold entries_of_node, write_trace. rewrite filter_app, filter_cons, filter_nil.
  by destruct (decide (node_id (entry_event en) = n)).
Qed.

Lemma length_one_elem (l : list Event) x : length l = 1%nat → x ∈ l → l = [x].
Proof.
  destruct l as [|y [|z l]]; try done. intros _ H.
  apply list_elem_of_singleton in H. by subst.
Qed.

Section overlap.
Variable t : Z.
Variable Q0 : list Event.
Variable P0 : list Node.
Variable T0 : list Entry.
Variable A : list Event.
Hypothesis A_sub : ∀ e, e ∈ A → e ∈ Q0.
Hypothesis Q0_range : ∀ e, e ∈ Q0 → (node_id e < length P0)%nat.

Local Abbreviation Untouched' := (Untouched Q0 P0 T0).
Local Abbreviation Done' := (Done t Q0 P0 T0 A).
Local Abbreviation Inv' := (Inv t Q0 P0 T0 A).

Lemma Inv_init : Inv' [] (mkResolve Q0 P0 T0 []).
Proof.
  split; [done|]. split; [exists []; by rewrite app_nil_r|]. intros n. split.
  - intros H. by apply elem_of_nil in H.
  - intros _. repeat split; try done. intros x H. by apply elem_of_nil in H.
Qed.

(** A step that serves [x] of node [k] leaves the view of every other
    node as it was. *)
Lemma serve_frame (k n : nat) (x : Event) (nd : Node) (more : list Event) (r : Resolve) q' :
  n ≠ k → node_id x = k →
  py_remove x (r_queue r) = Ok q' →
  (∀ y, y ∈ more → node_id y = k) →
  let r' := mkResolve q' (<[k := nd]> (r_pool r))
              (write_trace (get_entry x t true) (r_trace r))
              (overlapped_event r ++ more) in
  (Done' n r → Done' n r') ∧ (Untouched' n r → Untouched' n r').
Proof.
  intros Hn Hx Hrem Hmore r'.
  assert (Hq : of_node n (r_queue r') = of_node n (r_queue r)).
  { simpl. eapply py_remove_of_node_other; [exact Hrem|]. by rewrite Hx. }
  assert (Htr : entries_of_node n (r_trace r') = entries_of_node n (r_trace r)).
  { simpl. rewrite entries_of_node_snoc. simpl. rewrite decide_False by (by rewrite Hx).
    by rewrite app_nil_r. }
  assert (Hp : r_pool r' !! n = r_pool r !! n).
  { simpl. by rewrite list_lookup_insert_ne. }
  split.
  - intros (first & H1 & H2 & H3 & H4 & H5). exists first.
    rewrite Hq, Htr, Hp. repeat split; try done.
    intros Hlen y Hy. simpl. apply elem_of_app. left. by apply H5.
  - intros (H1 & H2 & H3 & H4). unfold Untouched. rewrite Hq, Htr, Hp.
    repeat split; try done. intros y Hy. simpl in Hy.
    apply elem_of_app in Hy as [Hy|Hy]; [by apply H4|].
    rewrite (Hmore y Hy). done.
Qed.

Lemma resolve_event_step pre e rest r :
  A = pre ++ e :: rest → Inv' pre r →
  ∃ r', resolve_event t A e r = Ok r' ∧ Inv' (pre ++ [e]) r'.
Proof.
  intros HAeq (Hlen & (new & Hnew_tr & Hnew_ok) & Hall).
  set (k := node_id e).
  assert (HeA : e ∈ A) by (rewrite HAeq; apply elem_of_app; right; by left).
  assert (HekA : e ∈ of_node k A) by (by apply elem_of_of_node).
  assert (Hmap : ∀ n, n ∈ map node_id (pre ++ [e]) ↔ n ∈ map node_id pre ∨ n = k).
  { intros n. rewrite map_app, elem_of_app. simpl. rewrite list_elem_of_singleton. done. }
  unfold resolve_event.
  destruct (decide (e ∈ overlapped_event r)) as [Hov|Hov].
  { exists r. split; [done|]. split; [done|]. split; [by exists new|]. intros n. split.
    - intros Hn. apply Hmap in Hn as [Hn| ->]; [by apply Hall|].
      destruct (decide (k ∈ map node_id pre)) as [Hk|Hk]; [by apply Hall|].
      destruct (proj2 (Hall k) Hk) as (_ & _ & _ & Hno). by destruct (Hno e Hov).
    - intros Hn. apply Hall. intros Hn'. apply Hn, Hmap. by left. }
  assert (Hk : k ∉ map node_id pre).
  { intros Hk. destruct (proj1 (Hall k) Hk) as (first & _ & _ & _ & _ & Hin).
    destruct (decide (length (of_node k A) = 1%nat)) as [Hone|Hmany].
    - apply list_elem_of_fmap in Hk as (x & Hxk & Hx).
      rewrite HAeq, of_node_app in Hone. rewrite length_app in Hone.
      assert (x ∈ of_node k pre) as Hx' by (by apply elem_of_of_node).
      assert (e ∈ of_node k (e :: rest)) as He' by (apply elem_of_of_node; split; [done|by left]).
      destruct (of_node k pre); [by apply elem_of_nil in Hx'|].
      destruct (of_node k (e :: rest)); [by apply elem_of_nil in He'|].
      simpl in Hone. lia.
    - apply Hov. by apply Hin. }
  destruct (proj2 (Hall k) Hk) as (Hq & Hp & Htr & Hno).
  assert (Hrange : (k < length P0)%nat) by (by apply Q0_range, A_sub).
  destruct (lookup_lt_is_Some_2 _ _ Hrange) as [nd Hnd].
  assert (Hget : get_node (r_pool r) k = Ok nd).
  { unfold get_node. by rewrite Hp, Hnd. }
  fold k. change (filter (fun e0 => node_id e0 = k) A) with (of_node k A).
  assert (Hnew : ∀ n, n ∉ map node_id (pre ++ [e]) → n ≠ k ∧ n ∉ map node_id pre).
  { intros n Hn. split; [intros ->|intros Hn']; apply Hn, Hmap; tauto. }
  destruct (decide (length (of_node k A) = 1%nat)) as [Hone|Hmany].
  - assert (HkA : of_node k A = [e]) by (by apply length_one_elem).
    assert (e ∈ r_queue r) as Hin.
    { assert (e ∈ of_node k (r_queue r)) as H.
      { rewrite Hq. apply elem_of_of_node. split; [done|by apply A_sub]. }
      by apply elem_of_of_node in H as [_ H]. }
    destruct (py_remove_elem _ _ Hin) as [q' Hrem]. rewrite Hrem. cbn [rbind].
    rewrite Hget. cbn [rbind].
    eexists. split; [done|]. split; [cbn [r_pool]; by rewrite length_insert|].
    split.
    { exists (new ++ [get_entry e t true]). cbn [r_trace]. unfold write_trace.
      rewrite Hnew_tr, app_assoc. split; [done|]. apply Forall_app. split; [done|].
      by apply Forall_singleton. }
    intros n. destruct (decide (n = k)) as [->|Hnk].
    + split; [intros _|intros Hn; by destruct (Hnew _ Hn)].
      exists e. rewrite HkA. cbn [r_queue r_pool r_trace overlapped_event].
      repeat split.
      * rewrite <- Hq. by apply py_remove_of_node_same.
      * rewrite entries_of_node_snoc, Htr. cbn. by rewrite decide_True.
      * rewrite list_lookup_insert_eq by lia. rewrite Hnd. done.
      * done.
    + pose proof (serve_frame k n e (set_active false nd) [] r q' Hnk eq_refl Hrem) as Hfr.
      cbv zeta in Hfr. rewrite app_nil_r in Hfr.
      destruct Hfr as [HfD HfU]; [intros y Hy; by apply elem_of_nil in Hy|].
      split; intros Hn.
      * apply HfD, Hall. apply Hmap in Hn as [?|?]; done.
      * apply HfU, Hall. by destruct (Hnew _ Hn).
  - rewrite Hget. cbn [rbind].
    destruct (py_sort_head_exists dead_time false _ _ HekA) as [first Hfirst].
    rewrite Hfirst. cbn [of_option rbind].
    destruct (py_sort_head_min _ _ _ Hfirst) as [HfA _].
    apply elem_of_of_node in HfA as [Hfk HfA].
    assert (first ∈ r_queue r) as Hin.
    { assert (first ∈ of_node k (r_queue r)) as H.
      { rewrite Hq. apply elem_of_of_node. split; [done|by apply A_sub]. }
      by apply elem_of_of_node in H as [_ H]. }
    destruct (py_remove_elem _ _ Hin) as [q' Hrem]. rewrite Hrem. cbn [rbind].
    eexists. split; [done|]. split; [cbn [r_pool]; by rewrite length_insert|].
    split.
    { exists (new ++ [get_entry first t true]). cbn [r_trace]. unfold write_trace.
      rewrite Hnew_tr, app_assoc. split; [done|]. apply Forall_app. split; [done|].
      by apply Forall_singleton. }
    intros n. destruct (decide (n = k)) as [->|Hnk].
    + split; [intros _|intros Hn; by destruct (Hnew _ Hn)].
      exists first. cbn [r_queue r_pool r_trace overlapped_event].
      repeat split.
      * done.
      * rewrite <- Hq, <- Hfk. apply py_remove_of_node_same. done.
      * rewrite entries_of_node_snoc, Htr. cbn. by rewrite decide_True.
      * rewrite list_lookup_insert_eq by lia. rewrite Hnd.
        by rewrite bool_decide_eq_true_2.
      * intros _ x Hx. apply elem_of_app. right. by rewrite py_sort_perm.
    + pose proof (serve_frame k n first (set_active true nd)
                    (py_sort dead_time false (of_node k A)) r q' Hnk Hfk Hrem) as Hfr.
      cbv zeta in Hfr.
      destruct Hfr as [HfD HfU].
      { intros y Hy. rewrite py_sort_perm in Hy. by apply elem_of_of_node in Hy as [? _]. }
      split; intros Hn.
      * apply HfD, Hall. apply Hmap in Hn as [?|?]; done.
      * apply HfU, Hall. by destruct (Hnew _ Hn).
Qed.

Lemma resolve_events_inv todo :
  ∀ pre r, A = pre ++ todo → Inv' pre r →
  ∃ r', resolve_events t A todo r = Ok r' ∧ Inv' A r'.
Proof.
  induction todo as [|e rest IH]; intros pre r HAeq HI.
  - rewrite app_nil_r in HAeq. subst pre. by exists r.
  - destruct (resolve_event_step pre e rest r HAeq HI) as (r1 & Hr1 & HI1).
    cbn [resolve_events]. rewrite Hr1. cbn [rbind].
    apply (IH (pre ++ [e])); [|done]. by rewrite <- app_assoc.
Qed.

End overlap.

Lemma entries_of_node_app n (l1 l2 : list Entry) :
  entries_of_node n (l1 ++ l2) = entries_of_node n l1 ++ entries_of_node n l2.
Proof. unfold entries_of_node. apply filter_app. Qed.

(** C4. Overlap resolution, on a send queue whose requests all name a node
    of the class-A pool, succeeds and only adds successful entries to the
    trace, at most one per node.  A node that is not assigned, or has no
    pending request, is left alone.  An assigned node with exactly one
    pending request has it served and removed and gets [active] cleared.
    An assigned node with several pending requests has exactly one served,
    one of earliest deadline; the others stay queued and [active] is set. *)
Theorem handle_send_queue_spec (s : Simulation) :
  Forall (fun e => (node_id e < length (pool_URLLC s))%nat) (send_queue_URLLC s) →
  ∃ s' new,
    __handle_send_queue s = Ok s'
    ∧ trace s' = trace s ++ new
    ∧ Forall (fun en => entry_success en = true ∧ entry_time en = time s) new
    ∧ ∀ n _node, pool_URLLC s !! n = Some _node →
        let pending := of_node n (send_queue_URLLC s) in
        let served := entries_of_node n new in
        (length served ≤ 1)%nat
        ∧ (assigned _node = false ∨ pending = [] →
             served = [] ∧ of_node n (send_queue_URLLC s') = pending
             ∧ pool_URLLC s' !! n = Some _node)
        ∧ (assigned _node = true → ∀ e, pending = [e] →
             served = [get_entry e (time s) true]
             ∧ of_node n (send_queue_URLLC s') = []
             ∧ pool_URLLC s' !! n = Some (set_active false _node))
        ∧ (assigned _node = true → (1 < length pending)%nat →
             ∃ first, first ∈ pending
               ∧ (∀ e, e ∈ pending → dead_time first <= dead_time e)
               ∧ served = [get_entry first (time s) true]
               ∧ py_remove first pending = Ok (of_node n (send_queue_URLLC s'))
               ∧ pool_URLLC s' !! n = Some (set_active true _node)).
Proof.
  intros Hrange. unfold __handle_send_queue.
  rewrite (filter_assigned_ok _ _ Hrange). cbn [rbind].
  set (Q0 := send_queue_URLLC s). set (P0 := pool_URLLC s). set (T0 := trace s).
  set (A := filter (fun e => is_assigned P0 (node_id e)) Q0).
  assert (A_sub : ∀ e, e ∈ A → e ∈ Q0).
  { intros e He. unfold A in He. by apply list_elem_of_filter in He as [_ ?]. }
  assert (Q0_range : ∀ e, e ∈ Q0 → (node_id e < length P0)%nat).
  { intros e He. by apply (proj1 (Forall_forall _ _) Hrange). }
  destruct (resolve_events_inv (time s) Q0 P0 T0 A A_sub Q0_range A [] _ eq_refl
              (Inv_init (time s) Q0 P0 T0 A))
    as (r & Hr & Hlen & (new & Htr & Hok) & Hall).
  rewrite Hr. cbn [rbind].
  eexists. exists new. split; [done|]. split; [done|]. split; [done|].
  intros n nd Hnd. set (pending := of_node n Q0). set (served := entries_of_node n new). cbn [send_queue_URLLC pool_URLLC set_trace set_pool_URLLC set_send_queue].
  assert (HnA : of_node n A = if assigned nd then pending else []).
  { unfold A. rewrite of_node_assigned. unfold is_assigned. fold P0 in Hnd. by rewrite Hnd. }
  assert (Hserved : entries_of_node n (r_trace r) = entries_of_node n T0 ++ served).
  { by rewrite Htr, entries_of_node_app. }
  assert (Htouch : n ∈ map node_id A ↔ of_node n A ≠ []).
  { split.
    - intros Hin Hnil. apply list_elem_of_fmap in Hin as (x & Hx & Hin).
      assert (x ∈ of_node n A) as H by (by apply elem_of_of_node).
      rewrite Hnil in H. by apply elem_of_nil in H.
    - intros Hne. destruct (of_node n A) as [|x l] eqn:E; [done|].
      assert (x ∈ of_node n A) as H by (rewrite E; by left).
      apply elem_of_of_node in H as [Hx Hin]. apply list_elem_of_fmap. by exists x. }
  assert (Hidle : of_node n A = [] →
            served = [] ∧ of_node n (r_queue r) = pending ∧ r_pool r !! n = Some nd).
  { intros Hnil. destruct (proj2 (Hall n)) as (Hq & Hp & Hent & _).
    - rewrite Htouch. by intros H.
    - rewrite Hent in Hserved. split; [|by rewrite Hp].
      apply (f_equal length) in Hserved. rewrite length_app in Hserved.
      destruct served; [done|]. simpl in Hserved. lia. }
  assert (Hbusy : of_node n A ≠ [] → ∃ first,
            py_sort dead_time false pending !! 0%nat = Some first
            ∧ served = [get_entry first (time s) true]
            ∧ py_remove first pending = Ok (of_node n (r_queue r))
            ∧ r_pool r !! n = Some (set_active (bool_decide (length pending ≠ 1%nat)) nd)
            ∧ assigned nd = true).
  { intros Hne. assert (assigned nd = true ∧ of_node n A = pending) as [Has HA].
    { rewrite HnA in Hne |- *. by destruct (assigned nd). }
    destruct (proj1 (Hall n)) as (first & H1 & H2 & H3 & H4 & _); [by apply Htouch|].
    rewrite HA in H1, H4. exists first. repeat split; try done.
    - rewrite H3 in Hserved. by apply app_inv_head in Hserved.
    - rewrite H4. fold P0 in Hnd. by rewrite Hnd. }
  assert (Hcases : of_node n A = [] ∨ of_node n A ≠ []).
  { destruct (of_node n A); [by left|by right]. }
  repeat split.
  - destruct Hcases as [H|H].
    + destruct (Hidle H) as (-> & _). simpl. lia.
    + destruct (Hbusy H) as (first & _ & -> & _). simpl. lia.
  - apply Hidle. rewrite HnA. by destruct H as [->| ->]; [|destruct (assigned nd)].
  - apply Hidle. rewrite HnA. by destruct H as [->| ->]; [|destruct (assigned nd)].
  - apply Hidle. rewrite HnA. by destruct H as [->| ->]; [|destruct (assigned nd)].
  - destruct (Hbusy) as (first & H1 & H2 & H3 & H4 & _); [rewrite HnA, H, H0; done|].
    rewrite H0 in H1. simpl in H1. by injection H1 as <-.
  - destruct (Hbusy) as (first & H1 & H2 & H3 & H4 & _); [rewrite HnA, H, H0; done|].
    rewrite H0 in H1, H3. simpl in H1. injection H1 as <-. simpl in H3.
    rewrite decide_True in H3 by done. by injection H3.
  - destruct (Hbusy) as (first & H1 & H2 & H3 & H4 & _); [rewrite HnA, H, H0; done|].
    rewrite H4, H0. done.
  - intros Has Hlen'. destruct Hbusy as (first & H1 & H2 & H3 & H4 & _).
    { rewrite HnA, Has. intros Hnil. rewrite Hnil in Hlen'. simpl in Hlen'. lia. }
    destruct (py_sort_head_min _ _ _ H1) as [Hin Hmin].
    exists first. repeat split; try done.
    rewrite H4. rewrite bool_decide_eq_true_2 by lia. done.
Qed.

(** Scenario D: node 0 is assigned and has two live requests, with deadlines
    12 and 9; only the one with deadline 9 is served, the other one stays
    queued and the node stays active. *)
Lemma handle_send_queue_scenario_D :
  ∃ s' new,
    __handle_send_queue scenario_D = Ok s'
    ∧ trace s' = trace scenario_D ++ new
    ∧ entries_of_node 0 new = [get_entry (mkEvent _URLLC_ARRIVAL 1 9 0 1) 5 true]
    ∧ of_node 0 (send_queue_URLLC s') = [mkEvent _URLLC_ARRIVAL 4 12 0 2]
    ∧ active <$> pool_URLLC s' !! 0%nat = Some true.
Proof.
  destruct (handle_send_queue_spec scenario_D) as (s' & new & Hrun & Htr & _ & Hnodes).
  { repeat constructor. }
  exists s', new. split; [exact Hrun|]. split; [exact Htr|].
  destruct (Hnodes 0%nat (mkNode 2 8 true true (delays 1000 [])) eq_refl)
    as (_ & _ & _ & Hmany).
  destruct (Hmany eq_refl) as (first & Hin & Hmin & Hserved & Hrem & Hpool).
  { simpl. lia. }
  assert (first = mkEvent _URLLC_ARRIVAL 1 9 0 1) as ->.
  { apply elem_of_cons in Hin as [->|Hin].
    - specialize (Hmin (mkEvent _URLLC_ARRIVAL 1 9 0 1)). simpl in Hmin.
      exfalso. cut (12 <= 9); [lia|]. apply Hmin. right. left.
    - apply elem_of_cons in Hin as [->|Hin]; [done|]. by apply elem_of_nil in Hin. }
  split; [exact Hserved|]. split.
  - assert (Hc : py_remove (mkEvent _URLLC_ARRIVAL 1 9 0 1)
                   (of_node 0 (send_queue_URLLC scenario_D)) =
                 Ok [mkEvent _URLLC_ARRIVAL 4 12 0 2]) by reflexivity.
    rewrite Hc in Hrem. by injection Hrem as <-.
  - by rewrite Hpool.
Defined.

(** ** Round robin with queue information *)

Lemma served_prefix_app b i1 i2 :
  served_prefix b (i1 ++ i2) =
  served_prefix b i1 ++ (if all_fit b i1 then served_prefix (budget_after b i1) i2 else []).
Proof.
  revert b. induction i1 as [|[c e] i1 IH]; intros b; simpl; [done|].
  destruct (decide (0 <= b - c)); [|done]. simpl. by rewrite IH.
Qed.

Lemma budget_after_app b i1 i2 :
  budget_after b (i1 ++ i2) =
  if all_fit b i1 then budget_after (budget_after b i1) i2 else budget_after b i1.
Proof.
  revert b. induction i1 as [|[c e] i1 IH]; intros b; simpl; [done|].
  destruct (decide (0 <= b - c)); [|done]. by rewrite IH.
Qed.

Lemma all_fit_app b i1 i2 :
  all_fit b (i1 ++ i2) = (all_fit b i1 && all_fit (budget_after b i1) i2)%bool.
Proof.
  revert b. induction i1 as [|[c e] i1 IH]; intros b; simpl; [done|].
  destruct (decide (0 <= b - c)); [|done]. by rewrite IH.
Qed.

Lemma py_remove_perm x l l' : py_remove x l = Ok l' → l ≡ₚ x :: l' ∧ sublist l' l.
Proof.
  revert l'. induction l as [|y l IH]; intros l' H; [done|].
  simpl in H. destruct (decide (x = y)) as [->|Hne].
  - injection H as <-. split; [done|]. by apply sublist_cons.
  - destruct (py_remove x l) as [r|] eqn:E; [|done]. simpl in H. injection H as <-.
    destruct (IH r eq_refl) as [Hp Hs]. split.
    + rewrite Hp. apply Permutation_swap.
    + by apply sublist_skip.
Qed.

Lemma pass_serves_trans t p1 p2 p3 sv1 sv2 b1 b2 :
  pass_serves t p1 sv1 b1 p2 → pass_serves t p2 sv2 b2 p3 →
  pass_serves t p1 (sv1 ++ sv2) b2 p3.
Proof.
  intros (H1 & H2 & H3 & H4) (G1 & G2 & G3 & G4). repeat split.
  - done.
  - by rewrite G2, H2, map_app, app_assoc.
  - by rewrite H3, G3, app_assoc.
  - by etrans.
Qed.

Lemma drain_node_spec cost t ind :
  ∀ events p,
    events ⊆+ queue p → Forall (fun e => node_id e = ind) events →
    let items := map (fun e => (cost, e)) events in
    ∃ p', drain_node cost t events p = Ok (all_fit (budget p) items, p')
      ∧ pass_serves t p (served_prefix (budget p) items) (budget_after (budget p) items) p'
      ∧ ∀ n, n ≠ ind → of_node n (queue p') = of_node n (queue p).
Proof.
  induction events as [|e events IH]; intros p Hsub Hnode; cbn zeta.
  - exists p. split; [done|]. split; [|done]. repeat split; try done.
    by rewrite app_nil_r.
  - apply Forall_cons in Hnode as [He Hnode]. cbn [map drain_node served_prefix budget_after all_fit].
    destruct (decide (0 <= budget p - cost)) as [Hfit|Hfit].
    + apply submseteq_cons_l in Hsub as (k' & Hk' & Hsub).
      assert (e ∈ queue p) as Hin by (rewrite Hk'; by left).
      destruct (py_remove_elem _ _ Hin) as [q' Hrem]. rewrite Hrem. cbn [rbind].
      destruct (py_remove_perm _ _ _ Hrem) as [Hp Hs].
      set (p1 := mkPass (budget p - cost) q' (write_trace (get_entry e t true) (written p))).
      destruct (IH p1) as (p' & Hrun & Hserves & Hframe); [|done|].
      { cbn. rewrite Hk' in Hp. apply Permutation_cons_inv in Hp. by rewrite <- Hp. }
      cbv zeta in Hrun, Hserves. cbn [budget p1] in Hrun, Hserves.
      exists p'. split; [done|]. split.
      * apply (pass_serves_trans t p p1 p' [e] _ (budget p - cost)); [|done].
        repeat split; try done.
      * intros n Hn. rewrite (Hframe n Hn). cbn.
        eapply py_remove_of_node_other; [done|]. by rewrite He.
    + eexists. split; [done|]. split; [|done]. repeat split; try done.
      cbn. by rewrite app_nil_r.
Qed.

Lemma rr_items_ext nodes :
  ∀ ind (q q' : list Event),
    (∀ n, (ind ≤ n)%nat → of_node n q' = of_node n q) →
    rr_items nodes ind q' = rr_items nodes ind q.
Proof.
  induction nodes as [|nd nodes IH]; intros ind q q' H; [done|].
  cbn. rewrite (H ind) by lia. f_equal. apply IH. intros n Hn. apply H. lia.
Qed.

Lemma drain_nodes_spec t nodes :
  ∀ ind p,
    let items := rr_items nodes ind (queue p) in
    ∃ p', drain_nodes true t nodes ind p = Ok (all_fit (budget p) items, p')
      ∧ pass_serves t p (served_prefix (budget p) items) (budget_after (budget p) items) p'.
Proof.
  induction nodes as [|nd nodes IH]; intros ind p; cbn zeta.
  - exists p. split; [done|]. repeat split; try done. cbn. by rewrite app_nil_r.
  - cbn [drain_nodes rr_items].
    destruct (drain_node_spec (pilot_samples nd) t ind (filter (fun e => node_id e = ind) (queue p)) p)
      as (p1 & Hrun & Hserves & Hframe).
    { apply sublist_submseteq, sublist_filter. }
    { apply Forall_forall. intros e He. by apply list_elem_of_filter in He as [? _]. }
    cbv zeta in Hrun, Hserves. rewrite Hrun. cbn [rbind fst snd].
    change (filter (fun e => node_id e = ind) (queue p)) with (of_node ind (queue p)) in *.
    set (items1 := map (fun e => (pilot_samples nd, e)) (of_node ind (queue p))) in *.
    rewrite served_prefix_app, budget_after_app, all_fit_app.
    destruct (all_fit (budget p) items1) eqn:Hfit; cbn [orb negb andb].
    + destruct (IH (S ind) p1) as (p' & Hrun' & Hserves').
      cbv zeta in Hrun', Hserves'.
      assert (Hitems : rr_items nodes (S ind) (queue p1) = rr_items nodes (S ind) (queue p)).
      { apply rr_items_ext. intros n Hn. apply Hframe. lia. }
      destruct Hserves as (Hb & Hw & Hq & Hs).
      rewrite Hitems, Hb in Hrun', Hserves'.
      exists p'. split; [done|].
      eapply pass_serves_trans; [|exact Hserves']. by repeat split.
    + exists p1. split; [done|]. by rewrite app_nil_r.
Qed.

(** C9. RRQ_RRQ never raises.  It serves the class-A requests in round-robin
    order (nodes in pool order, each node's queued requests in queue order)
    as long as each next request fits the budget, and stops at the first
    one that does not fit; class B is served in the same way with the
    leftover budget, and only when every class-A request was served and the
    leftover is positive.  The served requests are reported as successes in
    that order and taken out of their queues, the others stay queued in
    their order.  In Scenario B the two requests of node 0 are served
    (budget 4 to 0) and the request of node 1 does not fit and stays
    queued. *)
Theorem round_robin_queue_info_spec :
  (∀ s : Simulation,
    let itemsA := rr_items (pool_URLLC s) 0 (send_queue_URLLC s) in
    let itemsB := rr_items (pool_mMTC s) 0 (send_queue_mMTC s) in
    let servedA := served_prefix (no_pilots s) itemsA in
    let leftover := budget_after (no_pilots s) itemsA in
    let servedB :=
      if (all_fit (no_pilots s) itemsA && bool_decide (0 < leftover))%bool
      then served_prefix leftover itemsB else [] in
    ∃ s', __round_robin_queue_info s = Ok s'
      ∧ trace s' = trace s ++ map (fun e => get_entry e (time s) true) (servedA ++ servedB)
      ∧ send_queue_URLLC s ≡ₚ servedA ++ send_queue_URLLC s'
      ∧ sublist (send_queue_URLLC s') (send_queue_URLLC s)
      ∧ send_queue_mMTC s ≡ₚ servedB ++ send_queue_mMTC s'
      ∧ sublist (send_queue_mMTC s') (send_queue_mMTC s))
  ∧ ∃ s', __round_robin_queue_info scenario_B = Ok s'
      ∧ trace s' = [get_entry (mkEvent _URLLC_ARRIVAL 7 37 0 4) 10 true;
                    get_entry (mkEvent _URLLC_ARRIVAL 2 32 0 2) 10 true]
      ∧ send_queue_URLLC s' = [mkEvent _URLLC_ARRIVAL 5 35 1 3]
      ∧ rmap (fun r => (fst r, budget (snd r)))
          (drain_node 2 10 (of_node 0 (send_queue_URLLC scenario_B))
             (mkPass 4 (send_queue_URLLC scenario_B) [])) = Ok (true, 0)
      ∧ rmap (fun r => (fst r, written (snd r)))
          (drain_node 2 10 (of_node 1 (send_queue_URLLC s')) (mkPass 0 (send_queue_URLLC s') []))
        = Ok (false, []).
Proof.
  split; [|eexists; vm_compute; done].
  intros s. cbv zeta. unfold __round_robin_queue_info.
  destruct (drain_nodes_spec (time s) (pool_URLLC s) 0
              (mkPass (no_pilots s) (send_queue_URLLC s) (trace s)))
    as (a & Ha & HbA & HwA & HqA & HsA).
  cbv zeta in Ha, HbA, HwA, HqA, HsA. cbn [budget queue written] in Ha, HbA, HwA, HqA, HsA.
  rewrite Ha. cbn [rbind fst snd].
  set (itemsA := rr_items (pool_URLLC s) 0 (send_queue_URLLC s)) in *.
  destruct (all_fit (no_pilots s) itemsA) eqn:Hfit; cbn [andb].
  - rewrite HbA. destruct (decide (0 < budget_after (no_pilots s) itemsA)) as [Hpos|Hpos].
    + rewrite bool_decide_eq_true_2 by done.
      destruct (drain_nodes_spec (time s) (pool_mMTC s) 0
                  (mkPass (budget_after (no_pilots s) itemsA) (send_queue_mMTC s) (written a)))
        as (b & Hb & HbB & HwB & HqB & HsB).
      cbv zeta in Hb, HbB, HwB, HqB, HsB. cbn [budget queue written] in Hb, HbB, HwB, HqB, HsB.
      rewrite Hb. cbn [rbind fst snd]. eexists. split; [done|].
      cbn. rewrite HwB, HwA, map_app, app_assoc. done.
    + rewrite bool_decide_eq_false_2 by done. eexists. split; [done|].
      cbn. rewrite HwA, app_nil_r. done.
  - eexists. split; [done|]. cbn. rewrite HwA, app_nil_r. done.
Qed.

(** ** Unknown strategy names *)









(** ** The assigned flag *)

Lemma assigned_insert_active pool i nd b :
  pool !! i = Some nd →
  map assigned (<[i := set_active b nd]> pool) = map assigned pool.
Proof.
  intros H. change (map assigned) with (fmap (M := list) assigned).
  rewrite list_fmap_insert. cbn [assigned set_active].
  apply list_insert_id. by rewrite list_lookup_fmap, H.
Qed.

Lemma resolve_event_assigned t A e r r' :
  resolve_event t A e r = Ok r' → map assigned (r_pool r') = map assigned (r_pool r).
Proof.
  unfold resolve_event. intros H. repeat case_decide.
  - by injection H as <-.
  - apply rbind_ok in H as (q & _ & H). apply rbind_ok in H as (nd & Hnd & H).
    injection H as <-. cbn. by apply assigned_insert_active, get_node_ok.
  - apply rbind_ok in H as (nd & Hnd & H). apply rbind_ok in H as (first & _ & H).
    apply rbind_ok in H as (q & _ & H).
    injection H as <-. cbn. by apply assigned_insert_active, get_node_ok.
Qed.

Lemma resolve_events_assigned t A todo :
  ∀ r r', resolve_events t A todo r = Ok r' →
          map assigned (r_pool r') = map assigned (r_pool r).
Proof.
  induction todo as [|e todo IH]; intros r r' H; simpl in H.
  - by injection H as <-.
  - apply rbind_ok in H as (r1 & H1 & H).
    rewrite (IH _ _ H). by eapply resolve_event_assigned.
Qed.

Lemma handle_send_queue_keeps_assigned s s' :
  __handle_send_queue s = Ok s' →
  map assigned (pool_URLLC s') = map assigned (pool_URLLC s).
Proof.
  unfold __handle_send_queue. intros H.
  apply rbind_ok in H as (A & _ & H). apply rbind_ok in H as (r & Hr & H).
  injection H as <-. cbn. by apply resolve_events_assigned in Hr.
Qed.

Lemma grant_nodes_keeps_assigned indices :
  ∀ g g', grant_nodes indices g = Ok g' →
    ∀ n, assigned <$> g_pool g !! n = Some true → assigned <$> g_pool g' !! n = Some true.
Proof.
  induction indices as [|i rest IH]; intros g g' H n Hn; simpl in H.
  - by injection H as <-.
  - apply rbind_ok in H as (nd & Hnd & H). apply get_node_ok in Hnd.
    case_decide.
    + apply (IH _ _ H). cbn. destruct (decide (n = i)) as [->|Hne].
      * rewrite list_lookup_insert_eq by (by eapply lookup_lt_Some). done.
      * by rewrite list_lookup_insert_ne.
    + by injection H as <-.
Qed.

Lemma advance_frame_pool s s' : advance_frame s = Ok s' → pool_URLLC s' = pool_URLLC s.
Proof.
  unfold advance_frame. destruct (decide (frame_loops s = 0)); [done|].
  intros Hok. injection Hok as <-. by destruct (decide (cursor_resets s)).
Qed.

Lemma lookup_assigned (pool pool' : list Node) n :
  map assigned pool' = map assigned pool →
  assigned <$> pool' !! n = assigned <$> pool !! n.
Proof.
  intros H. rewrite <- !list_lookup_fmap.
  change (assigned <$> pool') with (map assigned pool').
  change (assigned <$> pool) with (map assigned pool). by rewrite H.
Qed.

Lemma rrn_fcfs_keeps_assigned s s' n :
  __round_robin_no_queue_info_first_come_first_served s = Ok s' →
  assigned <$> pool_URLLC s !! n = Some true →
  assigned <$> pool_URLLC s' !! n = Some true.
Proof.
  unfold __round_robin_no_queue_info_first_come_first_served. intros H Hn.
  apply rbind_ok in H as (s0 & H0 & H). apply rbind_ok in H as (g & Hg & H).
  apply rbind_ok in H as (s2 & H2 & H).
  rewrite (lookup_assigned _ _ n (handle_send_queue_keeps_assigned _ _ H)).
  assert (pool_URLLC s2 = g_pool g) as ->.
  { destruct (decide (0 < g_budget g)).
    - apply rbind_ok in H2 as (b & _ & H2). by injection H2 as <-.
    - by injection H2 as <-. }
  apply (grant_nodes_keeps_assigned _ _ _ Hg). cbn.
  by rewrite (advance_frame_pool _ _ H0).
Qed.

Lemma rrn_rrq_keeps_assigned s s' n :
  __round_robin_half_queue_info s = Ok s' →
  assigned <$> pool_URLLC s !! n = Some true →
  assigned <$> pool_URLLC s' !! n = Some true.
Proof.
  unfold __round_robin_half_queue_info. intros H Hn.
  apply rbind_ok in H as (s0 & H0 & H). apply rbind_ok in H as (g & Hg & H).
  apply rbind_ok in H as (s2 & H2 & H).
  rewrite (lookup_assigned _ _ n (handle_send_queue_keeps_assigned _ _ H)).
  assert (pool_URLLC s2 = g_pool g) as ->.
  { destruct (decide (0 < g_budget g)).
    - apply rbind_ok in H2 as (b & _ & H2). by injection H2 as <-.
    - by injection H2 as <-. }
  apply (grant_nodes_keeps_assigned _ _ _ Hg). cbn.
  by rewrite (advance_frame_pool _ _ H0).
Qed.

(** C8 on the code.  Nothing clears [assigned]: overlap resolution leaves
    the flags as they are, and a node that is assigned when an RRN pass
    starts is still assigned when it ends.  In the two-frame run node 0,
    granted in the first frame, is still assigned when the allocation pass
    of the second frame starts. *)
Theorem assigned_flag_is_never_cleared :
  (∀ s s', __handle_send_queue s = Ok s' →
           map assigned (pool_URLLC s') = map assigned (pool_URLLC s))
  ∧ (∀ s s' n, __round_robin_no_queue_info_first_come_first_served s = Ok s' →
               assigned <$> pool_URLLC s !! n = Some true →
               assigned <$> pool_URLLC s' !! n = Some true)
  ∧ (∀ s s' n, __round_robin_half_queue_info s = Ok s' →
               assigned <$> pool_URLLC s !! n = Some true →
               assigned <$> pool_URLLC s' !! n = Some true)
  ∧ ∃ s0 s4 s_in,
      two_frame_start = Ok s0
      ∧ run 4 s0 = Ok s4
      ∧ allocation_input s4 = Ok s_in
      ∧ time s_in = 20
      ∧ map assigned (pool_URLLC s_in) = [true; false].
Proof.
  split; [exact handle_send_queue_keeps_assigned|].
  split; [exact rrn_fcfs_keeps_assigned|].
  split; [exact rrn_rrq_keeps_assigned|].
  do 3 eexists. split; [vm_compute; reflexivity|].
  split; [vm_compute; reflexivity|]. split; [vm_compute; reflexivity|].
  by vm_compute.
Qed.

(** ** The per-frame budget *)

Lemma total_cost_app pool l1 l2 :
  total_cost pool (l1 ++ l2) = total_cost pool l1 + total_cost pool l2.
Proof.
  unfold total_cost. induction l1 as [|e l1 IH]; simpl; [done|]. rewrite IH. lia.
Qed.

Lemma within_budget_refl pool t p : within_budget pool t p p [].
Proof.
  split; [by rewrite app_nil_r|]. split; [done|]. intros Hb. unfold total_cost. cbn. lia.
Qed.

Lemma within_budget_break pool t p b : b < 0 →
  within_budget pool t p (mkPass b (queue p) (written p)) [].
Proof.
  intros Hb. split; [by rewrite app_nil_r|]. split; [done|].
  intros Hp. unfold total_cost. cbn. lia.
Qed.

Lemma within_budget_step pool t p q e p' sv :
  0 <= budget p - node_cost pool e →
  py_remove e (queue p) = Ok q →
  within_budget pool t
    (mkPass (budget p - node_cost pool e) q (write_trace (get_entry e t true) (written p)))
    p' sv →
  within_budget pool t p p' (e :: sv).
Proof.
  intros Hfit Hrem (Hw & Hin & Hb). cbn in Hw, Hin, Hb.
  destruct (py_remove_perm _ _ _ Hrem) as [Hperm Hsub]. split; [|split].
  - rewrite Hw. unfold write_trace. by rewrite <- app_assoc.
  - constructor; [rewrite Hperm; by left|].
    eapply Forall_impl; [exact Hin|]. intros x Hx. rewrite Hperm. by right.
  - intros Hp. destruct (Hb Hfit) as [Hle Heq]. unfold total_cost in *. cbn.
    split; [lia|]. intros Hp'. specialize (Heq Hp'). lia.
Qed.

Lemma within_budget_trans pool t p1 p2 p3 sv1 sv2 :
  (0 <= budget p1 → 0 <= budget p2) →
  (∀ e, e ∈ queue p2 → e ∈ queue p1) →
  within_budget pool t p1 p2 sv1 → within_budget pool t p2 p3 sv2 →
  within_budget pool t p1 p3 (sv1 ++ sv2).
Proof.
  intros Hpos Hsub (Hw1 & Hin1 & Hb1) (Hw2 & Hin2 & Hb2). split; [|split].
  - by rewrite Hw2, Hw1, map_app, app_assoc.
  - apply Forall_app. split; [done|]. eapply Forall_impl; [exact Hin2|]. done.
  - intros Hp. destruct (Hb1 Hp) as [Hle1 Heq1]. specialize (Hpos Hp).
    destruct (Hb2 Hpos) as [Hle2 Heq2]. specialize (Heq1 Hpos).
    rewrite total_cost_app. split; [lia|]. intros Hp3. specialize (Heq2 Hp3). lia.
Qed.

Lemma get_node_cost pool e nd : get_node pool (node_id e) = Ok nd → node_cost pool e = pilot_samples nd.
Proof. intros H. apply get_node_ok in H. unfold node_cost. by rewrite H. Qed.

Lemma serve_events_within_budget pool t :
  ∀ events p p', serve_events pool t events p = Ok p' →
    ∃ sv, within_budget pool t p p' sv.
Proof.
  induction events as [|e events IH]; intros p p' H; simpl in H.
  - injection H as <-. exists []. apply within_budget_refl.
  - apply rbind_ok in H as (nd & Hnd & H). apply get_node_cost in Hnd. rewrite <- Hnd in H.
    destruct (decide (0 <= budget p - node_cost pool e)) as [Hfit|Hfit].
    + apply rbind_ok in H as (q & Hrem & H). destruct (IH _ _ H) as [sv Hsv].
      exists (e :: sv). by eapply within_budget_step.
    + injection H as <-. exists []. apply within_budget_break. lia.
Qed.

Lemma serve_live_within_budget pool t :
  ∀ fuel i p p', serve_live fuel pool t i p = Ok p' →
    ∃ sv, within_budget pool t p p' sv.
Proof.
  induction fuel as [|fuel IH]; intros i p p' H; simpl in H.
  - injection H as <-. exists []. apply within_budget_refl.
  - destruct (queue p !! i) as [e|].
    + apply rbind_ok in H as (nd & Hnd & H). apply get_node_cost in Hnd. rewrite <- Hnd in H.
      destruct (decide (0 <= budget p - node_cost pool e)) as [Hfit|Hfit].
      * apply rbind_ok in H as (q & Hrem & H). destruct (IH _ _ _ H) as [sv Hsv].
        exists (e :: sv). by eapply within_budget_step.
      * injection H as <-. exists []. apply within_budget_break. lia.
    + injection H as <-. exists []. apply within_budget_refl.
Qed.

Lemma drain_node_within_budget pool t cost :
  ∀ events p r, 
    Forall (fun e => node_cost pool e = cost) events →
    drain_node cost t events p = Ok r →
    ∃ sv, within_budget pool t p (snd r) sv
          ∧ (fst r = true → 0 <= budget p → 0 <= budget (snd r))
          ∧ (∀ x, x ∈ queue (snd r) → x ∈ queue p).
Proof.
  induction events as [|e events IH]; intros p r Hcost H; simpl in H.
  - injection H as <-. exists []. split; [apply within_budget_refl|]. by split.
  - apply Forall_cons in Hcost as [He Hcost]. subst cost.
    destruct (decide (0 <= budget p - node_cost pool e)) as [Hfit|Hfit].
    + apply rbind_ok in H as (q & Hrem & H).
      destruct (IH _ _ Hcost H) as (sv & Hsv & Hok & Hsub).
      exists (e :: sv). split; [by eapply within_budget_step|]. split.
      * intros Hr _. by apply Hok.
      * intros x Hx. apply Hsub in Hx. cbn in Hx.
        destruct (py_remove_perm _ _ _ Hrem) as [Hperm _]. rewrite Hperm. by right.
    + injection H as <-. exists []. split; [apply within_budget_break; lia|].
      split; [done|]. done.
Qed.

Lemma drain_nodes_within_budget pool t :
  ∀ nodes ind p r,
    (∀ k nd, nodes !! k = Some nd → pool !! (ind + k)%nat = Some nd) →
    drain_nodes true t nodes ind p = Ok r →
    ∃ sv, within_budget pool t p (snd r) sv
          ∧ (fst r = true → 0 <= budget p → 0 <= budget (snd r))
          ∧ (∀ x, x ∈ queue (snd r) → x ∈ queue p).
Proof.
  induction nodes as [|nd nodes IH]; intros ind p r Hpool H; simpl in H.
  - injection H as <-. exists []. split; [apply within_budget_refl|]. done.
  - apply rbind_ok in H as (r1 & H1 & H).
    apply drain_node_within_budget with (pool := pool) in H1 as (sv1 & Hsv1 & Hok1 & Hsub1).
    2: { apply Forall_forall. intros e He. apply list_elem_of_filter in He as [He _].
         unfold node_cost. rewrite He. specialize (Hpool 0%nat nd eq_refl).
         rewrite Nat.add_0_r in Hpool. by rewrite Hpool. }
    destruct (fst r1) eqn:Hr1; cbn [orb negb] in H.
    + apply IH in H as (sv2 & Hsv2 & Hok2 & Hsub2).
      2: { intros k nd' Hk. replace (S ind + k)%nat with (ind + S k)%nat by lia.
           by apply Hpool. }
      exists (sv1 ++ sv2). split; [|split].
      * eapply within_budget_trans; [|exact Hsub1|exact Hsv1|exact Hsv2]. by apply Hok1.
      * intros Hr Hp. apply Hok2; [done|]. by apply Hok1.
      * intros x Hx. by apply Hsub1, Hsub2.
    + injection H as <-. exists sv1. split; [done|]. done.
Qed.

(** The sum [served_cost] of a pass that reports the class-A requests [svA]
    and then the class-B requests [svB]. *)
Lemma served_cost_two_classes (s s' : Simulation) svA svB :
  trace s' = trace s ++ map (fun e => get_entry e (time s) true) (svA ++ svB) →
  Forall (fun e => etype e = _URLLC_ARRIVAL) svA →
  Forall (fun e => etype e = _mMTC_ARRIVAL) svB →
  served_cost s s' = total_cost (pool_URLLC s) svA + total_cost (pool_mMTC s) svB.
Proof.
  intros Htr HA HB. unfold served_cost, new_entries. rewrite Htr, drop_app_length.
  rewrite map_app. clear Htr.
  assert (Hall : ∀ l : list Event,
            filter (fun en => entry_success en = true)
                   (map (fun e => get_entry e (time s) true) l)
            = map (fun e => get_entry e (time s) true) l).
  { induction l as [|e l IH]; [done|]. cbn [map]. rewrite filter_cons.
    rewrite decide_True by done. by rewrite IH. }
  rewrite filter_app, !Hall, map_app. 
  assert (Hsum : ∀ l1 l2 : list Z, foldr Z.add 0 (l1 ++ l2) = foldr Z.add 0 l1 + foldr Z.add 0 l2).
  { induction l1 as [|x l1 IH]; intros l2; simpl; [done|]. rewrite IH. lia. }
  rewrite Hsum. unfold total_cost. f_equal; f_equal.
  - induction HA as [|e l He _ IH]; [done|]. cbn. rewrite IH. f_equal.
    unfold cost_of. by rewrite decide_True.
  - induction HB as [|e l He _ IH]; [done|]. cbn. rewrite IH. f_equal.
    unfold cost_of. rewrite decide_False; [done|]. rewrite He. done.
Qed.

Lemma two_classes_within_budget (s s' : Simulation) (a b : Pass) svA svB :
  0 <= no_pilots s →
  Forall (fun e => etype e = _URLLC_ARRIVAL) (send_queue_URLLC s) →
  Forall (fun e => etype e = _mMTC_ARRIVAL) (send_queue_mMTC s) →
  within_budget (pool_URLLC s) (time s)
    (mkPass (no_pilots s) (send_queue_URLLC s) (trace s)) a svA →
  0 < budget a →
  (∃ qB, (∀ x, x ∈ qB → x ∈ send_queue_mMTC s)
         ∧ within_budget (pool_mMTC s) (time s) (mkPass (budget a) qB (written a)) b svB) →
  trace s' = written b →
  served_cost s s' <= no_pilots s.
Proof.
  intros HN HtU HtM (HwA & HinA & HbA) Hpos (qB & HqB & HwB & HinB & HbB) Htr.
  cbn in HwA, HinA, HbA, HwB, HinB, HbB.
  rewrite (served_cost_two_classes s s' svA svB).
  - destruct (HbA HN) as [_ Heq]. specialize (Heq ltac:(lia)).
    destruct (HbB ltac:(lia)) as [Hle _]. lia.
  - by rewrite Htr, HwB, HwA, map_app, app_assoc.
  - apply Forall_forall. intros e He.
    apply (proj1 (Forall_forall _ _) HtU). by apply (proj1 (Forall_forall _ _) HinA).
  - apply Forall_forall. intros e He.
    apply (proj1 (Forall_forall _ _) HtM), HqB. by apply (proj1 (Forall_forall _ _) HinB).
Qed.

Lemma class_a_within_budget (s s' : Simulation) (a : Pass) svA :
  0 <= no_pilots s →
  Forall (fun e => etype e = _URLLC_ARRIVAL) (send_queue_URLLC s) →
  within_budget (pool_URLLC s) (time s)
    (mkPass (no_pilots s) (send_queue_URLLC s) (trace s)) a svA →
  trace s' = written a →
  served_cost s s' <= no_pilots s.
Proof.
  intros HN HtU (HwA & HinA & HbA) Htr. cbn in HwA, HinA, HbA.
  rewrite (served_cost_two_classes s s' svA []).
  - destruct (HbA HN) as [Hle _]. unfold total_cost at 2. cbn. lia.
  - by rewrite Htr, HwA, app_nil_r.
  - apply Forall_forall. intros e He.
    apply (proj1 (Forall_forall _ _) HtU). by apply (proj1 (Forall_forall _ _) HinA).
  - done.
Qed.

Lemma pool_aligned (pool : list Node) :
  ∀ k nd, pool !! k = Some nd → pool !! (0 + k)%nat = Some nd.
Proof. done. Qed.

Lemma fcfs_within_budget s s' :
  0 <= no_pilots s →
  Forall (fun e => etype e = _URLLC_ARRIVAL) (send_queue_URLLC s) →
  Forall (fun e => etype e = _mMTC_ARRIVAL) (send_queue_mMTC s) →
  __fist_come_first_served s = Ok s' → served_cost s s' <= no_pilots s.
Proof.
  intros HN HtU HtM H. unfold __fist_come_first_served in H.
  apply rbind_ok in H as (a & Ha & H).
  apply serve_events_within_budget in Ha as [svA HA].
  destruct (decide (0 < budget a)) as [Hpos|Hpos].
  - apply rbind_ok in H as (b & Hb & H). injection H as <-.
    apply serve_events_within_budget in Hb as [svB HB].
    eapply (two_classes_within_budget s _ a b svA svB); [done..| |done].
    exists (send_queue_mMTC s). by split.
  - injection H as <-. by eapply (class_a_within_budget s _ a svA).
Qed.

Lemma rrq_rrq_within_budget s s' :
  0 <= no_pilots s →
  Forall (fun e => etype e = _URLLC_ARRIVAL) (send_queue_URLLC s) →
  Forall (fun e => etype e = _mMTC_ARRIVAL) (send_queue_mMTC s) →
  __round_robin_queue_info s = Ok s' → served_cost s s' <= no_pilots s.
Proof.
  intros HN HtU HtM H. unfold __round_robin_queue_info in H.
  apply rbind_ok in H as (a & Ha & H).
  apply (drain_nodes_within_budget (pool_URLLC s)) in Ha as (svA & HA & _);
    [|apply pool_aligned].
  destruct (fst a); [destruct (decide (0 < budget (snd a))) as [Hpos|Hpos]|].
  - apply rbind_ok in H as (b & Hb & H). injection H as <-.
    apply (drain_nodes_within_budget (pool_mMTC s)) in Hb as (svB & HB & _);
      [|apply pool_aligned].
    eapply (two_classes_within_budget s _ (snd a) (snd b) svA svB); [done..| |done].
    exists (send_queue_mMTC s). by split.
  - injection H as <-. by eapply (class_a_within_budget s _ (snd a) svA).
  - injection H as <-. by eapply (class_a_within_budget s _ (snd a) svA).
Qed.

Lemma rrq_fcfs_within_budget s s' :
  0 <= no_pilots s →
  Forall (fun e => etype e = _URLLC_ARRIVAL) (send_queue_URLLC s) →
  Forall (fun e => etype e = _mMTC_ARRIVAL) (send_queue_mMTC s) →
  __round_robin_queue_first_come_first_served s = Ok s' →
  served_cost s s' <= no_pilots s.
Proof.
  intros HN HtU HtM H. unfold __round_robin_queue_first_come_first_served in H.
  apply rbind_ok in H as (a & Ha & H).
  apply (drain_nodes_within_budget (pool_URLLC s)) in Ha as (svA & HA & _);
    [|apply pool_aligned].
  destruct (fst a); [destruct (decide (0 < budget (snd a))) as [Hpos|Hpos]|].
  - apply rbind_ok in H as (b & Hb & H). injection H as <-.
    unfold serve_mmtc_latest_first in Hb.
    apply serve_live_within_budget in Hb as [svB HB].
    eapply (two_classes_within_budget s _ (snd a) b svA svB); [done..| |done].
    exists (py_sort dead_time true (send_queue_mMTC s)).
    split; [|done]. intros x Hx. by rewrite py_sort_perm in Hx.
  - injection H as <-. by eapply (class_a_within_budget s _ (snd a) svA).
  - injection H as <-. by eapply (class_a_within_budget s _ (snd a) svA).
Qed.

(** C1 on the code.  The three queue-aware policies keep the served cost of
    a pass within [no_pilots] (for a budget that is not negative and queues
    that hold arrivals of their class).  The RRN policies do not: in the
    two-frame run of RRN_FCFS with budget 2, the allocation pass of the
    second frame grants node 1 (cost 2) and then serves the pending
    requests of node 1 and of node 0, whose flag is left from the first
    frame, so requests of total cost 4 are served. *)
Theorem rrn_pass_serves_beyond_budget :
  (∀ s s', 0 <= no_pilots s →
     Forall (fun e => etype e = _URLLC_ARRIVAL) (send_queue_URLLC s) →
     Forall (fun e => etype e = _mMTC_ARRIVAL) (send_queue_mMTC s) →
     __fist_come_first_served s = Ok s' → served_cost s s' <= no_pilots s)
  ∧ (∀ s s', 0 <= no_pilots s →
     Forall (fun e => etype e = _URLLC_ARRIVAL) (send_queue_URLLC s) →
     Forall (fun e => etype e = _mMTC_ARRIVAL) (send_queue_mMTC s) →
     __round_robin_queue_info s = Ok s' → served_cost s s' <= no_pilots s)
  ∧ (∀ s s', 0 <= no_pilots s →
     Forall (fun e => etype e = _URLLC_ARRIVAL) (send_queue_URLLC s) →
     Forall (fun e => etype e = _mMTC_ARRIVAL) (send_queue_mMTC s) →
     __round_robin_queue_first_come_first_served s = Ok s' →
     served_cost s s' <= no_pilots s)
  ∧ ∃ s0 s4 s_in s_out,
      two_frame_start = Ok s0
      ∧ run 4 s0 = Ok s4
      ∧ allocation_input s4 = Ok s_in
      ∧ __assign_pilots s_in = Ok s_out
      ∧ pilot_strategy s_in = "RRN_FCFS"
      ∧ no_pilots s_in = 2
      ∧ map (fun e => (etype e, node_id e)) (send_queue_URLLC s_in) = [(3, 1%nat); (3, 0%nat)]
      ∧ send_queue_mMTC s_in = []
      ∧ map (fun en => (node_id (entry_event en), entry_success en)) (new_entries s_in s_out)
          = [(1%nat, true); (0%nat, true)]
      ∧ send_queue_URLLC s_out = []
      ∧ served_cost s_in s_out = 4.
Proof.
  split; [exact fcfs_within_budget|]. split; [exact rrq_rrq_within_budget|].
  split; [exact rrq_fcfs_within_budget|].
  do 4 eexists. split; [vm_compute; reflexivity|].
  split; [vm_compute; reflexivity|]. split; [vm_compute; reflexivity|].
  split; [vm_compute; reflexivity|]. by vm_compute.
Qed.

(** ** The superframe cursor *)

Lemma cursor_resets_when_counter_wraps s :
  2 <= frame_loops s → 0 <= frame_counter s < frame_loops s →
  (cursor_resets s ↔ frame_counter s = 0).
Proof.
  intros HL Hc. unfold cursor_resets, next_frame_counter.
  destruct (decide (frame_counter s + 1 = frame_loops s)) as [Heq|Hne].
  - rewrite Heq, Z_mod_same_full. lia.
  - rewrite Z.mod_small by lia. lia.
Qed.

(** C7 on the code.  When a superframe is one frame long ([frame_loops] is
    1) the frame counter is always 0 and the test for the reset never
    holds, so the cursor is never put back to 0.  In the run with ratio 1
    the cursor is 1 after the first frame and stays at 2, the size of the
    pool, from the second frame on. *)
Theorem cursor_never_resets_at_ratio_one :
  (∀ s, frame_loops s = 1 → ¬ cursor_resets s)
  ∧ (∀ s s', frame_loops s = 1 → advance_frame s = Ok s' →
             node_pointer s' = node_pointer s ∧ frame_counter s' = 0 ∧ frame_loops s' = 1)
  ∧ ∃ s0,
      ratio_one_start = Ok s0
      ∧ frame_loops s0 = 1
      ∧ map (fun k => rmap (fun s => (time s, frame_counter s, node_pointer s)) (run k s0))
            [3; 6; 9; 12]%nat
        = [Ok (10, 0, 1%nat); Ok (20, 0, 2%nat); Ok (30, 0, 2%nat); Ok (40, 0, 2%nat)].
Proof.
  assert (H1 : ∀ s, frame_loops s = 1 → ¬ cursor_resets s).
  { intros s HL. unfold cursor_resets, next_frame_counter. rewrite HL, Z.mod_1_r. lia. }
  split; [exact H1|]. split.
  - intros s s' HL. unfold advance_frame.
    rewrite decide_False by lia. rewrite decide_False by (by apply H1).
    intros H. injection H as <-. cbn. unfold next_frame_counter.
    rewrite HL, Z.mod_1_r. done.
  - eexists. split; [vm_compute; reflexivity|]. by vm_compute.
Qed.

(** ** First come first served *)

Lemma serve_events_spec pool t :
  ∀ events p,
    events ⊆+ queue p →
    Forall (fun e => (node_id e < length pool)%nat) events →
    ∃ p', serve_events pool t events p = Ok p'
      ∧ pass_serves t p (served_prefix (budget p) (priced pool events))
          (budget_after (budget p) (priced pool events)) p'.
Proof.
  induction events as [|e events IH]; intros p Hsub Hrange.
  - exists p. split; [done|]. repeat split; try done. cbn. by rewrite app_nil_r.
  - apply Forall_cons in Hrange as [He Hrange].
    destruct (lookup_lt_is_Some_2 _ _ He) as [nd Hnd].
    cbn [priced map serve_events served_prefix budget_after].
    unfold get_node, node_cost. rewrite Hnd. cbn [of_option rbind].
    destruct (decide (0 <= budget p - pilot_samples nd)) as [Hfit|Hfit].
    + apply submseteq_cons_l in Hsub as (k' & Hk' & Hsub).
      assert (e ∈ queue p) as Hin by (rewrite Hk'; by left).
      destruct (py_remove_elem _ _ Hin) as [q' Hrem]. rewrite Hrem. cbn [rbind].
      destruct (py_remove_perm _ _ _ Hrem) as [Hp Hs].
      set (p1 := mkPass (budget p - pilot_samples nd) q'
                   (write_trace (get_entry e t true) (written p))).
      destruct (IH p1) as (p' & Hrun & Hserves); [|done|].
      { cbn. rewrite Hk' in Hp. apply Permutation_cons_inv in Hp. by rewrite <- Hp. }
      exists p'. split; [done|].
      apply (pass_serves_trans t p p1 p' [e] _ (budget p - pilot_samples nd)); [|done].
      repeat split; try done.
    + eexists. split; [done|]. repeat split; try done. cbn. by rewrite app_nil_r.
Qed.

Lemma all_fit_false_budget b items : all_fit b items = false → budget_after b items < 0.
Proof.
  revert b. induction items as [|[c e] items IH]; intros b; simpl; [done|].
  destruct (decide (0 <= b - c)); [apply IH | lia].
Qed.

(** What [__fist_come_first_served] does.  On queues whose requests all
    name a node of their pool, FCFS_FCFS succeeds.  Class A is served in
    ascending deadline order as long as each next request fits; at the
    first request that does not fit the loop stops with the cost of that
    request still subtracted, so the budget is negative and class B is not
    served in this frame.  Class B is served, in ascending deadline order
    and in the same way, only when every class-A request was served and the
    budget left is positive.  Served requests are reported as successes and
    taken out of their queue, the others stay queued in their order. *)
Theorem fist_come_first_served_spec (s : Simulation) :
  Forall (fun e => (node_id e < length (pool_URLLC s))%nat) (send_queue_URLLC s) →
  Forall (fun e => (node_id e < length (pool_mMTC s))%nat) (send_queue_mMTC s) →
  let orderA := py_sort dead_time false (send_queue_URLLC s) in
  let orderB := py_sort dead_time false (send_queue_mMTC s) in
  let servedA := served_prefix (no_pilots s) (priced (pool_URLLC s) orderA) in
  let leftover := budget_after (no_pilots s) (priced (pool_URLLC s) orderA) in
  let servedB :=
    if bool_decide (0 < leftover)
    then served_prefix leftover (priced (pool_mMTC s) orderB) else [] in
  StronglySorted (fun a b => dead_time a <= dead_time b) orderA
  ∧ orderA ≡ₚ send_queue_URLLC s
  ∧ StronglySorted (fun a b => dead_time a <= dead_time b) orderB
  ∧ orderB ≡ₚ send_queue_mMTC s
  ∧ (all_fit (no_pilots s) (priced (pool_URLLC s) orderA) = false →
       leftover < 0 ∧ servedB = [])
  ∧ ∃ s', __fist_come_first_served s = Ok s'
      ∧ trace s' = trace s ++ map (fun e => get_entry e (time s) true) (servedA ++ servedB)
      ∧ send_queue_URLLC s ≡ₚ servedA ++ send_queue_URLLC s'
      ∧ sublist (send_queue_URLLC s') (send_queue_URLLC s)
      ∧ send_queue_mMTC s ≡ₚ servedB ++ send_queue_mMTC s'
      ∧ sublist (send_queue_mMTC s') (send_queue_mMTC s).
Proof.
  intros HU HM. cbv zeta.
  split; [apply py_sort_sorted|]. split; [apply py_sort_perm|].
  split; [apply py_sort_sorted|]. split; [apply py_sort_perm|].
  split.
  { intros Hfit. apply all_fit_false_budget in Hfit. split; [done|].
    by rewrite bool_decide_eq_false_2 by lia. }
  unfold __fist_come_first_served.
  destruct (serve_events_spec (pool_URLLC s) (time s)
              (py_sort dead_time false (send_queue_URLLC s))
              (mkPass (no_pilots s) (send_queue_URLLC s) (trace s)))
    as (a & Ha & HbA & HwA & HqA & HsA).
  { cbn. by rewrite py_sort_perm. }
  { by rewrite py_sort_perm. }
  cbn [budget queue written] in Ha, HbA, HwA, HqA, HsA.
  rewrite Ha. cbn [rbind]. rewrite HbA.
  set (leftover := budget_after _ _) in *.
  destruct (decide (0 < leftover)) as [Hpos|Hpos].
  - rewrite bool_decide_eq_true_2 by done.
    destruct (serve_events_spec (pool_mMTC s) (time s)
                (py_sort dead_time false (send_queue_mMTC s))
                (mkPass leftover (send_queue_mMTC s) (written a)))
      as (b & Hb & HbB & HwB & HqB & HsB).
    { cbn. by rewrite py_sort_perm. }
    { by rewrite py_sort_perm. }
    cbn [budget queue written] in Hb, HbB, HwB, HqB, HsB.
    rewrite Hb. cbn [rbind]. eexists. split; [done|].
    cbn. rewrite HwB, HwA, map_app, app_assoc. done.
  - rewrite bool_decide_eq_false_2 by done. eexists. split; [done|].
    cbn. rewrite HwA, app_nil_r. done.
Qed.

(** Scenario A: node 1 (deadline 8) is served first, node 0 does not fit and
    stays queued. *)
Lemma fist_come_first_served_scenario_A :
  ∃ s', __fist_come_first_served scenario_A = Ok s'
    ∧ trace s' = [get_entry (mkEvent _URLLC_ARRIVAL 2 8 1 2) 5 true]
    ∧ sublist (send_queue_URLLC s') (send_queue_URLLC scenario_A)
    ∧ sublist (send_queue_mMTC s') (send_queue_mMTC scenario_A).
Proof.
  destruct (fist_come_first_served_spec scenario_A)
    as (_ & _ & _ & _ & _ & s' & Hrun & Htr & _ & HsA & _ & HsB).
  - repeat constructor.
  - repeat constructor.
  - exists s'. split; [exact Hrun|]. split; [exact Htr|]. split; [exact HsA|exact HsB].
Defined.

(** C2 on the code.  In Scenario A with one class-B request of cost 1:
    after node 1 is served the budget is 2; the request of node 0 (cost 3)
    does not fit and the class-A loop ends by [break] with budget -1, the
    cost is not given back as the grant loops of the RRN policies give it
    back before their [break]; the test [no_pilots > 0] then fails, and the
    class-B request is neither served nor reported and stays queued,
    although its cost fits the 2 units that were left. *)
Theorem fcfs_leaves_class_b_unserved :
  (∃ a,
      serve_events (pool_URLLC scenario_A) (time scenario_A)
        (py_sort dead_time false (send_queue_URLLC scenario_A))
        (mkPass (no_pilots scenario_A) (send_queue_URLLC scenario_A) (trace scenario_A)) = Ok a
      ∧ budget a = -1)
  ∧ map (cost_of scenario_A) (send_queue_mMTC scenario_A) = [1]
  ∧ ∃ s', __fist_come_first_served scenario_A = Ok s'
      ∧ trace s' = [get_entry (mkEvent _URLLC_ARRIVAL 2 8 1 2) 5 true]
      ∧ send_queue_URLLC s' = [mkEvent _URLLC_ARRIVAL 1 10 0 1]
      ∧ send_queue_mMTC s' = [mkEvent _mMTC_ARRIVAL 1 50 0 1].
Proof.
  split; [|split].
  - eexists. split; [vm_compute; reflexivity|]. by vm_compute.
  - by vm_compute.
  - eexists. split; [vm_compute; reflexivity|]. by vm_compute.
Qed.

(** ** Latest deadline first *)

(** The fuel given to [serve_live] by its callers is enough: from position
    [i] the loop makes at most [length (queue p) - i] turns. *)
Lemma serve_live_fuel pool t fuel :
  ∀ fuel' i p,
    (length (queue p) - i ≤ fuel)%nat → (fuel ≤ fuel')%nat →
    serve_live fuel' pool t i p = serve_live fuel pool t i p.
Proof.
  induction fuel as [|fuel IH]; intros fuel' i p Hlen Hle.
  - assert (queue p !! i = None) as Hnone by (apply lookup_ge_None; lia).
    destruct fuel'; simpl; [done|]. by rewrite Hnone.
  - destruct fuel' as [|fuel']; [lia|]. simpl.
    destruct (queue p !! i) as [event|] eqn:Hev; [|done].
    destruct (get_node pool (node_id event)) as [nd|]; [|done]. cbn [rbind].
    case_decide; [|done].
    destruct (py_remove event (queue p)) as [q|] eqn:Hrem; [|done]. cbn [rbind].
    apply IH; [|lia]. cbn. apply py_remove_length in Hrem. lia.
Qed.

(** C3 on the code.  The class-B pass of RRQ_FCFS iterates the send queue
    itself while removing the served requests from it, so after each served
    request the iterator steps over the next one.  With budget 10 and three
    class-B requests of cost 1 with deadlines 90, 70 and 50, the requests
    with deadlines 90 and 50 are served and the one with deadline 70, which
    fits and comes before 50 in the order, stays queued. *)
Theorem latest_first_pass_skips_fitting_request :
  ∃ s', __round_robin_queue_first_come_first_served scenario_latest_first = Ok s'
    ∧ map (fun en => (dead_time (entry_event en), entry_success en)) (trace s')
        = [(90, true); (50, true)]
    ∧ send_queue_mMTC s' = [mkEvent _mMTC_ARRIVAL 1 70 1 1].
Proof.
  eexists. split; [vm_compute; reflexivity|]. by vm_compute.
Qed.

(** * Further properties of the engine *)

(** ** Serving loops lose no request *)

Lemma loop_conserves_refl t q tr : loop_conserves t q tr q tr [].
Proof. split; [done|]. by rewrite app_nil_r. Qed.

Lemma loop_conserves_step t q tr e q1 q' tr' sv :
  py_remove e q = Ok q1 →
  loop_conserves t q1 (write_trace (get_entry e t true) tr) q' tr' sv →
  loop_conserves t q tr q' tr' (e :: sv).
Proof.
  intros Hrem [Hq Htr]. destruct (py_remove_perm _ _ _ Hrem) as [Hp _]. split.
  - rewrite Hp, Hq. done.
  - rewrite Htr. unfold write_trace. by rewrite <- app_assoc.
Qed.

Lemma loop_conserves_trans t q1 tr1 q2 tr2 q3 tr3 sv1 sv2 :
  loop_conserves t q1 tr1 q2 tr2 sv1 → loop_conserves t q2 tr2 q3 tr3 sv2 →
  loop_conserves t q1 tr1 q3 tr3 (sv1 ++ sv2).
Proof.
  intros [Hq1 Ht1] [Hq2 Ht2]. split.
  - by rewrite Hq1, Hq2, app_assoc.
  - by rewrite Ht2, Ht1, map_app, app_assoc.
Qed.

Lemma serve_events_conserves pool t :
  ∀ events p p', serve_events pool t events p = Ok p' →
    ∃ sv, loop_conserves t (queue p) (written p) (queue p') (written p') sv.
Proof.
  induction events as [|e events IH]; intros p p' H; simpl in H.
  - injection H as <-. exists []. apply loop_conserves_refl.
  - apply rbind_ok in H as (nd & _ & H). case_decide.
    + apply rbind_ok in H as (q & Hrem & H). destruct (IH _ _ H) as [sv Hsv].
      exists (e :: sv). by eapply loop_conserves_step.
    + injection H as <-. exists []. apply loop_conserves_refl.
Qed.

Lemma serve_live_conserves pool t :
  ∀ fuel i p p', serve_live fuel pool t i p = Ok p' →
    ∃ sv, loop_conserves t (queue p) (written p) (queue p') (written p') sv.
Proof.
  induction fuel as [|fuel IH]; intros i p p' H; simpl in H.
  - injection H as <-. exists []. apply loop_conserves_refl.
  - destruct (queue p !! i) as [e|].
    + apply rbind_ok in H as (nd & _ & H). case_decide.
      * apply rbind_ok in H as (q & Hrem & H). destruct (IH _ _ _ H) as [sv Hsv].
        exists (e :: sv). by eapply loop_conserves_step.
      * injection H as <-. exists []. apply loop_conserves_refl.
    + injection H as <-. exists []. apply loop_conserves_refl.
Qed.

Lemma drain_node_conserves cost t :
  ∀ events p r, drain_node cost t events p = Ok r →
    ∃ sv, loop_conserves t (queue p) (written p) (queue (snd r)) (written (snd r)) sv.
Proof.
  induction events as [|e events IH]; intros p r H; simpl in H.
  - injection H as <-. exists []. apply loop_conserves_refl.
  - case_decide.
    + apply rbind_ok in H as (q & Hrem & H). destruct (IH _ _ H) as [sv Hsv].
      exists (e :: sv). by eapply loop_conserves_step.
    + injection H as <-. exists []. apply loop_conserves_refl.
Qed.

Lemma drain_nodes_conserves returns t :
  ∀ nodes ind p r, drain_nodes returns t nodes ind p = Ok r →
    ∃ sv, loop_conserves t (queue p) (written p) (queue (snd r)) (written (snd r)) sv.
Proof.
  induction nodes as [|nd nodes IH]; intros ind p r H; simpl in H.
  - injection H as <-. exists []. apply loop_conserves_refl.
  - apply rbind_ok in H as (r1 & H1 & H).
    apply drain_node_conserves in H1 as [sv1 Hsv1].
    destruct (fst r1 || negb returns)%bool.
    + apply IH in H as [sv2 Hsv2]. exists (sv1 ++ sv2).
      by eapply loop_conserves_trans.
    + injection H as <-. by exists sv1.
Qed.

Lemma resolve_event_conserves t A e r r' :
  resolve_event t A e r = Ok r' →
  ∃ sv, loop_conserves t (r_queue r) (r_trace r) (r_queue r') (r_trace r') sv.
Proof.
  unfold resolve_event. intros H.
  destruct (decide (e ∈ overlapped_event r)).
  { injection H as <-. exists []. apply loop_conserves_refl. }
  destruct (decide (length (filter (fun e0 => node_id e0 = node_id e) A) = 1%nat)).
  - apply rbind_ok in H as (q & Hrem & H). apply rbind_ok in H as (nd & _ & H).
    injection H as <-. exists [e]. cbn.
    eapply loop_conserves_step; [exact Hrem|]. apply loop_conserves_refl.
  - apply rbind_ok in H as (nd & _ & H). apply rbind_ok in H as (first & _ & H).
    apply rbind_ok in H as (q & Hrem & H). injection H as <-. exists [first]. cbn.
    eapply loop_conserves_step; [exact Hrem|]. apply loop_conserves_refl.
Qed.

Lemma resolve_events_conserves t A :
  ∀ todo r r', resolve_events t A todo r = Ok r' →
    ∃ sv, loop_conserves t (r_queue r) (r_trace r) (r_queue r') (r_trace r') sv.
Proof.
  induction todo as [|e todo IH]; intros r r' H; simpl in H.
  - injection H as <-. exists []. apply loop_conserves_refl.
  - apply rbind_ok in H as (r1 & H1 & H).
    apply resolve_event_conserves in H1 as [sv1 Hsv1].
    apply IH in H as [sv2 Hsv2]. exists (sv1 ++ sv2). by eapply loop_conserves_trans.
Qed.

(** ** Serving loops do not raise on requests of existing nodes *)

Lemma serve_live_total pool t :
  ∀ fuel i p,
    Forall (fun e => (node_id e < length pool)%nat) (queue p) →
    ∃ p', serve_live fuel pool t i p = Ok p'.
Proof.
  induction fuel as [|fuel IH]; intros i p Hrange; simpl; [by eexists|].
  destruct (queue p !! i) as [e|] eqn:He; [|by eexists].
  assert (Hin : e ∈ queue p) by (apply list_elem_of_lookup; by exists i).
  pose proof (proj1 (Forall_forall _ _) Hrange e Hin) as Hlt.
  destruct (get_node_lt _ _ Hlt) as (nd & _ & ->). cbn [rbind].
  case_decide; [|by eexists].
  destruct (py_remove_elem _ _ Hin) as [q Hrem]. rewrite Hrem. cbn [rbind].
  apply IH. cbn. destruct (py_remove_perm _ _ _ Hrem) as [_ Hsub].
  eapply Forall_forall. intros x Hx.
  apply (proj1 (Forall_forall _ _) Hrange). eapply elem_of_sublist; [exact Hx|exact Hsub].
Qed.

Lemma drain_nodes_total returns t :
  ∀ nodes ind p, ∃ r, drain_nodes returns t nodes ind p = Ok r.
Proof.
  induction nodes as [|nd nodes IH]; intros ind p; simpl; [by eexists|].
  destruct (drain_node_spec (pilot_samples nd) t ind
              (filter (fun e => node_id e = ind) (queue p)) p) as (p1 & -> & _).
  { apply sublist_submseteq, sublist_filter. }
  { apply Forall_forall. intros e He. by apply list_elem_of_filter in He as [? _]. }
  cbn [rbind fst snd]. destruct (_ || _)%bool; [apply IH | by eexists].
Qed.

Lemma serve_events_total pool t events p :
  events ⊆+ queue p →
  Forall (fun e => (node_id e < length pool)%nat) events →
  ∃ p', serve_events pool t events p = Ok p'.
Proof.
  intros Hsub Hrange. destruct (serve_events_spec pool t events p Hsub Hrange) as (p' & H & _).
  by exists p'.
Qed.

(** ** The grant loop of the RRN policies *)

Lemma grant_count_le b costs : (grant_count b costs ≤ length costs)%nat.
Proof.
  revert b. induction costs as [|c costs IH]; intros b; simpl; [lia|].
  case_decide; [|lia]. specialize (IH (b - c)). lia.
Qed.

Lemma grant_count_fits b costs j :
  (j ≤ grant_count b costs)%nat → 0 <= b → 0 <= b - sum_costs (take j costs).
Proof.
  revert b j. induction costs as [|c costs IH]; intros b j Hj Hb; simpl in *.
  - rewrite take_nil. unfold sum_costs. simpl. lia.
  - destruct j as [|j]; [unfold sum_costs; simpl; lia|].
    case_decide; [|lia]. simpl. unfold sum_costs in *. simpl.
    specialize (IH (b - c) j ltac:(lia) ltac:(lia)). lia.
Qed.

Lemma grant_count_stops b costs :
  (grant_count b costs < length costs)%nat →
  b - sum_costs (take (S (grant_count b costs)) costs) < 0.
Proof.
  revert b. induction costs as [|c costs IH]; intros b Hlt; simpl in *; [lia|].
  destruct (decide (0 <= b - c)) as [Hfit|Hfit].
  - unfold sum_costs in *. simpl. specialize (IH (b - c) ltac:(lia)).
    simpl in IH. lia.
  - unfold sum_costs. simpl. rewrite ?take_0. simpl. lia.
Qed.

Lemma grant_nodes_spec :
  ∀ n start g,
    (start + n ≤ length (g_pool g))%nat →
    let costs := map pilot_samples (take n (drop start (g_pool g))) in
    let k := grant_count (g_budget g) costs in
    ∃ g', grant_nodes (seq start n) g = Ok g'
      ∧ g_budget g' = g_budget g - sum_costs (take k costs)
      ∧ g_pointer g' = (g_pointer g + k)%nat
      ∧ length (g_pool g') = length (g_pool g)
      ∧ ∀ i, g_pool g' !! i =
             (if decide (start ≤ i < start + k)%nat then set_assigned true else id)
               <$> g_pool g !! i.
Proof.
  induction n as [|n IH]; intros start g Hlen; cbn zeta.
  - exists g. split; [done|].
    assert (Hc : map pilot_samples (take 0 (drop start (g_pool g))) = []) by done.
    rewrite Hc. cbn [grant_count take]. unfold sum_costs. cbn [foldr].
    split; [lia|]. split; [lia|]. split; [done|]. intros i.
    rewrite decide_False by lia. by destruct (g_pool g !! i).
  - cbn [seq grant_nodes].
    destruct (lookup_lt_is_Some_2 (g_pool g) start ltac:(lia)) as [nd Hnd].
    unfold get_node. rewrite Hnd. cbn [of_option rbind].
    assert (Hcosts : map pilot_samples (take (S n) (drop start (g_pool g))) =
              pilot_samples nd :: map pilot_samples (take n (drop (S start) (g_pool g)))).
    { rewrite (drop_S _ nd start Hnd). done. }
    rewrite Hcosts. cbn [grant_count].
    destruct (decide (0 <= g_budget g - pilot_samples nd)) as [Hfit|Hfit].
    + set (g1 := mkGrant (g_budget g - pilot_samples nd) (S (g_pointer g))
                   (<[start := set_assigned true nd]> (g_pool g))).
      destruct (IH (S start) g1) as (g' & Hrun & Hb & Hp & Hl & Hpool).
      { cbn. rewrite length_insert. lia. }
      cbv zeta in Hrun, Hb, Hp, Hl, Hpool. cbn [g_budget g_pointer g_pool g1] in Hb, Hp, Hl, Hpool.
      rewrite drop_insert_lt in Hb, Hp, Hpool by lia.
      exists g'. split; [exact Hrun|]. split; [|split; [|split]].
      * rewrite Hb. cbn [take]. unfold sum_costs. cbn. lia.
      * rewrite Hp. lia.
      * rewrite Hl. apply length_insert.
      * intros i. rewrite Hpool. destruct (decide (i = start)) as [->|Hi].
        -- rewrite list_lookup_insert_eq by lia. rewrite decide_False by lia.
           rewrite decide_True by lia. by rewrite Hnd.
        -- rewrite list_lookup_insert_ne by done.
           destruct (decide (S start ≤ i < S start + _)%nat);
             [rewrite decide_True by lia | rewrite decide_False by lia]; done.
    + eexists. split; [done|]. cbn. unfold sum_costs. cbn.
      split; [lia|]. split; [lia|]. split; [done|]. intros i.
      rewrite decide_False by lia. by destruct (g_pool g !! i).
Qed.

Lemma grant_pass_marks (s : Simulation) :
  ∃ g k, grant_pass s = Ok g
    ∧ length (g_pool g) = length (pool_URLLC s)
    ∧ ∀ i, g_pool g !! i =
           (if decide (node_pointer s ≤ i < node_pointer s + k)%nat
            then set_assigned true else id) <$> pool_URLLC s !! i.
Proof.
  unfold grant_pass, py_range.
  destruct (decide (node_pointer s ≤ length (pool_URLLC s))%nat) as [Hle|Hgt].
  - destruct (grant_nodes_spec (length (pool_URLLC s) - node_pointer s) (node_pointer s)
                (mkGrant (no_pilots s) (node_pointer s) (pool_URLLC s)))
      as (g & Hrun & _ & _ & Hl & Hpool).
    { cbn. lia. }
    exists g. eexists. split; [exact Hrun|]. split; [exact Hl|exact Hpool].
  - replace (length (pool_URLLC s) - node_pointer s)%nat with 0%nat by lia. cbn.
    eexists _, 0%nat. split; [done|]. split; [done|]. intros i. cbn.
    rewrite decide_False by lia. by destruct (pool_URLLC s !! i).
Qed.

(** X1. The grant pass never raises.  From the cursor it marks the longest run
    of consecutive class-A nodes whose costs fit the budget one after the
    other: the cursor moves by their number, the budget left is the budget
    minus their costs, exactly these nodes get [assigned] set and no other
    node is touched; if the run stops before the end of the pool, the cost
    of the next node does not fit and is given back. *)
Theorem grant_pass_spec (s : Simulation) :
  let costs := map pilot_samples (drop (node_pointer s) (pool_URLLC s)) in
  let k := grant_count (no_pilots s) costs in
  ∃ g, grant_pass s = Ok g
    ∧ g_pointer g = (node_pointer s + k)%nat
    ∧ g_budget g = no_pilots s - sum_costs (take k costs)
    ∧ (k ≤ length costs)%nat
    ∧ (0 <= no_pilots s → ∀ j, (j ≤ k)%nat → 0 <= no_pilots s - sum_costs (take j costs))
    ∧ ((k < length costs)%nat → no_pilots s - sum_costs (take (S k) costs) < 0)
    ∧ length (g_pool g) = length (pool_URLLC s)
    ∧ ∀ i, g_pool g !! i =
           (if decide (node_pointer s ≤ i < node_pointer s + k)%nat
            then set_assigned true else id) <$> pool_URLLC s !! i.
Proof.
  cbv zeta. unfold grant_pass, py_range.
  set (start := node_pointer s). set (pool := pool_URLLC s).
  destruct (decide (start ≤ length pool)%nat) as [Hle|Hgt].
  - destruct (grant_nodes_spec (length pool - start) start
                (mkGrant (no_pilots s) start pool)) as (g & Hrun & Hb & Hp & Hl & Hpool).
    { cbn. lia. }
    cbv zeta in Hrun, Hb, Hp, Hl, Hpool. cbn [g_budget g_pointer g_pool] in Hb, Hp, Hl, Hpool.
    assert (Htake : take (length pool - start) (drop start pool) = drop start pool).
    { apply take_ge. rewrite length_drop. lia. }
    rewrite Htake in Hb, Hp, Hpool.
    exists g. split; [exact Hrun|]. split; [exact Hp|]. split; [exact Hb|].
    split; [apply grant_count_le|]. split; [|split; [|split; [exact Hl|exact Hpool]]].
    + intros Hb0 j Hj. by apply grant_count_fits.
    + apply grant_count_stops.
  - assert (Hnil : drop start pool = []) by (apply drop_ge; lia).
    replace (length pool - start)%nat with 0%nat by lia. rewrite Hnil. cbn.
    eexists. split; [done|]. cbn. unfold sum_costs. cbn.
    split; [lia|]. split; [lia|]. split; [lia|]. split; [intros; rewrite take_nil; cbn; lia|].
    split; [lia|]. split; [done|]. intros i. rewrite decide_False by lia.
    by destruct (pool !! i).
Qed.

(** ** Allocation passes as a whole *)

Lemma map_insert_same {X : Type} (f : Node → X) (pool : list Node) i nd nd' :
  pool !! i = Some nd → f nd' = f nd → map f (<[i := nd']> pool) = map f pool.
Proof.
  intros H Hf. change (map f) with (fmap (M := list) f).
  rewrite list_fmap_insert, Hf. apply list_insert_id. by rewrite list_lookup_fmap, H.
Qed.

Lemma resolve_events_keeps {X : Type} (f : Node → X) t A :
  (∀ b nd, f (set_active b nd) = f nd) →
  ∀ todo r r', resolve_events t A todo r = Ok r' → map f (r_pool r') = map f (r_pool r).
Proof.
  intros Hf. induction todo as [|e todo IH]; intros r r' H; simpl in H.
  - by injection H as <-.
  - apply rbind_ok in H as (r1 & H1 & H). rewrite (IH _ _ H). clear IH H.
    unfold resolve_event in H1.
    destruct (decide (e ∈ overlapped_event r)); [by injection H1 as <-|].
    destruct (decide (length (filter (fun e0 => node_id e0 = node_id e) A) = 1%nat)).
    + apply rbind_ok in H1 as (q & _ & H1). apply rbind_ok in H1 as (nd & Hnd & H1).
      injection H1 as <-. cbn. eapply map_insert_same; [by apply get_node_ok|apply Hf].
    + apply rbind_ok in H1 as (nd & Hnd & H1). apply rbind_ok in H1 as (first & _ & H1).
      apply rbind_ok in H1 as (q & _ & H1).
      injection H1 as <-. cbn. eapply map_insert_same; [by apply get_node_ok|apply Hf].
Qed.

Lemma handle_send_queue_total s :
  Forall (fun e => (node_id e < length (pool_URLLC s))%nat) (send_queue_URLLC s) →
  ∃ s', __handle_send_queue s = Ok s'.
Proof.
  intros Hrange. unfold __handle_send_queue.
  rewrite (filter_assigned_ok _ _ Hrange). cbn [rbind].
  set (A := filter _ _).
  destruct (resolve_events_inv (time s) (send_queue_URLLC s) (pool_URLLC s) (trace s) A)
    with (todo := A) (pre := @nil Event)
         (r := mkResolve (send_queue_URLLC s) (pool_URLLC s) (trace s) [])
    as (r & Hr & _).
  - intros e He. unfold A in He. by apply list_elem_of_filter in He as [_ ?].
  - intros e He. by apply (proj1 (Forall_forall _ _) Hrange).
  - done.
  - apply Inv_init.
  - rewrite Hr. by eexists.
Qed.

Lemma handle_send_queue_effect s s' :
  __handle_send_queue s = Ok s' →
  (∃ sv, loop_conserves (time s) (send_queue_URLLC s) (trace s)
           (send_queue_URLLC s') (trace s') sv)
  ∧ send_queue_mMTC s' = send_queue_mMTC s
  ∧ node_pointer s' = node_pointer s ∧ frame_counter s' = frame_counter s
  ∧ same_setup s s'.
Proof.
  unfold __handle_send_queue. intros H.
  apply rbind_ok in H as (A & _ & H). apply rbind_ok in H as (r & Hr & H).
  injection H as <-. cbn.
  split; [by apply resolve_events_conserves in Hr|].
  repeat split; try done.
  - by apply (resolve_events_keeps profile) in Hr.
  - by apply (resolve_events_keeps event_generator) in Hr.
Qed.

Lemma grant_pass_keeps {X : Type} (f : Node → X) s g :
  (∀ nd, f (set_assigned true nd) = f nd) →
  grant_pass s = Ok g → map f (g_pool g) = map f (pool_URLLC s).
Proof.
  intros Hf Hg. destruct (grant_pass_marks s) as (g' & k & Hg' & Hl & Hpool).
  rewrite Hg in Hg'. injection Hg' as <-.
  change (map f) with (fmap (M := list) f). apply list_eq. intros i.
  rewrite !list_lookup_fmap, Hpool. destruct (pool_URLLC s !! i) as [nd|]; [|done].
  cbn. case_decide; [by rewrite Hf | done].
Qed.

Lemma same_setup_refl s : same_setup s s.
Proof. by repeat split. Qed.

Lemma pass_ok_two_loops s qU trA qM trB svA svB :
  loop_conserves (time s) (send_queue_URLLC s) (trace s) qU trA svA →
  loop_conserves (time s) (send_queue_mMTC s) trA qM trB svB →
  pass_ok s (set_trace trB (set_send_queue K_mMTC qM
                (set_trace trA (set_send_queue K_URLLC qU s)))).
Proof.
  intros [HqA HtA] [HqB HtB]. split; [|by repeat split].
  exists svA, svB. split; [done|]. split; [done|].
  eexists. split; [cbn; by rewrite HtB, HtA, <- app_assoc|]. by rewrite map_app.
Qed.

Lemma pass_ok_one_loop s qU trA svA :
  loop_conserves (time s) (send_queue_URLLC s) (trace s) qU trA svA →
  pass_ok s (set_trace trA (set_send_queue K_URLLC qU s)).
Proof.
  intros [HqA HtA]. split; [|by repeat split].
  exists svA, []. split; [done|]. split; [done|].
  eexists. split; [cbn; exact HtA|]. by rewrite app_nil_r.
Qed.

Lemma fcfs_pass_ok s :
  Forall (fun e => (node_id e < length (pool_URLLC s))%nat) (send_queue_URLLC s) →
  Forall (fun e => (node_id e < length (pool_mMTC s))%nat) (send_queue_mMTC s) →
  ∃ s', __fist_come_first_served s = Ok s' ∧ pass_ok s s'.
Proof.
  intros HU HM. unfold __fist_come_first_served.
  destruct (serve_events_total (pool_URLLC s) (time s)
              (py_sort dead_time false (send_queue_URLLC s))
              (mkPass (no_pilots s) (send_queue_URLLC s) (trace s))) as [a Ha].
  { cbn. by rewrite py_sort_perm. }
  { by rewrite py_sort_perm. }
  rewrite Ha. cbn [rbind]. destruct (serve_events_conserves _ _ _ _ _ Ha) as [svA HA].
  cbn in HA. case_decide.
  - destruct (serve_events_total (pool_mMTC s) (time s)
                (py_sort dead_time false (send_queue_mMTC s))
                (mkPass (budget a) (send_queue_mMTC s) (written a))) as [b Hb].
    { cbn. by rewrite py_sort_perm. }
    { by rewrite py_sort_perm. }
    rewrite Hb. cbn [rbind]. destruct (serve_events_conserves _ _ _ _ _ Hb) as [svB HB].
    cbn in HB. eexists. split; [done|]. by eapply pass_ok_two_loops.
  - eexists. split; [done|]. by eapply pass_ok_one_loop.
Qed.

Lemma rrq_rrq_pass_ok s : ∃ s', __round_robin_queue_info s = Ok s' ∧ pass_ok s s'.
Proof.
  unfold __round_robin_queue_info.
  destruct (drain_nodes_total true (time s) (pool_URLLC s) 0
              (mkPass (no_pilots s) (send_queue_URLLC s) (trace s))) as [a Ha].
  rewrite Ha. cbn [rbind]. destruct (drain_nodes_conserves _ _ _ _ _ _ Ha) as [svA HA].
  cbn in HA. destruct (fst a); [case_decide|].
  - destruct (drain_nodes_total true (time s) (pool_mMTC s) 0
                (mkPass (budget (snd a)) (send_queue_mMTC s) (written (snd a)))) as [b Hb].
    rewrite Hb. cbn [rbind]. destruct (drain_nodes_conserves _ _ _ _ _ _ Hb) as [svB HB].
    cbn in HB. eexists. split; [done|]. by eapply pass_ok_two_loops.
  - eexists. split; [done|]. by eapply pass_ok_one_loop.
  - eexists. split; [done|]. by eapply pass_ok_one_loop.
Qed.

Lemma serve_mmtc_latest_first_ok s b tr :
  Forall (fun e => (node_id e < length (pool_mMTC s))%nat) (send_queue_mMTC s) →
  ∃ p svB, serve_mmtc_latest_first s b tr = Ok p
    ∧ loop_conserves (time s) (send_queue_mMTC s) tr (queue p) (written p) svB.
Proof.
  intros HM. unfold serve_mmtc_latest_first.
  destruct (serve_live_total (pool_mMTC s) (time s)
              (length (py_sort dead_time true (send_queue_mMTC s))) 0
              (mkPass b (py_sort dead_time true (send_queue_mMTC s)) tr)) as [p Hp].
  { cbn. by rewrite py_sort_perm. }
  destruct (serve_live_conserves _ _ _ _ _ _ Hp) as [svB [Hq Ht]]. cbn in Hq, Ht.
  exists p, svB. split; [done|]. split; [|done]. by rewrite <- Hq, py_sort_perm.
Qed.

Lemma rrq_fcfs_pass_ok s :
  Forall (fun e => (node_id e < length (pool_mMTC s))%nat) (send_queue_mMTC s) →
  ∃ s', __round_robin_queue_first_come_first_served s = Ok s' ∧ pass_ok s s'.
Proof.
  intros HM. unfold __round_robin_queue_first_come_first_served.
  destruct (drain_nodes_total true (time s) (pool_URLLC s) 0
              (mkPass (no_pilots s) (send_queue_URLLC s) (trace s))) as [a Ha].
  rewrite Ha. cbn [rbind]. destruct (drain_nodes_conserves _ _ _ _ _ _ Ha) as [svA HA].
  cbn in HA. destruct (fst a); [case_decide|].
  - destruct (serve_mmtc_latest_first_ok s (budget (snd a)) (written (snd a)) HM)
      as (b & svB & Hb & HB).
    rewrite Hb. cbn [rbind]. eexists. split; [done|]. by eapply pass_ok_two_loops.
  - eexists. split; [done|]. by eapply pass_ok_one_loop.
  - eexists. split; [done|]. by eapply pass_ok_one_loop.
Qed.

Lemma same_setup_trans s1 s2 s3 : same_setup s1 s2 → same_setup s2 s3 → same_setup s1 s3.
Proof.
  intros (A1&A2&A3&A4&A5&A6&A7&A8&A9&A10&A11) (B1&B2&B3&B4&B5&B6&B7&B8&B9&B10&B11).
  repeat split; congruence.
Qed.

Lemma advance_frame_effect s :
  frame_loops s ≠ 0 →
  ∃ s0, advance_frame s = Ok s0
    ∧ same_setup s s0 ∧ pool_URLLC s0 = pool_URLLC s ∧ trace s0 = trace s
    ∧ send_queue_URLLC s0 = send_queue_URLLC s ∧ send_queue_mMTC s0 = send_queue_mMTC s.
Proof.
  intros HL. unfold advance_frame. rewrite decide_False by done.
  eexists. split; [done|]. case_decide; by repeat split.
Qed.

Lemma rrn_pass_ok (class_b : Simulation → Z → list Entry → result Pass) s :
  (∀ s1 b tr,
      Forall (fun e => (node_id e < length (pool_mMTC s1))%nat) (send_queue_mMTC s1) →
      ∃ p svB, class_b s1 b tr = Ok p
        ∧ loop_conserves (time s1) (send_queue_mMTC s1) tr (queue p) (written p) svB) →
  frame_loops s ≠ 0 →
  Forall (fun e => (node_id e < length (pool_URLLC s))%nat) (send_queue_URLLC s) →
  Forall (fun e => (node_id e < length (pool_mMTC s))%nat) (send_queue_mMTC s) →
  ∃ s',
    (s0 <-! advance_frame s;
     g <-! grant_pass s0;
     let s1 := set_node_pointer (g_pointer g) (set_pool_URLLC (g_pool g) s0) in
     s2 <-! (if decide (0 < g_budget g) then
               b <-! class_b s1 (g_budget g) (trace s1);
               Ok (set_trace (written b) (set_send_queue K_mMTC (queue b) s1))
             else Ok s1);
     __handle_send_queue s2) = Ok s'
    ∧ pass_ok s s'.
Proof.
  intros Hclass HL HU HM.
  destruct (advance_frame_effect s HL) as (s0 & -> & Hset0 & Hpool0 & Htr0 & HqU0 & HqM0).
  cbn [rbind].
  destruct (grant_pass_marks s0) as (g & k & Hg & Hlen & _).
  rewrite Hg. cbn [rbind].
  pose proof (grant_pass_keeps profile s0 g ltac:(intros; reflexivity) Hg) as Hprof.
  pose proof (grant_pass_keeps event_generator s0 g ltac:(intros; reflexivity) Hg) as Hgen.
  set (s1 := set_node_pointer (g_pointer g) (set_pool_URLLC (g_pool g) s0)).
  destruct Hset0 as (A1&A2&A3&A4&A5&A6&A7&A8&A9&A10&A11).
  assert (Hset1 : same_setup s s1).
  { unfold s1. repeat split; cbn; try done.
    - by rewrite Hprof, Hpool0.
    - by rewrite Hgen, Hpool0. }
  assert (Hs2 : ∃ s2 svB,
             (if decide (0 < g_budget g) then
                b <-! class_b s1 (g_budget g) (trace s1);
                Ok (set_trace (written b) (set_send_queue K_mMTC (queue b) s1))
              else Ok s1) = Ok s2
             ∧ loop_conserves (time s) (send_queue_mMTC s) (trace s)
                 (send_queue_mMTC s2) (trace s2) svB
             ∧ send_queue_URLLC s2 = send_queue_URLLC s
             ∧ pool_URLLC s2 = g_pool g ∧ time s2 = time s
             ∧ same_setup s s2).
  { case_decide.
    - destruct (Hclass s1 (g_budget g) (trace s1)) as (b & svB & Hb & HB).
      { unfold s1. cbn. by rewrite A9, HqM0. }
      rewrite Hb. cbn [rbind]. eexists _, svB. split; [done|].
      unfold s1 in HB. cbn in HB. rewrite A2, HqM0, Htr0 in HB.
      split; [exact HB|]. cbn. split; [exact HqU0|]. split; [done|]. split; [exact A2|].
      destruct Hset1 as (B1&B2&B3&B4&B5&B6&B7&B8&B9&B10&B11). by repeat split.
    - exists s1, []. split; [done|].
      split; [unfold s1; cbn; rewrite HqM0, Htr0; apply loop_conserves_refl|].
      split; [exact HqU0|]. split; [done|]. split; [exact A2|exact Hset1]. }
  destruct Hs2 as (s2 & svB & -> & [HqB HtB] & HqU2 & Hpool2 & Htime2 & Hset2). cbn [rbind].
  destruct (handle_send_queue_total s2) as [s' Hs'].
  { rewrite HqU2, Hpool2, Hlen, Hpool0. exact HU. }
  exists s'. split; [exact Hs'|].
  destruct (handle_send_queue_effect _ _ Hs') as ((svA & HqA & HtA) & HqM' & _ & _ & Hset').
  split; [|by eapply same_setup_trans].
  exists svA, svB. split; [by rewrite <- HqU2|]. split; [by rewrite HqM'|].
  exists (map (fun e => get_entry e (time s) true) svB
          ++ map (fun e => get_entry e (time s) true) svA).
  split.
  - rewrite HtA, HtB, Htime2. by rewrite <- app_assoc.
  - rewrite map_app. apply Permutation_app_comm.
Qed.

Lemma drain_class_b_ok s1 b tr :
  Forall (fun e => (node_id e < length (pool_mMTC s1))%nat) (send_queue_mMTC s1) →
  ∃ p svB,
    rmap snd (drain_nodes false (time s1) (pool_mMTC s1) 0
                (mkPass b (send_queue_mMTC s1) tr)) = Ok p
    ∧ loop_conserves (time s1) (send_queue_mMTC s1) tr (queue p) (written p) svB.
Proof.
  intros _.
  destruct (drain_nodes_total false (time s1) (pool_mMTC s1) 0
              (mkPass b (send_queue_mMTC s1) tr)) as [r Hr].
  rewrite Hr. destruct (drain_nodes_conserves _ _ _ _ _ _ Hr) as [svB HB]. cbn in HB.
  by exists (snd r), svB.
Qed.

Lemma rrn_fcfs_pass_ok s :
  frame_loops s ≠ 0 →
  Forall (fun e => (node_id e < length (pool_URLLC s))%nat) (send_queue_URLLC s) →
  Forall (fun e => (node_id e < length (pool_mMTC s))%nat) (send_queue_mMTC s) →
  ∃ s', __round_robin_no_queue_info_first_come_first_served s = Ok s' ∧ pass_ok s s'.
Proof.
  intros HL HU HM. apply (rrn_pass_ok serve_mmtc_latest_first s); try done.
  intros s1 b tr H1. by apply serve_mmtc_latest_first_ok.
Qed.

Lemma rrn_rrq_pass_ok s :
  frame_loops s ≠ 0 →
  Forall (fun e => (node_id e < length (pool_URLLC s))%nat) (send_queue_URLLC s) →
  Forall (fun e => (node_id e < length (pool_mMTC s))%nat) (send_queue_mMTC s) →
  ∃ s', __round_robin_half_queue_info s = Ok s' ∧ pass_ok s s'.
Proof.
  intros HL HU HM.
  destruct (rrn_pass_ok
              (fun s1 b tr => rmap snd (drain_nodes false (time s1) (pool_mMTC s1) 0
                                          (mkPass b (send_queue_mMTC s1) tr))) s)
    as (s' & Hrun & Hok); try done.
  { intros s1 b tr H1. by apply drain_class_b_ok. }
  exists s'. split; [|done]. rewrite <- Hrun. unfold __round_robin_half_queue_info.
  destruct (advance_frame s) as [s0|]; [|done]. cbn [rbind].
  destruct (grant_pass s0) as [g|]; [|done]. cbn [rbind].
  case_decide; [|done].
  by destruct (drain_nodes false _ _ _ _) as [r|].
Qed.

Lemma assign_pilots_pass_ok (s : Simulation) :
  pilot_strategy s ∈ recognized →
  frame_loops s ≠ 0 →
  Forall (fun e => (node_id e < length (pool_URLLC s))%nat) (send_queue_URLLC s) →
  Forall (fun e => (node_id e < length (pool_mMTC s))%nat) (send_queue_mMTC s) →
  ∃ s', __assign_pilots s = Ok s' ∧ pass_ok s s'.
Proof.
  intros Hname HL HU HM. unfold __assign_pilots, recognized in *.
  repeat (apply elem_of_cons in Hname as [->|Hname]); [..|by apply elem_of_nil in Hname].
  - change (strategy_mapping !! "FCFS_FCFS") with (Some __fist_come_first_served).
    by apply fcfs_pass_ok.
  - change (strategy_mapping !! "RRQ_RRQ") with (Some __round_robin_queue_info).
    by apply rrq_rrq_pass_ok.
  - change (strategy_mapping !! "RRQ_FCFS")
      with (Some __round_robin_queue_first_come_first_served).
    by apply rrq_fcfs_pass_ok.
  - change (strategy_mapping !! "RRN_FCFS")
      with (Some __round_robin_no_queue_info_first_come_first_served).
    by apply rrn_fcfs_pass_ok.
  - change (strategy_mapping !! "RRN_RRQ") with (Some __round_robin_half_queue_info).
    by apply rrn_rrq_pass_ok.
Qed.

(** X2. Every configured policy runs to its end on queues of requests of
    existing nodes (given that [frame_loops] is not 0, which the RRN
    policies divide by), and the pass loses no request and invents none:
    the requests it takes out of the two queues are exactly the ones it
    reports, each once and as served, and it changes nothing else but the
    flags of the class-A nodes and the RRN cursor. *)
Theorem assign_pilots_conserves (s : Simulation) :
  pilot_strategy s ∈ recognized →
  frame_loops s ≠ 0 →
  Forall (fun e => (node_id e < length (pool_URLLC s))%nat) (send_queue_URLLC s) →
  Forall (fun e => (node_id e < length (pool_mMTC s))%nat) (send_queue_mMTC s) →
  ∃ s' svA svB,
    __assign_pilots s = Ok s' ∧ pass_conserves s s' svA svB ∧ same_setup s s'.
Proof.
  intros Hname HL HU HM.
  destruct (assign_pilots_pass_ok s Hname HL HU HM) as (s' & Hrun & (svA & svB & Hc) & Hs).
  by exists s', svA, svB.
Qed.

(** ** The event heap *)

Lemma earliest_spec (h : EventHeap.t) m :
  EventHeap.earliest h = Some m → m ∈ h ∧ ∀ e, e ∈ h → etime m <= etime e.
Proof.
  revert m. induction h as [|ev h IH]; intros m H; simpl in H; [done|].
  destruct (EventHeap.earliest h) as [m'|] eqn:E.
  - destruct (IH m' eq_refl) as [Hin Hmin].
    destruct (etime m' <? etime ev) eqn:Hlt; injection H as <-.
    + apply Z.ltb_lt in Hlt. split; [by right|]. intros e He.
      apply elem_of_cons in He as [->|He]; [lia | by apply Hmin].
    + apply Z.ltb_ge in Hlt. split; [by left|]. intros e He.
      apply elem_of_cons in He as [->|He]; [lia|]. specialize (Hmin e He). lia.
  - injection H as <-. split; [by left|]. intros e He.
    apply elem_of_cons in He as [->|He]; [lia|].
    destruct h as [|x h']; [by apply elem_of_nil in He|]. simpl in E.
    destruct (EventHeap.earliest h'); [case_match|]; done.
Qed.

Lemma earliest_nonempty (h : EventHeap.t) e : e ∈ h → is_Some (EventHeap.earliest h).
Proof.
  destruct h as [|ev h]; [intros H; by apply elem_of_nil in H|]. intros _. simpl.
  destruct (EventHeap.earliest h); [case_match|]; by eexists.
Qed.

Lemma drop_first_perm (h : EventHeap.t) m : m ∈ h → h ≡ₚ m :: EventHeap.drop_first m h.
Proof.
  induction h as [|x h IH]; intros H; [by apply elem_of_nil in H|]. simpl.
  destruct (decide (m = x)) as [->|Hne]; [done|].
  apply elem_of_cons in H as [?|H]; [done|]. rewrite (IH H) at 1. apply Permutation_swap.
Qed.

Lemma pop_spec (h : EventHeap.t) ev rest :
  EventHeap.pop h = Ok (ev, rest) →
  h ≡ₚ ev :: rest ∧ ∀ e, e ∈ h → etime ev <= etime e.
Proof.
  unfold EventHeap.pop. intros H. apply rbind_ok in H as (m & Hm & H).
  injection H as <- <-. destruct (EventHeap.earliest h) as [m'|] eqn:E; [|done].
  injection Hm as ->. destruct (earliest_spec _ _ E) as [Hin Hmin].
  split; [by apply drop_first_perm | done].
Qed.

Lemma pop_nonempty (h : EventHeap.t) e : e ∈ h → ∃ ev rest, EventHeap.pop h = Ok (ev, rest).
Proof.
  intros He. destruct (earliest_nonempty h e He) as [m Hm].
  unfold EventHeap.pop. rewrite Hm. by eexists _, _.
Qed.

(** ** Arrivals *)

Lemma incr_lookup key (d : gmap string Z) v :
  d !! key = Some v →
  Stats.incr key d = Ok (<[key := v + 1]> d).
Proof. intros H. unfold Stats.incr. by rewrite H. Qed.

Lemma handle_urllc_arrival_run event s nd v :
  pool_URLLC s !! node_id event = Some nd →
  stats s !! "no_urllc_arrivals" = Some v →
  __handle_urllc_arrival event s =
    Ok (set_event_heap
          (EventHeap.push
             (mkEvent _URLLC_ARRIVAL
                (time s + next_delay (event_generator nd) (drawn (event_generator nd)))
                (time s + next_delay (event_generator nd) (drawn (event_generator nd))
                 + deadline nd)
                (node_id event) (v + 1))
             (event_heap s))
          (set_pool_URLLC
             (<[node_id event := set_generator (snd (get_next (event_generator nd)))
                                   (set_active true nd)]> (pool_URLLC s))
             (set_send_queue K_URLLC (event :: send_queue_URLLC s)
                (set_stats (<["no_urllc_arrivals" := v + 1]> (stats s)) s)))).
Proof.
  intros Hnd Hv. unfold __handle_urllc_arrival. rewrite (incr_lookup _ _ _ Hv). cbn [rbind].
  unfold get_node. rewrite Hnd. cbn [of_option rbind get_next].
  by rewrite lookup_insert_eq.
Qed.

Lemma handle_mmtc_arrival_run event s nd v :
  pool_mMTC s !! node_id event = Some nd →
  stats s !! "no_mmtc_arrivals" = Some v →
  __handle_mmtc_arrival event s =
    Ok (set_event_heap
          (EventHeap.push
             (mkEvent _mMTC_ARRIVAL
                (time s + next_delay (event_generator nd) (drawn (event_generator nd)))
                (time s + next_delay (event_generator nd) (drawn (event_generator nd))
                 + deadline nd)
                (node_id event) (v + 1))
             (event_heap s))
          (set_pool_mMTC
             (<[node_id event := set_generator (snd (get_next (event_generator nd)))
                                   (set_active true nd)]> (pool_mMTC s))
             (set_send_queue K_mMTC (event :: send_queue_mMTC s)
                (set_stats (<["no_mmtc_arrivals" := v + 1]> (stats s)) s)))).
Proof.
  intros Hnd Hv. unfold __handle_mmtc_arrival. rewrite (incr_lookup _ _ _ Hv). cbn [rbind].
  unfold get_node. rewrite Hnd. cbn [of_option rbind get_next].
  by rewrite lookup_insert_eq.
Qed.

(** ** Expiry as a whole *)

Lemma handle_expired_events_run s :
  Forall (wf_event s) (send_queue_URLLC s) →
  Forall (wf_event s) (send_queue_mMTC s) →
  __handle_expired_events s =
    Ok (set_send_queue K_mMTC
          (filter (fun e => ¬ expired (time s) e) (send_queue_mMTC s))
          (set_send_queue K_URLLC
             (filter (fun e => ¬ expired (time s) e) (send_queue_URLLC s))
             (foldl (retire_failed (time s)) s
                (reverse (filter (expired (time s)) (send_queue_URLLC s)) ++
                 reverse (filter (expired (time s)) (send_queue_mMTC s)))))).
Proof.
  intros HwU HwM. set (t := time s).
  set (EU := reverse (filter (expired t) (send_queue_URLLC s))).
  set (EM := reverse (filter (expired t) (send_queue_mMTC s))).
  unfold __handle_expired_events, expire_queue.
  pose proof (expire_indices_prefix K_URLLC (send_queue_URLLC s) [] s
                (eq_sym (app_nil_r _)) HwU) as H1.
  change (time s) with t in H1. fold EU in H1. rewrite app_nil_r in H1.
  change (send_queue s K_URLLC) with (send_queue_URLLC s).
  change (time s) with t. rewrite H1. cbn [rbind].
  set (s1 := set_send_queue K_URLLC _ _).
  assert (Ht1 : time s1 = t).
  { unfold s1. rewrite time_set_send_queue.
    by destruct (retire_all_frame t s EU) as (-> & _). }
  assert (Hq1 : send_queue s1 K_mMTC = send_queue_mMTC s).
  { unfold s1. cbn. by destruct (retire_all_frame t s EU) as (_&_&_&_&_&_&_&->&_). }
  assert (HwM1 : Forall (wf_event s1) (send_queue_mMTC s)).
  { eapply Forall_impl; [exact HwM|]. intros e He. unfold s1.
    by apply set_send_queue_wf, retire_all_wf. }
  pose proof (expire_indices_prefix K_mMTC (send_queue_mMTC s) [] s1) as H2.
  rewrite app_nil_r in H2. specialize (H2 Hq1 HwM1).
  rewrite Ht1 in H2. fold EM in H2. rewrite app_nil_r in H2.
  rewrite Hq1, Ht1, H2. f_equal. unfold s1.
  rewrite retire_all_set_queue, foldl_app.
  by destruct (foldl (retire_failed t) (foldl (retire_failed t) s EU) EM).
Qed.

Lemma retire_all_stats_some t s E key :
  is_Some (stats s !! key) → is_Some (stats (foldl (retire_failed t) s E) !! key).
Proof.
  revert s. induction E as [|e E IH]; intros s H; [done|]. cbn [foldl]. apply IH.
  rewrite retire_failed_stats. destruct H as [v Hv].
  repeat case_decide; try (by eexists).
  - destruct (decide (key = "no_missed_urllc")) as [->|?].
    + rewrite lookup_alter_eq, Hv. by eexists.
    + rewrite lookup_alter_ne by done. by eexists.
  - destruct (decide (key = "no_missed_mmtc")) as [->|?].
    + rewrite lookup_alter_eq, Hv. by eexists.
    + rewrite lookup_alter_ne by done. by eexists.
Qed.

Lemma retire_all_keeps {X : Type} (f : Node → X) t s E :
  (∀ b nd, f (set_active b nd) = f nd) →
  map f (pool_URLLC (foldl (retire_failed t) s E)) = map f (pool_URLLC s)
  ∧ map f (pool_mMTC (foldl (retire_failed t) s E)) = map f (pool_mMTC s).
Proof.
  intros Hf. change (map f) with (fmap (M := list) f).
  split; apply list_eq; intros i; rewrite !list_lookup_fmap.
  - rewrite (retire_all_pool _URLLC_ARRIVAL pool_URLLC) by apply retire_failed_pool_URLLC.
    destruct (pool_URLLC s !! i); [|done]. cbn. case_decide; [by rewrite Hf|done].
  - rewrite (retire_all_pool _mMTC_ARRIVAL pool_mMTC) by apply retire_failed_pool_mMTC.
    destruct (pool_mMTC s !! i); [|done]. cbn. case_decide; [by rewrite Hf|done].
Qed.

(** ** A frame boundary as a whole *)

Lemma filter_split_perm (P : Event → Prop) `{∀ x, Decision (P x)} (l : list Event) :
  l ≡ₚ filter P l ++ filter (fun e => ¬ P e) l.
Proof.
  induction l as [|x l IH]; [done|]. rewrite !filter_cons.
  destruct (decide (P x)) as [HP|HP].
  - rewrite decide_False by tauto. cbn. by rewrite <- IH.
  - rewrite decide_True by done. rewrite <- Permutation_middle. by rewrite <- IH.
Qed.

Lemma map_length_eq {X : Type} (f : Node → X) (l l' : list Node) :
  map f l' = map f l → length l' = length l.
Proof. intros H. apply (f_equal length) in H. by rewrite !length_map in H. Qed.

(** What the expiry step leaves behind, in the form the allocation step
    needs it. *)
Lemma handle_expired_events_shape s :
  Forall (fun e => etype e = _URLLC_ARRIVAL ∧ (node_id e < length (pool_URLLC s))%nat)
         (send_queue_URLLC s) →
  Forall (fun e => etype e = _mMTC_ARRIVAL ∧ (node_id e < length (pool_mMTC s))%nat)
         (send_queue_mMTC s) →
  is_Some (stats s !! "no_missed_urllc") →
  is_Some (stats s !! "no_missed_mmtc") →
  ∃ s1, __handle_expired_events s = Ok s1
    ∧ send_queue_URLLC s1 = filter (fun e => ¬ expired (time s) e) (send_queue_URLLC s)
    ∧ send_queue_mMTC s1 = filter (fun e => ¬ expired (time s) e) (send_queue_mMTC s)
    ∧ trace s1 = trace s ++
        map (fun e => get_entry e (time s) false)
            (reverse (filter (expired (time s)) (send_queue_URLLC s)) ++
             reverse (filter (expired (time s)) (send_queue_mMTC s)))
    ∧ time s1 = time s ∧ event_heap s1 = event_heap s
    ∧ pilot_strategy s1 = pilot_strategy s ∧ frame_loops s1 = frame_loops s
    ∧ frame_length s1 = frame_length s ∧ no_pilots s1 = no_pilots s
    ∧ simulation_length s1 = simulation_length s
    ∧ (∀ key, is_Some (stats s !! key) → is_Some (stats s1 !! key))
    ∧ (∀ (X : Type) (f : Node → X), (∀ b nd, f (set_active b nd) = f nd) →
         map f (pool_URLLC s1) = map f (pool_URLLC s)
         ∧ map f (pool_mMTC s1) = map f (pool_mMTC s)).
Proof.
  intros HU HM HsU HsM.
  assert (HwU : Forall (wf_event s) (send_queue_URLLC s)).
  { eapply Forall_impl; [exact HU|]. intros e [Ht Hn]. split; intros Ht'; [done|].
    exfalso. rewrite Ht in Ht'. done. }
  assert (HwM : Forall (wf_event s) (send_queue_mMTC s)).
  { eapply Forall_impl; [exact HM|]. intros e [Ht Hn]. split; intros Ht'; [|done].
    exfalso. rewrite Ht in Ht'. done. }
  eexists. split; [by apply handle_expired_events_run|].
  set (E := _ ++ _).
  destruct (retire_all_frame (time s) s E) as (F1&F2&F3&F4&F5&F6&F7&F8&F9&F10&F11).
  cbn. split; [done|]. split; [done|]. split.
  { apply retire_all_trace. unfold E. apply Forall_app. split; rewrite Forall_reverse.
    - apply Forall_forall. intros e He. apply list_elem_of_filter in He as [_ He].
      left. by destruct (proj1 (Forall_forall _ _) HU e He).
    - apply Forall_forall. intros e He. apply list_elem_of_filter in He as [_ He].
      right. by destruct (proj1 (Forall_forall _ _) HM e He). }
  repeat (split; [done|]). split.
  - intros key. apply retire_all_stats_some.
  - intros X f Hf. by apply retire_all_keeps.
Qed.

(** X3. At a frame boundary every queued request is accounted for exactly
    once.  For a configured strategy, queues that hold arrivals of their
    class from existing nodes and existing missed counters,
    [__handle_departure] succeeds; of the requests queued before, the
    expired ones are reported as failed, some of the others are reported
    as served and the rest are still queued; the trace grows by exactly
    these reports; nothing that has expired is served or left in a queue;
    and the heap gains the next frame boundary, one frame length ahead. *)
Theorem handle_departure_accounts (event : Event) (s : Simulation) :
  pilot_strategy s ∈ recognized →
  frame_loops s ≠ 0 →
  Forall (fun e => etype e = _URLLC_ARRIVAL ∧ (node_id e < length (pool_URLLC s))%nat)
         (send_queue_URLLC s) →
  Forall (fun e => etype e = _mMTC_ARRIVAL ∧ (node_id e < length (pool_mMTC s))%nat)
         (send_queue_mMTC s) →
  is_Some (stats s !! "no_missed_urllc") →
  is_Some (stats s !! "no_missed_mmtc") →
  ∃ s' goneA goneB svA svB new,
    __handle_departure event s = Ok s'
    ∧ send_queue_URLLC s ≡ₚ goneA ++ svA ++ send_queue_URLLC s'
    ∧ send_queue_mMTC s ≡ₚ goneB ++ svB ++ send_queue_mMTC s'
    ∧ trace s' = trace s ++ new
    ∧ new ≡ₚ map (fun e => get_entry e (time s) false) (goneA ++ goneB)
             ++ map (fun e => get_entry e (time s) true) (svA ++ svB)
    ∧ Forall (expired (time s)) (goneA ++ goneB)
    ∧ Forall (fun e => ¬ expired (time s) e)
             (svA ++ svB ++ send_queue_URLLC s' ++ send_queue_mMTC s')
    ∧ event_heap s' = event_heap s ++ [departure_event (time s + frame_length s)]
    ∧ time s' = time s.
Proof.
  intros Hname HL HU HM HsU HsM.
  destruct (handle_expired_events_shape s HU HM HsU HsM)
    as (s1 & Hexp & HqU1 & HqM1 & Htr1 & Ht1 & Hh1 & Hst1 & Hl1 & Hfl1 & _ & _ & _ & Hpools).
  destruct (Hpools _ profile ltac:(intros; reflexivity)) as [HpU HpM].
  apply map_length_eq in HpU, HpM.
  destruct (assign_pilots_pass_ok s1) as (s2 & Hrun & (svA & svB & Hcons) & Hset).
  { by rewrite Hst1. }
  { by rewrite Hl1. }
  { rewrite HqU1, HpU. apply Forall_forall. intros e He.
    apply list_elem_of_filter in He as [_ He].
    by destruct (proj1 (Forall_forall _ _) HU e He). }
  { rewrite HqM1, HpM. apply Forall_forall. intros e He.
    apply list_elem_of_filter in He as [_ He].
    by destruct (proj1 (Forall_forall _ _) HM e He). }
  destruct Hcons as (HcU & HcM & new2 & Htr2 & Hnew2).
  destruct Hset as (S1&S2&S3&S4&S5&S6&S7&S8&S9&S10&S11).
  set (goneA := filter (expired (time s)) (send_queue_URLLC s)).
  set (goneB := filter (expired (time s)) (send_queue_mMTC s)).
  exists (set_event_heap
            (EventHeap.push (departure_event (time s2 + frame_length s2)) (event_heap s2)) s2),
         goneA, goneB, svA, svB,
         (map (fun e => get_entry e (time s) false) (reverse goneA ++ reverse goneB) ++ new2).
  split; [unfold __handle_departure; by rewrite Hexp; cbn [rbind]; rewrite Hrun|].
  cbn. split; [|split; [|split; [|split; [|split; [|split; [|split]]]]]].
  - rewrite <- HcU, HqU1. apply filter_split_perm.
  - rewrite <- HcM, HqM1. apply filter_split_perm.
  - by rewrite Htr2, Htr1, <- app_assoc.
  - rewrite Hnew2, Ht1. apply Permutation_app; [|done].
    apply fmap_Permutation. by rewrite !reverse_Permutation.
  - apply Forall_app. split; apply Forall_forall; intros e He;
      by apply list_elem_of_filter in He as [? _].
  - assert (HlU : Forall (fun e => ¬ expired (time s) e) (svA ++ send_queue_URLLC s2)).
    { rewrite <- HcU, HqU1. apply Forall_forall. intros e He.
      by apply list_elem_of_filter in He as [? _]. }
    assert (HlM : Forall (fun e => ¬ expired (time s) e) (svB ++ send_queue_mMTC s2)).
    { rewrite <- HcM, HqM1. apply Forall_forall. intros e He.
      by apply list_elem_of_filter in He as [? _]. }
    apply Forall_app in HlU as [? ?]. apply Forall_app in HlM as [? ?].
    repeat (apply Forall_app; split); done.
  - unfold EventHeap.push. by rewrite S7, Hh1, S2, Ht1, S5, Hfl1.
  - by rewrite S2.
Qed.

(** ** One turn of the run loop *)

Lemma filter_departure_perm (h h' : list Event) :
  h ≡ₚ h' → length (filter is_departure h) = length (filter is_departure h').
Proof. intros H. by rewrite H. Qed.

Lemma engine_counters_some (d : gmap string Z) :
  Forall (fun key => is_Some (d !! key)) engine_counters →
  is_Some (d !! "no_urllc_arrivals") ∧ is_Some (d !! "no_mmtc_arrivals")
  ∧ is_Some (d !! "no_missed_urllc") ∧ is_Some (d !! "no_missed_mmtc").
Proof.
  unfold engine_counters. intros H.
  apply Forall_cons in H as [H1 H]. apply Forall_cons in H as [H2 H].
  apply Forall_cons in H as [H3 H]. apply Forall_cons in H as [H4 _]. done.
Qed.

Lemma delay_source_of_generators (l l' : list Node) :
  map event_generator l' = map event_generator l → map delay_source l' = map delay_source l.
Proof.
  intros H.
  assert (Hc : ∀ k : list Node,
            map delay_source k
            = map (fun g => (init_delay g, next_delay g)) (map event_generator k)).
  { intros k. by rewrite map_map. }
  by rewrite !Hc, H.
Qed.

(** The common content of one turn of the loop of [run] from a state that
    is set up properly. *)
Lemma run_step_shape (s : Simulation) :
  engine_ok s →
  ∃ ev rest s' new more,
    EventHeap.pop (event_heap s) = Ok (ev, rest)
    ∧ run_step s = Ok s'
    ∧ engine_ok s'
    ∧ time s' = etime ev
    ∧ event_heap s' = rest ++ [new]
    ∧ trace s' = trace s ++ more
    ∧ frame_length s' = frame_length s ∧ simulation_length s' = simulation_length s
    ∧ no_pilots s' = no_pilots s ∧ pilot_strategy s' = pilot_strategy s
    ∧ map delay_source (pool_URLLC s') = map delay_source (pool_URLLC s)
    ∧ map delay_source (pool_mMTC s') = map delay_source (pool_mMTC s)
    ∧ map profile (pool_URLLC s') = map profile (pool_URLLC s)
    ∧ map profile (pool_mMTC s') = map profile (pool_mMTC s)
    ∧ ((is_departure ev ∧ new = departure_event (etime ev + frame_length s))
       ∨ (¬ is_departure ev
          ∧ ∃ nd k, (nd ∈ pool_URLLC s ∨ nd ∈ pool_mMTC s)
                  ∧ etype new = etype ev ∧ node_id new = node_id ev
                  ∧ etime new = etime ev + next_delay (event_generator nd) k
                  ∧ dead_time new = etime new + deadline nd)).
Proof.
  intros [Hname HL Hstats Hheap Hdep HqU HqM].
  destruct (engine_counters_some _ Hstats) as (HcU & HcM & HmU & HmM).
  assert (Hne : ∃ d, d ∈ event_heap s).
  { destruct (event_heap s) as [|d h]; [done|]. exists d. by left. }
  destruct Hne as [d Hd]. destruct (pop_nonempty _ _ Hd) as (ev & rest & Hpop).
  destruct (pop_spec _ _ _ Hpop) as [Hperm Hmin].
  assert (Hev : ev ∈ event_heap s) by (rewrite Hperm; by left).
  assert (Hrest : ∀ e, e ∈ rest → e ∈ event_heap s) by (intros e He; rewrite Hperm; by right).
  pose proof (proj1 (Forall_forall _ _) Hheap ev Hev) as Hkind.
  assert (Hcount : length (filter is_departure (ev :: rest)) = 1%nat).
  { rewrite <- (filter_departure_perm _ _ Hperm). exact Hdep. }
  rewrite filter_cons in Hcount.
  exists ev, rest. unfold run_step. rewrite Hpop. cbn [rbind fst snd].
  set (s1 := set_time (etime ev) (set_event_heap rest s)).
  unfold __handle_event.
  destruct Hkind as [Hkind|[[Ht Hn]|[Ht Hn]]].
  - (* a frame boundary *)
    rewrite decide_True in Hcount by done. cbn [length] in Hcount.
    unfold is_departure in Hkind.
    rewrite decide_False by (rewrite Hkind; done).
    rewrite decide_False by (rewrite Hkind; done).
    rewrite decide_True by done. unfold __handle_departure.
    destruct (handle_expired_events_shape s1 HqU HqM HmU HmM)
      as (s2 & Hexp & HqU2 & HqM2 & Htr2 & Ht2 & Hh2 & Hst2 & Hl2 & Hfl2 & Hnp2 & Hsl2
          & Hkeys2 & Hpools2).
    destruct (Hpools2 _ profile ltac:(intros; reflexivity)) as [HpU2 HpM2].
    destruct (Hpools2 _ delay_source ltac:(intros; reflexivity)) as [HdU2 HdM2].
    pose proof (map_length_eq _ _ _ HpU2) as HlU2.
    pose proof (map_length_eq _ _ _ HpM2) as HlM2.
    assert (HqU2' : Forall (fun e => etype e = _URLLC_ARRIVAL
                             ∧ (node_id e < length (pool_URLLC s2))%nat) (send_queue_URLLC s2)).
    { rewrite HqU2, HlU2. apply Forall_forall. intros e He.
      apply list_elem_of_filter in He as [_ He]. by apply (proj1 (Forall_forall _ _) HqU). }
    assert (HqM2' : Forall (fun e => etype e = _mMTC_ARRIVAL
                             ∧ (node_id e < length (pool_mMTC s2))%nat) (send_queue_mMTC s2)).
    { rewrite HqM2, HlM2. apply Forall_forall. intros e He.
      apply list_elem_of_filter in He as [_ He]. by apply (proj1 (Forall_forall _ _) HqM). }
    destruct (assign_pilots_pass_ok s2) as (s3 & Hrun & (svA & svB & HcA & HcB & new3 & Htr3 & _) & Hset).
    { by rewrite Hst2. }
    { by rewrite Hl2. }
    { eapply Forall_impl; [exact HqU2'|]. by intros e [_ ?]. }
    { eapply Forall_impl; [exact HqM2'|]. by intros e [_ ?]. }
    destruct Hset as (S1&S2&S3&S4&S5&S6&S7&S8&S9&S10&S11).
    pose proof (map_length_eq _ _ _ S10) as HlU3.
    rewrite Hexp. cbn [rbind]. rewrite Hrun. cbn [rbind].
    eexists _, (departure_event (etime ev + frame_length s)), _.
    split; [done|]. split; [reflexivity|].
    split; [|cbn; split; [by rewrite S2, Ht2|]; split;
             [unfold EventHeap.push; by rewrite S7, Hh2, S2, Ht2, S5, Hfl2|];
             split; [by rewrite Htr3, Htr2, <- app_assoc|]].
    + constructor; cbn -[filter].
      * by rewrite S6, Hst2.
      * by rewrite S8, Hl2.
      * rewrite S1. eapply Forall_impl; [exact Hstats|]. intros key. apply Hkeys2.
      * unfold EventHeap.push. rewrite S7, Hh2. cbn. apply Forall_app. split.
        -- apply Forall_forall. intros e He.
           destruct (proj1 (Forall_forall _ _) Hheap e (Hrest e He)) as [?|Hwf]; [by left|].
           right. unfold wf_arrival in *. cbn. by rewrite HlU3, HlU2, S9, HlM2.
        -- apply Forall_singleton. by left.
      * unfold EventHeap.push. rewrite S7, Hh2. cbn -[filter].
        rewrite filter_app, length_app.
        change (length (filter is_departure [departure_event (time s3 + frame_length s3)]))
          with 1%nat. lia.
      * rewrite HlU3. apply Forall_forall. intros e He.
        apply (proj1 (Forall_forall _ _) HqU2'). rewrite HcA. apply elem_of_app. by right.
      * rewrite S9. apply Forall_forall. intros e He.
        apply (proj1 (Forall_forall _ _) HqM2'). rewrite HcB. apply elem_of_app. by right.
    + split; [by rewrite S5, Hfl2|]. split; [by rewrite S4, Hsl2|].
      split; [by rewrite S3, Hnp2|]. split; [by rewrite S6, Hst2|].
      split; [by rewrite (delay_source_of_generators _ _ S11), HdU2|].
      split; [by rewrite S9, HdM2|]. split; [by rewrite S10, HpU2|].
      split; [by rewrite S9, HpM2|]. left. by split.
  - (* an arrival of class A *)
    rewrite decide_False in Hcount by (unfold is_departure; rewrite Ht; done).
    rewrite decide_True by done.
    destruct (lookup_lt_is_Some_2 _ _ Hn) as [nd Hnd]. destruct HcU as [v Hv].
    rewrite (handle_urllc_arrival_run ev s1 nd v Hnd Hv).
    eexists _, _, []. split; [done|]. split; [reflexivity|].
    split; [|cbn; rewrite app_nil_r; repeat (split; [done|])].
    + constructor; cbn -[filter]; try done.
      * eapply Forall_impl; [exact Hstats|]. intros key [w Hw].
        destruct (decide (key = "no_urllc_arrivals")) as [->|?].
        -- rewrite lookup_insert_eq. by eexists.
        -- rewrite lookup_insert_ne by done. by eexists.
      * unfold EventHeap.push. apply Forall_app. split.
        -- apply Forall_forall. intros e He.
           destruct (proj1 (Forall_forall _ _) Hheap e (Hrest e He)) as [?|Hwf]; [by left|].
           right. unfold wf_arrival in *. cbn. by rewrite length_insert.
        -- apply Forall_singleton. right. left. cbn. by rewrite length_insert.
      * unfold EventHeap.push. rewrite filter_app, length_app.
        match goal with |- context [filter is_departure [?e]] =>
          change (length (filter is_departure [e])) with 0%nat end. lia.
      * rewrite length_insert. constructor; [done|exact HqU].
    + split; [eapply map_insert_same; [exact Hnd|done]|]. split; [done|].
      split; [eapply map_insert_same; [exact Hnd|done]|]. split; [done|].
      right. split; [unfold is_departure; by rewrite Ht|].
      exists nd, (drawn (event_generator nd)).
      split; [left; apply list_elem_of_lookup; by exists (node_id ev)|]. by rewrite Ht.
  - (* an arrival of class B *)
    rewrite decide_False in Hcount by (unfold is_departure; rewrite Ht; done).
    rewrite decide_False by (rewrite Ht; done). rewrite decide_True by done.
    destruct (lookup_lt_is_Some_2 _ _ Hn) as [nd Hnd]. destruct HcM as [v Hv].
    rewrite (handle_mmtc_arrival_run ev s1 nd v Hnd Hv).
    eexists _, _, []. split; [done|]. split; [reflexivity|].
    split; [|cbn; rewrite app_nil_r; repeat (split; [done|])].
    + constructor; cbn -[filter]; try done.
      * eapply Forall_impl; [exact Hstats|]. intros key [w Hw].
        destruct (decide (key = "no_mmtc_arrivals")) as [->|?].
        -- rewrite lookup_insert_eq. by eexists.
        -- rewrite lookup_insert_ne by done. by eexists.
      * unfold EventHeap.push. apply Forall_app. split.
        -- apply Forall_forall. intros e He.
           destruct (proj1 (Forall_forall _ _) Hheap e (Hrest e He)) as [?|Hwf]; [by left|].
           right. unfold wf_arrival in *. cbn. by rewrite length_insert.
        -- apply Forall_singleton. right. right. cbn. by rewrite length_insert.
      * unfold EventHeap.push. rewrite filter_app, length_app.
        match goal with |- context [filter is_departure [?e]] =>
          change (length (filter is_departure [e])) with 0%nat end. lia.
      * rewrite length_insert. constructor; [done|exact HqM].
    + split; [eapply map_insert_same; [exact Hnd|done]|].
      split; [done|]. split; [eapply map_insert_same; [exact Hnd|done]|].
      right. split; [unfold is_departure; by rewrite Ht|].
      exists nd, (drawn (event_generator nd)).
      split; [right; apply list_elem_of_lookup; by exists (node_id ev)|]. by rewrite Ht.
Qed.

(** ** The run loop *)

Lemma run_shape (n : nat) :
  ∀ s, engine_ok s →
    ∃ s' more, run n s = Ok s' ∧ engine_ok s'
      ∧ trace s' = trace s ++ more
      ∧ map profile (pool_URLLC s') = map profile (pool_URLLC s)
      ∧ map profile (pool_mMTC s') = map profile (pool_mMTC s)
      ∧ pilot_strategy s' = pilot_strategy s ∧ no_pilots s' = no_pilots s
      ∧ frame_length s' = frame_length s ∧ simulation_length s' = simulation_length s.
Proof.
  induction n as [|n IH]; intros s Hok; cbn [run].
  - exists s, []. rewrite app_nil_r. by do 8 (split; [done|]).
  - case_decide; [|exists s, []; rewrite app_nil_r; by do 8 (split; [done|])].
    destruct (run_step_shape s Hok)
      as (ev & rest & s1 & new & more1 & _ & Hstep & Hok1 & _ & _ & Htr1 & Hfl & Hsl & Hnp
          & Hst & _ & _ & HpU & HpM & _).
    rewrite Hstep. cbn [rbind].
    destruct (IH s1 Hok1) as (s' & more & Hrun & Hok' & Htr & HpU' & HpM' & Hst' & Hnp' & Hfl' & Hsl').
    exists s', (more1 ++ more). split; [done|]. split; [done|].
    split; [by rewrite Htr, Htr1, <- app_assoc|].
    repeat split; congruence.
Qed.

(** X4. A run that starts from a state that is set up properly never raises:
    after any number of turns of the loop of [run] the state is again set
    up properly (among other things, exactly one frame-boundary event is in
    the heap), the trace has only been extended, and the costs and
    deadlines of the nodes, the strategy and the configuration values are
    what they were. *)
Theorem run_never_raises (n : nat) (s : Simulation) :
  engine_ok s →
  ∃ s' more, run n s = Ok s' ∧ engine_ok s'
    ∧ trace s' = trace s ++ more
    ∧ map profile (pool_URLLC s') = map profile (pool_URLLC s)
    ∧ map profile (pool_mMTC s') = map profile (pool_mMTC s)
    ∧ pilot_strategy s' = pilot_strategy s ∧ no_pilots s' = no_pilots s
    ∧ frame_length s' = frame_length s ∧ simulation_length s' = simulation_length s.
Proof. apply run_shape. Qed.

Lemma delays_nonneg_source (l l' : list Node) :
  map delay_source l' = map delay_source l → delays_nonneg l → delays_nonneg l'.
Proof.
  intros Hmap H. unfold delays_nonneg in *.
  assert (Hc : ∀ k : list Node,
            Forall (fun n => 0 <= init_delay (event_generator n)
                             ∧ ∀ j, 0 <= next_delay (event_generator n) j) k
            ↔ Forall (fun d : Z * (nat → Z) => 0 <= fst d ∧ ∀ j, 0 <= snd d j)
                     (map delay_source k)).
  { intros k. change (map delay_source k) with (delay_source <$> k).
    by rewrite Forall_fmap. }
  apply Hc. rewrite Hmap. by apply Hc.
Qed.

Lemma run_step_clock (s : Simulation) :
  engine_ok s → clock_ok s →
  ∃ s', run_step s = Ok s' ∧ engine_ok s' ∧ clock_ok s' ∧ time s <= time s'.
Proof.
  intros Hok (Hfl & Hdue & Hnext & HdU & HdM).
  destruct (run_step_shape s Hok)
    as (ev & rest & s' & new & more & Hpop & Hstep & Hok' & Ht' & Hh' & _ & Hfl' & _ & _ & _
        & HsU & HsM & _ & _ & Hnew).
  destruct (pop_spec _ _ _ Hpop) as [Hperm Hmin].
  assert (Hev : ev ∈ event_heap s) by (rewrite Hperm; by left).
  assert (Hnow : time s <= etime ev) by (by apply (proj1 (Forall_forall _ _) Hdue)).
  exists s'. split; [done|]. split; [done|]. split; [|by rewrite Ht'].
  assert (Hnew_due : etime ev <= etime new).
  { destruct Hnew as [[_ ->]|(_ & nd & k & Hnd & _ & _ & -> & _)]; [cbn; lia|].
    cut (0 <= next_delay (event_generator nd) k); [lia|].
    destruct Hnd as [Hnd|Hnd];
      [apply (proj1 (Forall_forall _ _) HdU nd Hnd) | apply (proj1 (Forall_forall _ _) HdM nd Hnd)]. }
  split; [by rewrite Hfl'|]. rewrite Hh', Ht', Hfl'. split; [|split; [|split]].
  - apply Forall_app. split; [|by apply Forall_singleton].
    apply Forall_forall. intros e He. apply Hmin. rewrite Hperm. by right.
  - apply Forall_app. split.
    + apply Forall_forall. intros e He Hd.
      assert (e ∈ event_heap s) as Hin by (rewrite Hperm; by right).
      pose proof (proj1 (Forall_forall _ _) Hnext e Hin Hd). lia.
    + apply Forall_singleton. intros Hd.
      destruct Hnew as [[_ ->]|(Hnd & nd & k & _ & Hty & _)]; [cbn; lia|].
      exfalso. apply Hnd. unfold is_departure in *. by rewrite <- Hty.
  - by apply (delays_nonneg_source _ _ HsU).
  - by apply (delays_nonneg_source _ _ HsM).
Qed.

Lemma run_clock (n : nat) :
  ∀ s, engine_ok s → clock_ok s →
    ∃ s', run n s = Ok s' ∧ engine_ok s' ∧ clock_ok s' ∧ time s <= time s'.
Proof.
  induction n as [|n IH]; intros s Hok Hclock; cbn [run].
  - exists s. repeat (split; [done|]). lia.
  - case_decide; [|exists s; repeat (split; [done|]); lia].
    destruct (run_step_clock s Hok Hclock) as (s1 & Hstep & Hok1 & Hclock1 & Hle1).
    rewrite Hstep. cbn [rbind].
    destruct (IH s1 Hok1 Hclock1) as (s' & Hrun & Hok' & Hclock' & Hle).
    exists s'. repeat (split; [done|]). lia.
Qed.

(** X5. The clock never goes back.  From a state that is set up properly, where
    every event in the heap is due now or later, the frame boundary is due
    within one frame length and no node draws a negative delay, any number
    of turns of the loop of [run] ends in a state where the time is not
    smaller and where all this holds again. *)
Theorem clock_never_goes_back (n : nat) (s : Simulation) :
  engine_ok s → clock_ok s →
  ∃ s', run n s = Ok s' ∧ time s <= time s' ∧ clock_ok s'.
Proof.
  intros Hok Hclock.
  destruct (run_clock n s Hok Hclock) as (s' & Hrun & _ & Hclock' & Hle).
  by exists s'.
Qed.

(** ** Construction *)

Lemma initialize_nodes_from_spec (slice_type : Z) (nodes : list Node) :
  ∀ (ind : nat) (s : Simulation) (v : Z),
    stats s !! arrivals_key slice_type = Some v →
    initialize_nodes_from slice_type nodes ind s =
      Ok (set_event_heap (event_heap s ++ first_arrivals slice_type (time s) nodes ind v)
            (set_stats (<[arrivals_key slice_type := v + Z.of_nat (length nodes)]> (stats s)) s)).
Proof.
  induction nodes as [|n rest IH]; intros ind s v Hv.
  - cbn [initialize_nodes_from first_arrivals length]. f_equal.
    rewrite app_nil_r, Z.add_0_r, insert_id by done. by destruct s.
  - cbn [initialize_nodes_from first_arrivals length].
    fold (arrivals_key slice_type). unfold Stats.incr. rewrite Hv. cbn [of_option rbind].
    rewrite lookup_insert_eq. cbn [of_option rbind].
    rewrite (IH _ _ (v + 1)) by (cbn; by rewrite lookup_insert_eq).
    f_equal. unfold get_init, EventHeap.push. destruct s; cbn.
    rewrite insert_insert_eq, <- app_assoc. cbn.
    by replace (v + 1 + Z.of_nat (length rest)) with (v + Z.pos (Pos.of_succ_nat (length rest))) by lia.
Qed.

Lemma init_run (config : Config) (st : gmap string Z) (tr : list Entry)
    (urllc mmtc : list Node) (scheduler : option string) (node0 : Node) (k vU vM : Z) :
  urllc !! 0%nat = Some node0 →
  cfg_frame_length config ≠ 0 →
  deadline node0 = k * cfg_frame_length config →
  st !! "no_urllc_arrivals" = Some vU →
  st !! "no_mmtc_arrivals" = Some vM →
  init config st tr urllc mmtc scheduler =
    Ok (mkSim
          (<["no_mmtc_arrivals" := vM + Z.of_nat (length mmtc)]>
             (<["no_urllc_arrivals" := vU + Z.of_nat (length urllc)]> st))
          tr 0 (cfg_no_pilots config) (cfg_simulation_length config)
          (cfg_frame_length config) (chosen_strategy config scheduler)
          (first_arrivals _URLLC 0 urllc 0 vU ++ first_arrivals _mMTC 0 mmtc 0 vM
             ++ [departure_event (cfg_frame_length config)])
          [] [] urllc mmtc 0 k 0).
Proof.
  intros Hn0 Hfl Hk HvU HvM. unfold init.
  unfold get_node. rewrite Hn0. cbn [of_option rbind].
  unfold true_div. rewrite decide_False by done.
  rewrite decide_True by (rewrite Hk; by apply Z_mod_mult).
  rewrite Hk, Z.div_mul by done. cbn [rbind].
  unfold __initialize_nodes.
  rewrite (initialize_nodes_from_spec _URLLC urllc 0 _ vU) by exact HvU.
  cbn [rbind].
  rewrite (initialize_nodes_from_spec _mMTC mmtc 0 _ vM)
    by (cbn; rewrite lookup_insert_ne by done; exact HvM).
  cbn [rbind]. f_equal. unfold EventHeap.push, EventHeap.empty, chosen_strategy. cbn.
  destruct scheduler; cbn; by rewrite <- app_assoc.
Qed.

Lemma first_arrivals_spec (slice_type t : Z) (nodes : list Node) :
  ∀ (ind : nat) (cnt : Z) (e : Event),
    e ∈ first_arrivals slice_type t nodes ind cnt →
    etype e = slice_type + 3
    ∧ (ind <= node_id e < ind + length nodes)%nat
    ∧ ∃ nd, nd ∈ nodes ∧ etime e = t + init_delay (event_generator nd)
            ∧ dead_time e = etime e + deadline nd.
Proof.
  induction nodes as [|n rest IH]; intros ind cnt e He; cbn [first_arrivals] in He.
  - by apply elem_of_nil in He.
  - apply elem_of_cons in He as [->|He].
    + cbn. split; [done|]. split; [lia|]. exists n. split; [by left|done].
    + destruct (IH _ _ _ He) as (Hty & Hid & nd & Hnd & Htime).
      split; [done|]. split; [cbn [length]; lia|]. exists nd. split; [by right|done].
Qed.

Lemma filter_none {A : Type} (P : A → Prop) `{∀ x, Decision (P x)} (l : list A) :
  Forall (fun x => ¬ P x) l → filter P l = [].
Proof.
  induction 1 as [|x l Hx _ IH]; [done|]. by rewrite filter_cons, decide_False, IH.
Qed.

Lemma init_engine_ok (config : Config) (st : gmap string Z) (tr : list Entry)
    (urllc mmtc : list Node) (scheduler : option string) (node0 : Node) (k : Z) :
  urllc !! 0%nat = Some node0 →
  cfg_frame_length config ≠ 0 →
  deadline node0 = k * cfg_frame_length config → k ≠ 0 →
  chosen_strategy config scheduler ∈ recognized →
  Forall (fun key => is_Some (st !! key)) engine_counters →
  ∃ s, init config st tr urllc mmtc scheduler = Ok s
    ∧ engine_ok s
    ∧ time s = 0 ∧ frame_length s = cfg_frame_length config ∧ frame_loops s = k
    ∧ pool_URLLC s = urllc ∧ pool_mMTC s = mmtc
    ∧ (0 <= cfg_frame_length config → delays_nonneg urllc → delays_nonneg mmtc → clock_ok s).
Proof.
  intros Hn0 Hfl Hk Hk0 Hst Hkeys.
  pose proof (engine_counters_some _ Hkeys) as ([vU HvU] & [vM HvM] & HmU & HmM).
  rewrite (init_run config st tr urllc mmtc scheduler node0 k vU vM Hn0 Hfl Hk HvU HvM).
  eexists. split; [reflexivity|].
  assert (HU : ∀ e, e ∈ first_arrivals _URLLC 0 urllc 0 vU →
            etype e = _URLLC_ARRIVAL ∧ (node_id e < length urllc)%nat
            ∧ ∃ nd, nd ∈ urllc ∧ etime e = 0 + init_delay (event_generator nd)
                    ∧ dead_time e = etime e + deadline nd).
  { intros e He. destruct (first_arrivals_spec _ _ _ _ _ _ He) as (? & ? & ?).
    split; [done|]. split; [lia|done]. }
  assert (HM : ∀ e, e ∈ first_arrivals _mMTC 0 mmtc 0 vM →
            etype e = _mMTC_ARRIVAL ∧ (node_id e < length mmtc)%nat
            ∧ ∃ nd, nd ∈ mmtc ∧ etime e = 0 + init_delay (event_generator nd)
                    ∧ dead_time e = etime e + deadline nd).
  { intros e He. destruct (first_arrivals_spec _ _ _ _ _ _ He) as (? & ? & ?).
    split; [done|]. split; [lia|done]. }
  split; [|cbn; split; [done|]; split; [done|]; split;
           [done|]; split; [done|]; split; [done|]].
  - constructor; cbn -[filter].
    + done.
    + done.
    + eapply Forall_impl; [exact Hkeys|]. intros key [w Hw].
      destruct (decide (key = "no_mmtc_arrivals")) as [->|?];
        [rewrite lookup_insert_eq; by eexists|rewrite lookup_insert_ne by done].
      destruct (decide (key = "no_urllc_arrivals")) as [->|?];
        [rewrite lookup_insert_eq; by eexists|rewrite lookup_insert_ne by done].
      by eexists.
    + apply Forall_app. split; [|apply Forall_app; split].
      * apply Forall_forall. intros e He. right. left. cbn.
        destruct (HU e He) as (? & ? & _). done.
      * apply Forall_forall. intros e He. right. right. cbn.
        destruct (HM e He) as (? & ? & _). done.
      * apply Forall_singleton. by left.
    + rewrite !filter_app, !length_app.
      rewrite (filter_none is_departure (first_arrivals _URLLC 0 urllc 0 vU)).
      2:{ apply Forall_forall. intros e He. destruct (HU e He) as (Ht & _).
          unfold is_departure. by rewrite Ht. }
      rewrite (filter_none is_departure (first_arrivals _mMTC 0 mmtc 0 vM)).
      2:{ apply Forall_forall. intros e He. destruct (HM e He) as (Ht & _).
          unfold is_departure. by rewrite Ht. }
      done.
    + constructor.
    + constructor.
  - intros Hfl0 HdU HdM. split; [done|]. cbn. split; [|split; [|done]].
    + apply Forall_app. split; [|apply Forall_app; split].
      * apply Forall_forall. intros e He. destruct (HU e He) as (_ & _ & nd & Hnd & -> & _).
        pose proof (proj1 (Forall_forall _ _) HdU nd Hnd) as [? _]. lia.
      * apply Forall_forall. intros e He. destruct (HM e He) as (_ & _ & nd & Hnd & -> & _).
        pose proof (proj1 (Forall_forall _ _) HdM nd Hnd) as [? _]. lia.
      * apply Forall_singleton. cbn. lia.
    + apply Forall_app. split; [|apply Forall_app; split].
      * apply Forall_forall. intros e He Hd. destruct (HU e He) as (Ht & _).
        unfold is_departure in Hd. by rewrite Ht in Hd.
      * apply Forall_forall. intros e He Hd. destruct (HM e He) as (Ht & _).
        unfold is_departure in Hd. by rewrite Ht in Hd.
      * apply Forall_singleton. cbn. lia.
Qed.

(** X6. [Simulation.__init__] in full, for a class-A pool that is not
    empty, a frame length that is not 0, a deadline of class-A node 0 that
    is [k] frame lengths for an integer [k], and a statistics dictionary
    that has the two arrival counters, on first delays, deadlines and a
    frame length that floating point holds exactly: the clock is at 0, the
    queues are empty, [frame_loops] is [k], the two arrival counters have
    advanced by the sizes of the pools, and the heap holds one first
    arrival per node, class A before class B and in the order of the
    pools, followed by the first frame boundary at one frame length. *)
Theorem init_spec (config : Config) (st : gmap string Z) (tr : list Entry)
    (urllc mmtc : list Node) (scheduler : option string) (node0 : Node) (k vU vM : Z) :
  urllc !! 0%nat = Some node0 →
  cfg_frame_length config ≠ 0 →
  deadline node0 = k * cfg_frame_length config →
  Z.abs (cfg_frame_length config) <= exact_bound →
  times_exact urllc → times_exact mmtc →
  st !! "no_urllc_arrivals" = Some vU →
  st !! "no_mmtc_arrivals" = Some vM →
  init config st tr urllc mmtc scheduler =
    Ok (mkSim
          (<["no_mmtc_arrivals" := vM + Z.of_nat (length mmtc)]>
             (<["no_urllc_arrivals" := vU + Z.of_nat (length urllc)]> st))
          tr 0 (cfg_no_pilots config) (cfg_simulation_length config)
          (cfg_frame_length config) (chosen_strategy config scheduler)
          (first_arrivals _URLLC 0 urllc 0 vU ++ first_arrivals _mMTC 0 mmtc 0 vM
             ++ [departure_event (cfg_frame_length config)])
          [] [] urllc mmtc 0 k 0).
Proof.
  intros Hn0 Hfl Hk _ _ _ HvU HvM.
  by apply (init_run config st tr urllc mmtc scheduler node0 k vU vM).
Qed.


Lemma assign_pilots_conserves_scenario_A :
  ∃ s' svA svB,
    __assign_pilots scenario_A = Ok s'
    ∧ pass_conserves scenario_A s' svA svB ∧ same_setup scenario_A s'.
Proof.
  apply (assign_pilots_conserves scenario_A).
  - by left.
  - done.
  - repeat constructor.
  - repeat constructor.
Defined.

Lemma handle_departure_accounts_scenario_C :
  ∃ s' goneA goneB svA svB new,
    __handle_departure (departure_event 6) scenario_C = Ok s'
    ∧ send_queue_URLLC scenario_C ≡ₚ goneA ++ svA ++ send_queue_URLLC s'
    ∧ send_queue_mMTC scenario_C ≡ₚ goneB ++ svB ++ send_queue_mMTC s'
    ∧ trace s' = trace scenario_C ++ new
    ∧ new ≡ₚ map (fun e => get_entry e (time scenario_C) false) (goneA ++ goneB)
             ++ map (fun e => get_entry e (time scenario_C) true) (svA ++ svB)
    ∧ Forall (expired (time scenario_C)) (goneA ++ goneB)
    ∧ Forall (fun e => ¬ expired (time scenario_C) e)
             (svA ++ svB ++ send_queue_URLLC s' ++ send_queue_mMTC s')
    ∧ event_heap s' = event_heap scenario_C
                      ++ [departure_event (time scenario_C + frame_length scenario_C)]
    ∧ time s' = time scenario_C.
Proof.
  apply (handle_departure_accounts (departure_event 6) scenario_C).
  - by left.
  - done.
  - constructor.
  - repeat constructor.
  - by eexists.
  - by eexists.
Defined.

Lemma two_frame_start_ok :
  ∃ s, two_frame_start = Ok s ∧ engine_ok s ∧ clock_ok s ∧ time s = 0.
Proof.
  destruct (init_engine_ok (mkConfig 2 20 10 "RRN_FCFS") fresh_stats [] two_frame_pool []
              None (mkNode 2 30 false false (delays 1 [10])) 3)
    as (s & Hinit & Hok & Ht & _ & _ & _ & _ & Hclock).
  - done.
  - done.
  - done.
  - done.
  - right. right. right. by left.
  - repeat constructor; by eexists.
  - exists s. split; [exact Hinit|]. split; [exact Hok|]. split; [|exact Ht].
    apply Hclock; [done| |constructor].
    repeat constructor; cbn; try done.
    + intros k. destruct k as [|[|k]]; cbn; lia.
    + intros k. destruct k as [|k]; cbn; lia.
Qed.

Lemma run_never_raises_two_frames :
  ∃ s, two_frame_start = Ok s
    ∧ ∃ s' more, run 6 s = Ok s' ∧ engine_ok s'
        ∧ trace s' = trace s ++ more
        ∧ map profile (pool_URLLC s') = map profile (pool_URLLC s)
        ∧ map profile (pool_mMTC s') = map profile (pool_mMTC s)
        ∧ pilot_strategy s' = pilot_strategy s ∧ no_pilots s' = no_pilots s
        ∧ frame_length s' = frame_length s ∧ simulation_length s' = simulation_length s.
Proof.
  destruct two_frame_start_ok as (s & Hinit & Hok & _).
  exists s. split; [exact Hinit|]. exact (run_never_raises 6 s Hok).
Defined.

Lemma clock_never_goes_back_two_frames :
  ∃ s, two_frame_start = Ok s
    ∧ ∃ s', run 6 s = Ok s' ∧ time s <= time s' ∧ clock_ok s'.
Proof.
  destruct two_frame_start_ok as (s & Hinit & Hok & Hclock & _).
  exists s. split; [exact Hinit|]. exact (clock_never_goes_back 6 s Hok Hclock).
Defined.

Lemma init_spec_two_frames :
  two_frame_start =
    Ok (mkSim
          (<["no_mmtc_arrivals" := 0]> (<["no_urllc_arrivals" := 2]> fresh_stats))
          [] 0 2 20 10 "RRN_FCFS"
          [mkEvent _URLLC_ARRIVAL 1 31 0 1; mkEvent _URLLC_ARRIVAL 12 42 1 2;
           departure_event 10]
          [] [] two_frame_pool [] 0 3 0).
Proof.
  apply (init_spec (mkConfig 2 20 10 "RRN_FCFS") fresh_stats [] two_frame_pool [] None
           (mkNode 2 30 false false (delays 1 [10])) 3 0 0).
  - reflexivity.
  - done.
  - reflexivity.
  - by vm_compute.
  - repeat constructor; by vm_compute.
  - constructor.
  - reflexivity.
  - reflexivity.
Defined.


(** ** The books of a run *)

Lemma count_class_nil cls : count_class cls [] = 0.
Proof. done. Qed.

Lemma count_class_app cls E1 E2 :
  count_class cls (E1 ++ E2) = count_class cls E1 + count_class cls E2.
Proof. unfold count_class. rewrite owners_app, length_app. lia. Qed.

Lemma count_class_cons cls e E :
  count_class cls (e :: E) = (if decide (etype e = cls) then 1 else 0) + count_class cls E.
Proof.
  unfold count_class, owners. rewrite filter_cons.
  destruct (decide (etype e = cls)); cbn [map length]; lia.
Qed.

Lemma count_class_perm cls E1 E2 : E1 ≡ₚ E2 → count_class cls E1 = count_class cls E2.
Proof. intros H. unfold count_class, owners. by rewrite !length_map, H. Qed.

Lemma entry_events_of t b (E : list Event) :
  map entry_event (map (fun e => get_entry e t b) E) = E.
Proof. induction E as [|e E IH]; [done|]. cbn [map]. by rewrite IH. Qed.

Lemma failures_app tr1 tr2 : failures (tr1 ++ tr2) = failures tr1 ++ failures tr2.
Proof. unfold failures. by rewrite filter_app, map_app. Qed.

Lemma failures_failed t (E : list Event) :
  failures (map (fun e => get_entry e t false) E) = E.
Proof.
  induction E as [|e E IH]; [done|]. cbn [map]. unfold failures in *.
  rewrite filter_cons, decide_True by done. cbn [map]. by rewrite IH.
Qed.

Lemma failures_served t (E : list Event) :
  failures (map (fun e => get_entry e t true) E) = [].
Proof.
  induction E as [|e E IH]; [done|]. cbn [map]. unfold failures in *.
  by rewrite filter_cons, decide_False.
Qed.

Lemma failures_perm tr1 tr2 : tr1 ≡ₚ tr2 → failures tr1 ≡ₚ failures tr2.
Proof.
  intros H. unfold failures.
  change (map entry_event) with (fmap (M := list) entry_event). by rewrite H.
Qed.

Lemma retire_all_other_stats t s E key :
  key ≠ "no_missed_urllc" → key ≠ "no_missed_mmtc" →
  stats (foldl (retire_failed t) s E) !! key = stats s !! key.
Proof.
  intros H1 H2. revert s. induction E as [|e E IH]; intros s; [done|].
  cbn [foldl]. rewrite IH, retire_failed_stats.
  repeat case_decide; by rewrite ?lookup_alter_ne.
Qed.

Lemma class_counters cls :
  cls = _URLLC_ARRIVAL ∨ cls = _mMTC_ARRIVAL →
  (arrivals_counter cls = "no_urllc_arrivals" ∨ arrivals_counter cls = "no_mmtc_arrivals")
  ∧ ((missed_counter cls = "no_missed_urllc" ∧ cls = _URLLC_ARRIVAL)
     ∨ (missed_counter cls = "no_missed_mmtc" ∧ cls = _mMTC_ARRIVAL)).
Proof. intros [-> | ->]; split; (by left) || (by right). Qed.

Lemma handle_expired_events_counters s s1 cls :
  Forall (fun e => etype e = _URLLC_ARRIVAL ∧ (node_id e < length (pool_URLLC s))%nat)
         (send_queue_URLLC s) →
  Forall (fun e => etype e = _mMTC_ARRIVAL ∧ (node_id e < length (pool_mMTC s))%nat)
         (send_queue_mMTC s) →
  is_Some (stats s !! "no_missed_urllc") →
  is_Some (stats s !! "no_missed_mmtc") →
  cls = _URLLC_ARRIVAL ∨ cls = _mMTC_ARRIVAL →
  __handle_expired_events s = Ok s1 →
  stats s1 !! arrivals_counter cls = stats s !! arrivals_counter cls
  ∧ stats s1 !! missed_counter cls =
      (fun v => v + count_class cls
                      (reverse (filter (expired (time s)) (send_queue_URLLC s)) ++
                       reverse (filter (expired (time s)) (send_queue_mMTC s))))
        <$> stats s !! missed_counter cls.
Proof.
  intros HU HM HsU HsM Hcls.
  assert (HwU : Forall (wf_event s) (send_queue_URLLC s)).
  { eapply Forall_impl; [exact HU|]. intros e [Ht Hn]. split; intros Ht'; [done|].
    exfalso. rewrite Ht in Ht'. done. }
  assert (HwM : Forall (wf_event s) (send_queue_mMTC s)).
  { eapply Forall_impl; [exact HM|]. intros e [Ht Hn]. split; intros Ht'; [|done].
    exfalso. rewrite Ht in Ht'. done. }
  rewrite (handle_expired_events_run s HwU HwM). intros [= <-].
  set (E := _ ++ _). cbn.
  destruct (class_counters cls Hcls) as [Ha Hm]. split.
  - apply retire_all_other_stats; destruct Ha as [-> | ->]; done.
  - unfold count_class. destruct Hm as [[Hm ->]|[Hm ->]]; rewrite Hm.
    + by apply retire_all_stats; left.
    + by apply retire_all_stats; right.
Qed.

Lemma run_step_books (s : Simulation) (cls : Z) :
  engine_ok s → cls = _URLLC_ARRIVAL ∨ cls = _mMTC_ARRIVAL →
  ∀ s', run_step s = Ok s' → books cls s' = books cls s.
Proof.
  intros [Hst HL Hstats Hheap Hdep HqU HqM] Hcls.
  pose proof (engine_counters_some _ Hstats) as (HcU & HcM & HmU & HmM).
  destruct (class_counters cls Hcls) as [Ha Hm].
  assert (Hne : ∃ d, d ∈ event_heap s).
  { destruct (event_heap s) as [|d h]; [done|]. exists d. by left. }
  destruct Hne as [d Hd]. destruct (pop_nonempty _ _ Hd) as (ev & rest & Hpop).
  destruct (pop_spec _ _ _ Hpop) as [Hperm _].
  assert (Hev : ev ∈ event_heap s) by (rewrite Hperm; by left).
  pose proof (proj1 (Forall_forall _ _) Hheap ev Hev) as Hkind.
  pose proof (count_class_perm cls _ _ Hperm) as Hheap_count.
  rewrite count_class_cons in Hheap_count.
  unfold run_step. rewrite Hpop. cbn [rbind fst snd].
  set (s1 := set_time (etime ev) (set_event_heap rest s)).
  unfold __handle_event.
  destruct Hkind as [Hkind|[[Ht Hn]|[Ht Hn]]].
  - (* a frame boundary *)
    unfold is_departure in Hkind.
    rewrite decide_False by (rewrite Hkind; done).
    rewrite decide_False by (rewrite Hkind; done).
    rewrite decide_True by done. unfold __handle_departure.
    rewrite decide_False in Hheap_count by (rewrite Hkind; by destruct Hcls as [-> | ->]).
    destruct (handle_expired_events_shape s1 HqU HqM HmU HmM)
      as (s2 & Hexp & HqU2 & HqM2 & Htr2 & Ht2 & Hh2 & Hst2 & Hl2 & _ & _ & _ & _ & Hpools2).
    destruct (handle_expired_events_counters s1 s2 cls HqU HqM HmU HmM Hcls Hexp)
      as [Harr2 Hmiss2].
    destruct (Hpools2 _ profile ltac:(intros; reflexivity)) as [HpU2 HpM2].
    pose proof (map_length_eq _ _ _ HpU2) as HlU2.
    pose proof (map_length_eq _ _ _ HpM2) as HlM2.
    destruct (assign_pilots_pass_ok s2)
      as (s3 & Hrun & (svA & svB & HcA & HcB & new3 & Htr3 & Hnew3) & Hset).
    { by rewrite Hst2. }
    { by rewrite Hl2. }
    { rewrite HqU2, HlU2. apply Forall_forall. intros e He.
      apply list_elem_of_filter in He as [_ He].
      by destruct (proj1 (Forall_forall _ _) HqU e He). }
    { rewrite HqM2, HlM2. apply Forall_forall. intros e He.
      apply list_elem_of_filter in He as [_ He].
      by destruct (proj1 (Forall_forall _ _) HqM e He). }
    destruct Hset as (S1 & _ & _ & _ & _ & _ & S7 & _).
    rewrite Hexp. cbn [rbind]. rewrite Hrun. cbn [rbind]. intros s' [= <-].
    unfold books, in_flight. cbn -[failures count_class]. rewrite S1, Harr2, Hmiss2.
    change (stats s1) with (stats s).
    destruct (stats s !! arrivals_counter cls) as [a|]; [|done].
    destruct (stats s !! missed_counter cls) as [m|]; [|done].
    cbn [fmap option_fmap option_map].
    unfold EventHeap.push. rewrite S7, Hh2, Htr3, Htr2.
    change (event_heap s1) with rest. change (trace s1) with (trace s).
    change (time s1) with (etime ev) in *.
    change (send_queue_URLLC s1) with (send_queue_URLLC s) in *.
    change (send_queue_mMTC s1) with (send_queue_mMTC s) in *.
    set (goneU := filter (expired (etime ev)) (send_queue_URLLC s)) in *.
    set (goneM := filter (expired (etime ev)) (send_queue_mMTC s)) in *.
    rewrite !map_app, !failures_app, !entry_events_of, !failures_failed.
    rewrite !count_class_app.
    rewrite (count_class_perm cls _ _ (failures_perm _ _ Hnew3)), failures_served.
    assert (Hev3 : count_class cls (map entry_event new3) = count_class cls (svA ++ svB)).
    { rewrite <- (entry_events_of (time s2) true (svA ++ svB)). apply count_class_perm.
      change (map entry_event) with (fmap (M := list) entry_event). by rewrite Hnew3. }
    rewrite Hev3, count_class_app.
    pose proof (count_class_perm cls _ _ (filter_split_perm (expired (etime ev))
                                            (send_queue_URLLC s))) as HsplitU.
    pose proof (count_class_perm cls _ _ (filter_split_perm (expired (etime ev))
                                            (send_queue_mMTC s))) as HsplitM.
    rewrite count_class_app in HsplitU, HsplitM.
    fold goneU in HsplitU. fold goneM in HsplitM.
    rewrite <- HqU2 in HsplitU. rewrite <- HqM2 in HsplitM.
    rewrite (count_class_perm cls _ _ HcA), count_class_app in HsplitU.
    rewrite (count_class_perm cls _ _ HcB), count_class_app in HsplitM.
    rewrite (count_class_perm cls (reverse goneU) goneU) by apply reverse_Permutation.
    rewrite (count_class_perm cls (reverse goneM) goneM) by apply reverse_Permutation.
    assert (Hdep0 : ∀ t, count_class cls [departure_event t] = 0).
    { intros t. rewrite count_class_cons, decide_False; [done|]. by destruct Hcls as [-> | ->]. }
    rewrite Hdep0, count_class_nil. f_equal. f_equal; lia.
  - (* an arrival of class A *)
    rewrite decide_True by done.
    destruct (lookup_lt_is_Some_2 _ _ Hn) as [nd Hnd]. destruct HcU as [v Hv].
    rewrite (handle_urllc_arrival_run ev s1 nd v Hnd Hv). intros s' [= <-].
    unfold books, in_flight. cbn -[failures count_class]. unfold EventHeap.push.
    rewrite count_class_app, !count_class_cons, count_class_nil. cbn [etype].
    destruct Hcls as [-> | ->].
    + rewrite Ht in *. rewrite !decide_True in * by done.
      change (arrivals_counter _URLLC_ARRIVAL) with "no_urllc_arrivals".
      change (missed_counter _URLLC_ARRIVAL) with "no_missed_urllc".
      rewrite lookup_insert_eq, lookup_insert_ne, Hv by done.
      destruct (stats s !! "no_missed_urllc"); [|done]. f_equal. f_equal. lia.
    + rewrite Ht in *. rewrite !decide_False in * by done.
      change (arrivals_counter _mMTC_ARRIVAL) with "no_mmtc_arrivals".
      change (missed_counter _mMTC_ARRIVAL) with "no_missed_mmtc".
      rewrite !lookup_insert_ne by done.
      destruct (stats s !! "no_mmtc_arrivals"); [|done].
      destruct (stats s !! "no_missed_mmtc"); [|done]. f_equal. f_equal. lia.
  - (* an arrival of class B *)
    rewrite decide_False by (rewrite Ht; done). rewrite decide_True by done.
    destruct (lookup_lt_is_Some_2 _ _ Hn) as [nd Hnd]. destruct HcM as [v Hv].
    rewrite (handle_mmtc_arrival_run ev s1 nd v Hnd Hv). intros s' [= <-].
    unfold books, in_flight. cbn -[failures count_class]. unfold EventHeap.push.
    rewrite count_class_app, !count_class_cons, count_class_nil. cbn [etype].
    destruct Hcls as [-> | ->].
    + rewrite Ht in *. rewrite !decide_False in * by done.
      change (arrivals_counter _URLLC_ARRIVAL) with "no_urllc_arrivals".
      change (missed_counter _URLLC_ARRIVAL) with "no_missed_urllc".
      rewrite !lookup_insert_ne by done.
      destruct (stats s !! "no_urllc_arrivals"); [|done].
      destruct (stats s !! "no_missed_urllc"); [|done]. f_equal. f_equal. lia.
    + rewrite Ht in *. rewrite !decide_True in * by done.
      change (arrivals_counter _mMTC_ARRIVAL) with "no_mmtc_arrivals".
      change (missed_counter _mMTC_ARRIVAL) with "no_missed_mmtc".
      rewrite lookup_insert_eq, lookup_insert_ne, Hv by done.
      destruct (stats s !! "no_missed_mmtc"); [|done]. f_equal. f_equal. lia.
Qed.

Lemma run_books (cls : Z) (n : nat) :
  cls = _URLLC_ARRIVAL ∨ cls = _mMTC_ARRIVAL →
  ∀ s, engine_ok s → ∃ s', run n s = Ok s' ∧ engine_ok s' ∧ books cls s' = books cls s.
Proof.
  intros Hcls. induction n as [|n IH]; intros s Hok; cbn [run].
  - by exists s.
  - case_decide; [|by exists s].
    destruct (run_step_shape s Hok) as (ev & rest & s1 & new & more & _ & Hstep & Hok1 & _).
    rewrite Hstep. cbn [rbind].
    destruct (IH s1 Hok1) as (s' & Hrun & Hok' & Hbooks).
    exists s'. split; [done|]. split; [done|].
    rewrite Hbooks. by apply run_step_books.
Qed.

Lemma engine_ok_books (cls : Z) (s : Simulation) :
  cls = _URLLC_ARRIVAL ∨ cls = _mMTC_ARRIVAL → engine_ok s → is_Some (books cls s).
Proof.
  intros Hcls [_ _ Hstats _ _ _ _].
  pose proof (engine_counters_some _ Hstats) as ([a Ha] & [b Hb] & [m Hm] & [m' Hm']).
  unfold books. destruct Hcls as [-> | ->].
  - change (arrivals_counter _URLLC_ARRIVAL) with "no_urllc_arrivals".
    change (missed_counter _URLLC_ARRIVAL) with "no_missed_urllc".
    rewrite Ha, Hm. by eexists.
  - change (arrivals_counter _mMTC_ARRIVAL) with "no_mmtc_arrivals".
    change (missed_counter _mMTC_ARRIVAL) with "no_missed_mmtc".
    rewrite Hb, Hm'. by eexists.
Qed.

(** X9. The books of a run stay balanced.  Over any number of turns of the loop
    of [run] from a state that is set up properly, and for each class, the
    arrival counter of the class moves by exactly as much as the number of
    its requests that are pending in the heap, waiting in a queue or
    entered in the trace, and its missed counter by exactly as much as the
    number of its failures in the trace: no request is lost and none is
    entered twice. *)
Theorem run_keeps_books (cls : Z) (n : nat) (s : Simulation) :
  engine_ok s →
  cls = _URLLC_ARRIVAL ∨ cls = _mMTC_ARRIVAL →
  ∃ s' a m a' m',
    run n s = Ok s'
    ∧ stats s !! arrivals_counter cls = Some a ∧ stats s !! missed_counter cls = Some m
    ∧ stats s' !! arrivals_counter cls = Some a' ∧ stats s' !! missed_counter cls = Some m'
    ∧ a' - a = in_flight cls s' - in_flight cls s
    ∧ m' - m = count_class cls (failures (trace s')) - count_class cls (failures (trace s)).
Proof.
  intros Hok Hcls.
  destruct (run_books cls n Hcls s Hok) as (s' & Hrun & _ & Hbooks).
  destruct (engine_ok_books cls s Hcls Hok) as [[x y] Hb].
  rewrite Hb in Hbooks. unfold books in Hb, Hbooks.
  destruct (stats s !! arrivals_counter cls) as [a|] eqn:Ha; [|done].
  destruct (stats s !! missed_counter cls) as [m|] eqn:Hm; [|done].
  destruct (stats s' !! arrivals_counter cls) as [a'|] eqn:Ha'; [|done].
  destruct (stats s' !! missed_counter cls) as [m'|] eqn:Hm'; [|done].
  injection Hb as <- <-. injection Hbooks as H1 H2.
  exists s', a, m, a', m'. do 5 (split; [done|]). split; lia.
Qed.

Lemma first_arrivals_length slice_type t nodes :
  ∀ ind cnt, length (first_arrivals slice_type t nodes ind cnt) = length nodes.
Proof. induction nodes as [|n rest IH]; intros ind cnt; [done|]. cbn. by rewrite IH. Qed.

Lemma first_arrivals_count (cls slice_type t : Z) (nodes : list Node) (ind : nat) (cnt : Z) :
  count_class cls (first_arrivals slice_type t nodes ind cnt) =
  if decide (cls = slice_type + 3) then Z.of_nat (length nodes) else 0.
Proof.
  assert (H : Forall (fun e => etype e = slice_type + 3)
                (first_arrivals slice_type t nodes ind cnt)).
  { apply Forall_forall. intros e He. by destruct (first_arrivals_spec _ _ _ _ _ _ He). }
  unfold count_class. destruct (decide (cls = slice_type + 3)) as [->|Hne].
  - by rewrite (owners_same _ _ H), length_map, first_arrivals_length.
  - by rewrite (owners_other cls _ _ Hne H).
Qed.

(** X10. From construction on, the counters are the books.  With a fresh
    statistics object and an empty trace, at any point of a run and for
    each class, the arrival counter equals the number of requests of the
    class that are pending in the heap, waiting in a queue or entered in
    the trace, and the missed counter equals the number of failures of the
    class in the trace. *)
Theorem counters_are_the_books (config : Config) (path : string)
    (urllc mmtc : list Node) (scheduler : option string) (node0 : Node) (k : Z) (cls : Z) :
  urllc !! 0%nat = Some node0 →
  cfg_frame_length config ≠ 0 →
  deadline node0 = k * cfg_frame_length config → k ≠ 0 →
  chosen_strategy config scheduler ∈ recognized →
  cls = _URLLC_ARRIVAL ∨ cls = _mMTC_ARRIVAL →
  ∃ s, init config (Stats.stats (Stats.init path)) [] urllc mmtc scheduler = Ok s
    ∧ ∀ n, ∃ s', run n s = Ok s'
        ∧ stats s' !! arrivals_counter cls = Some (in_flight cls s')
        ∧ stats s' !! missed_counter cls = Some (count_class cls (failures (trace s'))).
Proof.
  intros Hn0 Hfl Hk Hk0 Hst Hcls.
  assert (Hkeys : Forall (fun key => is_Some (Stats.stats (Stats.init path) !! key))
                    engine_counters).
  { repeat constructor; by eexists. }
  destruct (init_engine_ok config _ [] urllc mmtc scheduler node0 k Hn0 Hfl Hk Hk0 Hst Hkeys)
    as (s & Hinit & Hok & _).
  exists s. split; [done|]. intros n.
  destruct (run_books cls n Hcls s Hok) as (s' & Hrun & _ & Hbooks).
  exists s'. split; [done|].
  assert (Hstart : books cls s = Some (0, 0)).
  { assert (HvU : Stats.stats (Stats.init path) !! "no_urllc_arrivals" = Some 0) by done.
    assert (HvM : Stats.stats (Stats.init path) !! "no_mmtc_arrivals" = Some 0) by done.
    assert (HmU : Stats.stats (Stats.init path) !! "no_missed_urllc" = Some 0) by done.
    assert (HmM : Stats.stats (Stats.init path) !! "no_missed_mmtc" = Some 0) by done.
    revert Hinit HvU HvM HmU HmM. generalize (Stats.stats (Stats.init path)).
    intros st Hinit HvU HvM HmU HmM.
    rewrite (init_run config st [] urllc mmtc scheduler node0 k 0 0 Hn0 Hfl Hk HvU HvM) in Hinit.
    injection Hinit as <-. unfold books, in_flight. cbn -[count_class].
    rewrite !count_class_app, !first_arrivals_count, count_class_cons, !count_class_nil.
    cbn [etype departure_event].
    destruct Hcls as [-> | ->].
    - change (arrivals_counter _URLLC_ARRIVAL) with "no_urllc_arrivals".
      change (missed_counter _URLLC_ARRIVAL) with "no_missed_urllc".
      rewrite lookup_insert_ne, lookup_insert_eq by done.
      rewrite !lookup_insert_ne, HmU by done.
      rewrite (decide_True (P := _URLLC_ARRIVAL = _URLLC + 3)) by done.
      rewrite (decide_False (P := _URLLC_ARRIVAL = _mMTC + 3)) by done.
      rewrite (decide_False (P := _DEPARTURE = _URLLC_ARRIVAL)) by done.
      f_equal. f_equal; lia.
    - change (arrivals_counter _mMTC_ARRIVAL) with "no_mmtc_arrivals".
      change (missed_counter _mMTC_ARRIVAL) with "no_missed_mmtc".
      rewrite lookup_insert_eq.
      rewrite !lookup_insert_ne, HmM by done.
      rewrite (decide_False (P := _mMTC_ARRIVAL = _URLLC + 3)) by done.
      rewrite (decide_True (P := _mMTC_ARRIVAL = _mMTC + 3)) by done.
      rewrite (decide_False (P := _DEPARTURE = _mMTC_ARRIVAL)) by done.
      f_equal. f_equal; lia. }
  rewrite Hstart in Hbooks. unfold books in Hbooks.
  destruct (stats s' !! arrivals_counter cls) as [a'|]; [|done].
  destruct (stats s' !! missed_counter cls) as [m'|]; [|done].
  injection Hbooks as H1 H2. split; f_equal; lia.
Qed.

Lemma run_keeps_books_two_frames :
  ∃ s, two_frame_start = Ok s
    ∧ ∃ s' a m a' m',
        run 6 s = Ok s'
        ∧ stats s !! arrivals_counter _URLLC_ARRIVAL = Some a
        ∧ stats s !! missed_counter _URLLC_ARRIVAL = Some m
        ∧ stats s' !! arrivals_counter _URLLC_ARRIVAL = Some a'
        ∧ stats s' !! missed_counter _URLLC_ARRIVAL = Some m'
        ∧ a' - a = in_flight _URLLC_ARRIVAL s' - in_flight _URLLC_ARRIVAL s
        ∧ m' - m = count_class _URLLC_ARRIVAL (failures (trace s'))
                   - count_class _URLLC_ARRIVAL (failures (trace s)).
Proof.
  destruct two_frame_start_ok as (s & Hinit & Hok & _).
  exists s. split; [exact Hinit|].
  exact (run_keeps_books _URLLC_ARRIVAL 6 s Hok (or_introl eq_refl)).
Defined.

Lemma counters_are_the_books_two_frames :
  ∃ s, init (mkConfig 2 20 10 "RRN_FCFS") (Stats.stats (Stats.init "stats.csv")) []
         two_frame_pool [] None = Ok s
    ∧ ∀ n, ∃ s', run n s = Ok s'
        ∧ stats s' !! arrivals_counter _URLLC_ARRIVAL = Some (in_flight _URLLC_ARRIVAL s')
        ∧ stats s' !! missed_counter _URLLC_ARRIVAL
          = Some (count_class _URLLC_ARRIVAL (failures (trace s'))).
Proof.
  apply (counters_are_the_books (mkConfig 2 20 10 "RRN_FCFS") "stats.csv"
           two_frame_pool [] None (mkNode 2 30 false false (delays 1 [10])) 3
           _URLLC_ARRIVAL).
  - done.
  - done.
  - done.
  - done.
  - right. right. right. by left.
  - by left.
Defined.

(** ** More on the statistics object *)

Lemma stats_keys (d : gmap string Z) (k : string) :
  k ∈ map fst (map_to_list d) ↔ is_Some (d !! k).
Proof.
  rewrite list_elem_of_fmap. split.
  - intros [[k' v] [-> Hin]]. apply elem_of_map_to_list in Hin. by exists v.
  - intros [v Hv]. exists (k, v). split; [done|]. by apply elem_of_map_to_list.
Qed.

(** X11. [clear_stats] keeps the set of keys and clearing twice is clearing
    once. *)
Theorem clear_stats_idempotent (s : Stats.t) :
  (∀ k, is_Some (Stats.stats (Stats.clear_stats s) !! k) ↔ is_Some (Stats.stats s !! k))
  ∧ Stats.clear_stats (Stats.clear_stats s) = Stats.clear_stats s.
Proof.
  assert (Hdom : ∀ k, is_Some (Stats.stats (Stats.clear_stats s) !! k)
                      ↔ is_Some (Stats.stats s !! k)).
  { intros k. unfold Stats.clear_stats. cbn [Stats.stats]. rewrite clear_keys_lookup.
    case_decide as Hk; [|done]. destruct Hk as [Hk _]. apply stats_keys in Hk.
    split; [done|]. by eexists. }
  split; [exact Hdom|].
  assert (Hfix : Stats.clear_keys (map fst (map_to_list (Stats.stats (Stats.clear_stats s))))
                   (Stats.stats (Stats.clear_stats s)) = Stats.stats (Stats.clear_stats s)).
  { apply map_eq. intros k. rewrite clear_keys_lookup.
    case_decide as Hk; [|done]. destruct Hk as [Hk Hne].
    apply stats_keys, Hdom in Hk. unfold Stats.clear_stats. cbn [Stats.stats].
    rewrite clear_keys_lookup, decide_True; [done|]. split; [|done]. by apply stats_keys. }
  unfold Stats.clear_stats at 1. rewrite Hfix. by destruct (Stats.clear_stats s).
Qed.

(** ** More on expiry *)

Lemma filter_idemp {A : Type} (P : A → Prop) `{∀ x, Decision (P x)} (l : list A) :
  filter P (filter P l) = filter P l.
Proof.
  induction l as [|x l IH]; [done|]. rewrite (filter_cons _ x l).
  case_decide; [|done]. by rewrite filter_cons, decide_True, IH.
Qed.

Lemma set_send_queue_same s :
  set_send_queue K_mMTC (send_queue_mMTC s) (set_send_queue K_URLLC (send_queue_URLLC s) s) = s.
Proof. by destruct s. Qed.

(** X12. Expiry is idempotent: a second pass of [__handle_expired_events] at the
    same time finds nothing to retire and leaves the whole state, counters
    and trace included, as the first pass left it. *)
Theorem handle_expired_events_idempotent (s : Simulation) :
  Forall (fun e => etype e = _URLLC_ARRIVAL ∧ (node_id e < length (pool_URLLC s))%nat)
         (send_queue_URLLC s) →
  Forall (fun e => etype e = _mMTC_ARRIVAL ∧ (node_id e < length (pool_mMTC s))%nat)
         (send_queue_mMTC s) →
  is_Some (stats s !! "no_missed_urllc") →
  is_Some (stats s !! "no_missed_mmtc") →
  ∃ s1, __handle_expired_events s = Ok s1 ∧ __handle_expired_events s1 = Ok s1.
Proof.
  intros HU HM HsU HsM.
  destruct (handle_expired_events_shape s HU HM HsU HsM)
    as (s1 & Hrun & HqU & HqM & _ & Ht & _ & _ & _ & _ & _ & _ & Hkeys & Hpools).
  exists s1. split; [exact Hrun|].
  destruct (Hpools _ profile ltac:(intros; reflexivity)) as [HpU HpM].
  pose proof (map_length_eq _ _ _ HpU) as HlU.
  pose proof (map_length_eq _ _ _ HpM) as HlM.
  assert (HwU : Forall (wf_event s1) (send_queue_URLLC s1)).
  { rewrite HqU. apply Forall_forall. intros e He. apply list_elem_of_filter in He as [_ He].
    destruct (proj1 (Forall_forall _ _) HU e He) as [Hty Hn].
    split; intros Hty'; [|exfalso; rewrite Hty in Hty'; done].
    split; [by rewrite HlU|by apply Hkeys]. }
  assert (HwM : Forall (wf_event s1) (send_queue_mMTC s1)).
  { rewrite HqM. apply Forall_forall. intros e He. apply list_elem_of_filter in He as [_ He].
    destruct (proj1 (Forall_forall _ _) HM e He) as [Hty Hn].
    split; intros Hty'; [exfalso; rewrite Hty in Hty'; done|].
    split; [by rewrite HlM|by apply Hkeys]. }
  rewrite (handle_expired_events_run s1 HwU HwM). f_equal.
  assert (HgU : filter (expired (time s1)) (send_queue_URLLC s1) = []).
  { rewrite HqU, Ht. apply filter_none. apply Forall_forall. intros e He.
    by apply list_elem_of_filter in He as [He _]. }
  assert (HgM : filter (expired (time s1)) (send_queue_mMTC s1) = []).
  { rewrite HqM, Ht. apply filter_none. apply Forall_forall. intros e He.
    by apply list_elem_of_filter in He as [He _]. }
  rewrite HgU, HgM. cbn [reverse app foldl].
  assert (HkU : filter (fun e => ¬ expired (time s1) e) (send_queue_URLLC s1)
                = send_queue_URLLC s1).
  { rewrite HqU, Ht. apply filter_idemp. }
  assert (HkM : filter (fun e => ¬ expired (time s1) e) (send_queue_mMTC s1)
                = send_queue_mMTC s1).
  { rewrite HqM, Ht. apply filter_idemp. }
  rewrite HkU, HkM. apply set_send_queue_same.
Qed.

Lemma handle_expired_events_idempotent_scenario_C :
  ∃ s1, __handle_expired_events scenario_C = Ok s1 ∧ __handle_expired_events s1 = Ok s1.
Proof.
  apply (handle_expired_events_idempotent scenario_C).
  - constructor.
  - repeat constructor.
  - by eexists.
  - by eexists.
Defined.

(** ** The turns of the run loop, case by case *)

Lemma run_step_cases (s : Simulation) :
  engine_ok s →
  ∃ ev rest,
    EventHeap.pop (event_heap s) = Ok (ev, rest)
    ∧ event_heap s ≡ₚ ev :: rest
    ∧ let s1 := set_time (etime ev) (set_event_heap rest s) in
      (is_departure ev
       ∧ ∃ s2 s3,
           __handle_expired_events s1 = Ok s2 ∧ __assign_pilots s2 = Ok s3
           ∧ run_step s =
               Ok (set_event_heap
                     (EventHeap.push (departure_event (time s3 + frame_length s3))
                        (event_heap s3)) s3))
      ∨ (etype ev = _URLLC_ARRIVAL
         ∧ ∃ nd v,
             pool_URLLC s !! node_id ev = Some nd
             ∧ stats s !! "no_urllc_arrivals" = Some v
             ∧ run_step s =
                 Ok (set_event_heap
                       (EventHeap.push
                          (mkEvent _URLLC_ARRIVAL
                             (etime ev + next_delay (event_generator nd)
                                           (drawn (event_generator nd)))
                             (etime ev + next_delay (event_generator nd)
                                           (drawn (event_generator nd)) + deadline nd)
                             (node_id ev) (v + 1))
                          rest)
                       (set_pool_URLLC
                          (<[node_id ev := set_generator (snd (get_next (event_generator nd)))
                                             (set_active true nd)]> (pool_URLLC s))
                          (set_send_queue K_URLLC (ev :: send_queue_URLLC s)
                             (set_stats (<["no_urllc_arrivals" := v + 1]> (stats s)) s1)))))
      ∨ (etype ev = _mMTC_ARRIVAL
         ∧ ∃ nd v,
             pool_mMTC s !! node_id ev = Some nd
             ∧ stats s !! "no_mmtc_arrivals" = Some v
             ∧ run_step s =
                 Ok (set_event_heap
                       (EventHeap.push
                          (mkEvent _mMTC_ARRIVAL
                             (etime ev + next_delay (event_generator nd)
                                           (drawn (event_generator nd)))
                             (etime ev + next_delay (event_generator nd)
                                           (drawn (event_generator nd)) + deadline nd)
                             (node_id ev) (v + 1))
                          rest)
                       (set_pool_mMTC
                          (<[node_id ev := set_generator (snd (get_next (event_generator nd)))
                                             (set_active true nd)]> (pool_mMTC s))
                          (set_send_queue K_mMTC (ev :: send_queue_mMTC s)
                             (set_stats (<["no_mmtc_arrivals" := v + 1]> (stats s)) s1))))).
Proof.
  intros [Hst HL Hstats Hheap Hdep HqU HqM].
  pose proof (engine_counters_some _ Hstats) as (HcU & HcM & HmU & HmM).
  assert (Hne : ∃ d, d ∈ event_heap s).
  { destruct (event_heap s) as [|d h]; [done|]. exists d. by left. }
  destruct Hne as [d Hd]. destruct (pop_nonempty _ _ Hd) as (ev & rest & Hpop).
  destruct (pop_spec _ _ _ Hpop) as [Hperm _].
  assert (Hev : ev ∈ event_heap s) by (rewrite Hperm; by left).
  pose proof (proj1 (Forall_forall _ _) Hheap ev Hev) as Hkind.
  exists ev, rest. split; [exact Hpop|]. split; [exact Hperm|].
  unfold run_step. rewrite Hpop. cbn [rbind fst snd]. cbv zeta.
  set (s1 := set_time (etime ev) (set_event_heap rest s)).
  unfold __handle_event.
  destruct Hkind as [Hkind|[[Ht Hn]|[Ht Hn]]].
  - left. split; [exact Hkind|]. unfold is_departure in Hkind.
    rewrite decide_False by (rewrite Hkind; done).
    rewrite decide_False by (rewrite Hkind; done).
    rewrite decide_True by done. unfold __handle_departure.
    destruct (handle_expired_events_shape s1 HqU HqM HmU HmM)
      as (s2 & Hexp & HqU2 & HqM2 & _ & _ & _ & Hst2 & Hl2 & _ & _ & _ & _ & Hpools2).
    destruct (Hpools2 _ profile ltac:(intros; reflexivity)) as [HpU2 HpM2].
    pose proof (map_length_eq _ _ _ HpU2) as HlU2.
    pose proof (map_length_eq _ _ _ HpM2) as HlM2.
    destruct (assign_pilots_pass_ok s2) as (s3 & Hrun & _).
    { by rewrite Hst2. }
    { by rewrite Hl2. }
    { rewrite HqU2, HlU2. apply Forall_forall. intros e He.
      apply list_elem_of_filter in He as [_ He].
      by destruct (proj1 (Forall_forall _ _) HqU e He). }
    { rewrite HqM2, HlM2. apply Forall_forall. intros e He.
      apply list_elem_of_filter in He as [_ He].
      by destruct (proj1 (Forall_forall _ _) HqM e He). }
    exists s2, s3. split; [exact Hexp|]. split; [exact Hrun|].
    rewrite Hexp. cbn [rbind]. rewrite Hrun. done.
  - right. left. split; [exact Ht|].
    rewrite decide_True by done.
    destruct (lookup_lt_is_Some_2 _ _ Hn) as [nd Hnd]. destruct HcU as [v Hv].
    exists nd, v. split; [exact Hnd|]. split; [exact Hv|].
    by rewrite (handle_urllc_arrival_run ev s1 nd v Hnd Hv).
  - right. right. split; [exact Ht|].
    rewrite decide_False by (rewrite Ht; done). rewrite decide_True by done.
    destruct (lookup_lt_is_Some_2 _ _ Hn) as [nd Hnd]. destruct HcM as [v Hv].
    exists nd, v. split; [exact Hnd|]. split; [exact Hv|].
    by rewrite (handle_mmtc_arrival_run ev s1 nd v Hnd Hv).
Qed.

(** ** The cursor of the RRN policies *)

Lemma cursor_ok_transfer (s s' : Simulation) :
  map assigned (pool_URLLC s') = map assigned (pool_URLLC s) →
  node_pointer s' = node_pointer s →
  frame_counter s' = frame_counter s →
  frame_loops s' = frame_loops s →
  cursor_ok s → cursor_ok s'.
Proof.
  intros Hpool Hptr Hfc Hfl (Hin & Hbefore & Hcount). unfold cursor_ok.
  rewrite Hptr, Hfc, Hfl, (map_length_eq _ _ _ Hpool).
  split; [done|]. split; [|done]. intros i Hi.
  rewrite <- list_lookup_fmap. change (fmap (M := list) assigned) with (map assigned).
  rewrite Hpool. change (map assigned) with (fmap (M := list) assigned).
  rewrite list_lookup_fmap. by apply Hbefore.
Qed.

Lemma advance_frame_cursor (s s0 : Simulation) :
  advance_frame s = Ok s0 → cursor_ok s →
  cursor_ok s0 ∧ frame_loops s0 = frame_loops s.
Proof.
  unfold advance_frame. intros H (Hin & Hbefore & Hcount).
  case_decide; [done|]. injection H as <-.
  assert (Hnext : 0 <= next_frame_counter s < frame_loops s).
  { unfold next_frame_counter. apply Z.mod_pos_bound. lia. }
  case_decide; (split; [|done]); unfold cursor_ok; cbn.
  - split; [lia|]. split; [intros i Hi; lia|done].
  - done.
Qed.

Lemma grant_pass_cursor (s : Simulation) (g : Grant) :
  grant_pass s = Ok g →
  (node_pointer s ≤ length (pool_URLLC s))%nat →
  (∀ i, (i < node_pointer s)%nat → assigned <$> pool_URLLC s !! i = Some true) →
  (g_pointer g ≤ length (g_pool g))%nat
  ∧ ∀ i, (i < g_pointer g)%nat → assigned <$> g_pool g !! i = Some true.
Proof.
  unfold grant_pass, py_range. intros Hrun Hin Hbefore.
  destruct (grant_nodes_spec (length (pool_URLLC s) - node_pointer s) (node_pointer s)
              (mkGrant (no_pilots s) (node_pointer s) (pool_URLLC s)))
    as (g' & Hrun' & _ & Hp & Hl & Hpool).
  { cbn. lia. }
  rewrite Hrun in Hrun'. injection Hrun' as <-.
  cbv zeta in Hp, Hl, Hpool. cbn [g_budget g_pointer g_pool] in Hp, Hl, Hpool.
  set (k := grant_count _ _) in *.
  assert (Hk : (k ≤ length (pool_URLLC s) - node_pointer s)%nat).
  { unfold k. etrans; [apply grant_count_le|].
    rewrite length_map, length_take, length_drop. lia. }
  split; [lia|]. intros i Hi. rewrite Hpool.
  destruct (decide (node_pointer s ≤ i < node_pointer s + k)%nat) as [Hmark|Hno].
  - destruct (lookup_lt_is_Some_2 (pool_URLLC s) i) as [nd Hnd]; [lia|].
    by rewrite Hnd.
  - rewrite option_fmap_id. apply Hbefore. lia.
Qed.

Lemma rrn_pass_cursor (class_b : Simulation → Z → list Entry → result Pass) s s' :
  (s0 <-! advance_frame s;
   g <-! grant_pass s0;
   let s1 := set_node_pointer (g_pointer g) (set_pool_URLLC (g_pool g) s0) in
   s2 <-! (if decide (0 < g_budget g) then
             b <-! class_b s1 (g_budget g) (trace s1);
             Ok (set_trace (written b) (set_send_queue K_mMTC (queue b) s1))
           else Ok s1);
   __handle_send_queue s2) = Ok s' →
  cursor_ok s → cursor_ok s' ∧ frame_loops s' = frame_loops s.
Proof.
  intros H Hc.
  apply rbind_ok in H as (s0 & H0 & H). apply rbind_ok in H as (g & Hg & H).
  cbv zeta in H. apply rbind_ok in H as (s2 & H2 & H).
  destruct (advance_frame_cursor s s0 H0 Hc) as [(Hin0 & Hbefore0 & Hcount0) Hfl0].
  destruct (grant_pass_cursor s0 g Hg Hin0 Hbefore0) as [Hin1 Hbefore1].
  set (s1 := set_node_pointer (g_pointer g) (set_pool_URLLC (g_pool g) s0)) in *.
  assert (Hc1 : cursor_ok s1) by (unfold cursor_ok; cbn; done).
  assert (Hc2 : cursor_ok s2 ∧ frame_loops s2 = frame_loops s0).
  { case_decide.
    - apply rbind_ok in H2 as (b & _ & H2). injection H2 as <-. split; [|done].
      by apply (cursor_ok_transfer s1).
    - by injection H2 as <-. }
  destruct Hc2 as [Hc2 Hfl2].
  destruct (handle_send_queue_effect s2 s' H) as (_ & _ & Hptr & Hfc & Hset).
  destruct Hset as (_ & _ & _ & _ & _ & _ & _ & Hfl & _).
  split; [|congruence].
  apply (cursor_ok_transfer s2); try done.
  by apply handle_send_queue_keeps_assigned.
Qed.

Lemma queue_policies_keep_cursor (s s' : Simulation) :
  __fist_come_first_served s = Ok s' ∨ __round_robin_queue_info s = Ok s'
  ∨ __round_robin_queue_first_come_first_served s = Ok s' →
  pool_URLLC s' = pool_URLLC s ∧ node_pointer s' = node_pointer s
  ∧ frame_counter s' = frame_counter s ∧ frame_loops s' = frame_loops s.
Proof.
  intros [H|[H|H]].
  - unfold __fist_come_first_served in H. apply rbind_ok in H as (a & _ & H).
    case_decide; [apply rbind_ok in H as (b & _ & H)|]; by injection H as <-.
  - unfold __round_robin_queue_info in H. apply rbind_ok in H as (a & _ & H).
    destruct (fst a); [case_decide; [apply rbind_ok in H as (b & _ & H)|]|];
      by injection H as <-.
  - unfold __round_robin_queue_first_come_first_served in H.
    apply rbind_ok in H as (a & _ & H).
    destruct (fst a); [case_decide; [apply rbind_ok in H as (b & _ & H)|]|];
      by injection H as <-.
Qed.

Lemma assign_pilots_cursor (s s' : Simulation) :
  pilot_strategy s ∈ recognized →
  __assign_pilots s = Ok s' →
  cursor_ok s → cursor_ok s' ∧ frame_loops s' = frame_loops s.
Proof.
  intros Hname. unfold __assign_pilots, recognized in *.
  repeat (apply elem_of_cons in Hname as [->|Hname]); [..|by apply elem_of_nil in Hname].
  - change (strategy_mapping !! "FCFS_FCFS") with (Some __fist_come_first_served).
    cbn [of_option rbind]. intros H Hc.
    destruct (queue_policies_keep_cursor s s') as (Hp & Hptr & Hfc & Hfl); [by left|].
    split; [|done]. apply (cursor_ok_transfer s); by rewrite ?Hp.
  - change (strategy_mapping !! "RRQ_RRQ") with (Some __round_robin_queue_info).
    cbn [of_option rbind]. intros H Hc.
    destruct (queue_policies_keep_cursor s s') as (Hp & Hptr & Hfc & Hfl); [by right; left|].
    split; [|done]. apply (cursor_ok_transfer s); by rewrite ?Hp.
  - change (strategy_mapping !! "RRQ_FCFS")
      with (Some __round_robin_queue_first_come_first_served).
    cbn [of_option rbind]. intros H Hc.
    destruct (queue_policies_keep_cursor s s') as (Hp & Hptr & Hfc & Hfl); [by right; right|].
    split; [|done]. apply (cursor_ok_transfer s); by rewrite ?Hp.
  - change (strategy_mapping !! "RRN_FCFS")
      with (Some __round_robin_no_queue_info_first_come_first_served).
    cbn [of_option rbind]. intros H Hc.
    by apply (rrn_pass_cursor serve_mmtc_latest_first s s').
  - change (strategy_mapping !! "RRN_RRQ") with (Some __round_robin_half_queue_info).
    cbn [of_option rbind]. intros H Hc.
    apply (rrn_pass_cursor
             (fun s1 b tr => rmap snd (drain_nodes false (time s1) (pool_mMTC s1) 0
                                         (mkPass b (send_queue_mMTC s1) tr))) s s');
      [|done].
    rewrite <- H. unfold __round_robin_half_queue_info.
    destruct (advance_frame s) as [s0|]; [|done]. cbn [rbind].
    destruct (grant_pass s0) as [g|]; [|done]. cbn [rbind].
    case_decide; [|done].
    by destruct (drain_nodes false _ _ _ _) as [r|].
Qed.

Lemma handle_expired_events_cursor (s s1 : Simulation) :
  Forall (fun e => etype e = _URLLC_ARRIVAL ∧ (node_id e < length (pool_URLLC s))%nat)
         (send_queue_URLLC s) →
  Forall (fun e => etype e = _mMTC_ARRIVAL ∧ (node_id e < length (pool_mMTC s))%nat)
         (send_queue_mMTC s) →
  is_Some (stats s !! "no_missed_urllc") →
  is_Some (stats s !! "no_missed_mmtc") →
  __handle_expired_events s = Ok s1 →
  map assigned (pool_URLLC s1) = map assigned (pool_URLLC s)
  ∧ node_pointer s1 = node_pointer s ∧ frame_counter s1 = frame_counter s
  ∧ frame_loops s1 = frame_loops s ∧ pilot_strategy s1 = pilot_strategy s.
Proof.
  intros HU HM HsU HsM.
  assert (HwU : Forall (wf_event s) (send_queue_URLLC s)).
  { eapply Forall_impl; [exact HU|]. intros e [Ht Hn]. split; intros Ht'; [done|].
    exfalso. rewrite Ht in Ht'. done. }
  assert (HwM : Forall (wf_event s) (send_queue_mMTC s)).
  { eapply Forall_impl; [exact HM|]. intros e [Ht Hn]. split; intros Ht'; [|done].
    exfalso. rewrite Ht in Ht'. done. }
  rewrite (handle_expired_events_run s HwU HwM). intros [= <-].
  set (E := _ ++ _).
  destruct (retire_all_frame (time s) s E) as (F1&F2&F3&F4&F5&F6&F7&F8&F9&F10&F11).
  destruct (retire_all_keeps assigned (time s) s E ltac:(intros; reflexivity)) as [HpU _].
  cbn. done.
Qed.

Lemma run_step_cursor (s : Simulation) :
  engine_ok s → cursor_ok s →
  ∃ s', run_step s = Ok s' ∧ engine_ok s' ∧ cursor_ok s'.
Proof.
  intros Hok Hc.
  destruct (run_step_shape s Hok) as (ev0 & rest0 & s' & new & more & _ & Hstep & Hok' & _).
  exists s'. split; [exact Hstep|]. split; [exact Hok'|].
  destruct (run_step_cases s Hok) as (ev & rest & _ & _ & Hcases). cbv zeta in Hcases.
  destruct Hok as [Hst HL Hstats Hheap Hdep HqU HqM].
  pose proof (engine_counters_some _ Hstats) as (_ & _ & HmU & HmM).
  destruct Hcases as [(_ & s2 & s3 & Hexp & Hrun & Heq)
                     |[(_ & nd & v & Hnd & _ & Heq)|(_ & nd & v & Hnd & _ & Heq)]];
    rewrite Hstep in Heq; injection Heq as ->.
  - destruct (handle_expired_events_cursor (set_time (etime ev) (set_event_heap rest s)) s2
                HqU HqM HmU HmM Hexp)
      as (Hp2 & Hptr2 & Hfc2 & Hfl2 & Hst2).
    assert (Hc2 : cursor_ok s2).
    { apply (cursor_ok_transfer s); [exact Hp2|exact Hptr2|exact Hfc2|exact Hfl2|exact Hc]. }
    destruct (assign_pilots_cursor s2 s3) as [Hc3 _]; [rewrite Hst2; exact Hst|done|done|].
    by apply (cursor_ok_transfer s3).
  - apply (cursor_ok_transfer s); try done. cbn.
    by apply (map_insert_same assigned _ _ nd).
  - by apply (cursor_ok_transfer s).
Qed.

Lemma run_cursor (n : nat) :
  ∀ s, engine_ok s → cursor_ok s → ∃ s', run n s = Ok s' ∧ engine_ok s' ∧ cursor_ok s'.
Proof.
  induction n as [|n IH]; intros s Hok Hc; cbn [run].
  - by exists s.
  - case_decide; [|by exists s].
    destruct (run_step_cursor s Hok Hc) as (s1 & Hstep & Hok1 & Hc1).
    rewrite Hstep. cbn [rbind]. by apply IH.
Qed.

(** X13. The cursor of the RRN policies stays in order.  Over any number of
    turns of the loop of [run], under every recognised strategy, the cursor
    stays within the class-A pool, every node before the cursor carries the
    [assigned] flag, and the frame counter stays within 0 and
    [frame_loops] - 1. *)
Theorem run_keeps_cursor (n : nat) (s : Simulation) :
  engine_ok s → cursor_ok s →
  ∃ s', run n s = Ok s' ∧ cursor_ok s'.
Proof.
  intros Hok Hc. destruct (run_cursor n s Hok Hc) as (s' & Hrun & _ & Hc').
  by exists s'.
Qed.

Lemma two_frame_start_cursor :
  ∃ s, two_frame_start = Ok s ∧ engine_ok s ∧ cursor_ok s.
Proof.
  destruct two_frame_start_ok as (s & Hinit & Hok & _).
  exists s. split; [exact Hinit|]. split; [exact Hok|].
  unfold two_frame_start in Hinit.
  rewrite (init_run (mkConfig 2 20 10 "RRN_FCFS") fresh_stats [] two_frame_pool [] None
             (mkNode 2 30 false false (delays 1 [10])) 3 0 0 eq_refl ltac:(done) eq_refl
             eq_refl eq_refl)
    in Hinit.
  injection Hinit as <-. unfold cursor_ok. cbn. split; [lia|]. split; [|done].
  intros i Hi. lia.
Qed.

Lemma run_keeps_cursor_two_frames :
  ∃ s, two_frame_start = Ok s ∧ ∃ s', run 6 s = Ok s' ∧ cursor_ok s'.
Proof.
  destruct two_frame_start_cursor as (s & Hinit & Hok & Hc).
  exists s. split; [exact Hinit|]. exact (run_keeps_cursor 6 s Hok Hc).
Defined.

(** ** The requests are numbered apart *)

Lemma perm_counts (l1 l2 : list Event) :
  l1 ≡ₚ l2 ↔ ∀ x, count_occ Event_eq_dec l1 x = count_occ Event_eq_dec l2 x.
Proof. apply Permutation_count_occ. Qed.

Lemma arrival_events_perm (heap rest qU qM tr : list Event) (ev new : Event) :
  heap ≡ₚ [ev] ++ rest →
  (rest ++ [new]) ++ ([ev] ++ qU) ++ qM ++ tr ≡ₚ [new] ++ heap ++ qU ++ qM ++ tr
  ∧ (rest ++ [new]) ++ qU ++ ([ev] ++ qM) ++ tr ≡ₚ [new] ++ heap ++ qU ++ qM ++ tr.
Proof.
  intros H. split; apply perm_counts; intros x;
    pose proof (proj1 (perm_counts _ _) H x) as Hx;
    rewrite !count_occ_app in *; lia.
Qed.

Lemma departure_events_perm (heap rest qU qM qU2 qM2 qU3 qM3 goneU goneM svA svB tr new3
    : list Event) (ev dep : Event) :
  heap ≡ₚ [ev] ++ rest →
  qU ≡ₚ goneU ++ qU2 → qM ≡ₚ goneM ++ qM2 →
  qU2 ≡ₚ svA ++ qU3 → qM2 ≡ₚ svB ++ qM3 →
  new3 ≡ₚ svA ++ svB →
  [ev] ++ (rest ++ [dep]) ++ qU3 ++ qM3 ++ (tr ++ (reverse goneU ++ reverse goneM)) ++ new3
  ≡ₚ [dep] ++ heap ++ qU ++ qM ++ tr.
Proof.
  intros H1 H2 H3 H4 H5 H6. apply perm_counts. intros x.
  pose proof (proj1 (perm_counts _ _) H1 x) as X1.
  pose proof (proj1 (perm_counts _ _) H2 x) as X2.
  pose proof (proj1 (perm_counts _ _) H3 x) as X3.
  pose proof (proj1 (perm_counts _ _) H4 x) as X4.
  pose proof (proj1 (perm_counts _ _) H5 x) as X5.
  pose proof (proj1 (perm_counts _ _) H6 x) as X6.
  pose proof (proj1 (perm_counts _ _) (reverse_Permutation goneU) x) as X7.
  pose proof (proj1 (perm_counts _ _) (reverse_Permutation goneM) x) as X8.
  rewrite !count_occ_app in *. lia.
Qed.

Lemma known_perm (cls : Z) (l1 l2 : list Event) :
  l1 ≡ₚ l2 →
  filter (fun e => etype e = cls) l1 ≡ₚ filter (fun e => etype e = cls) l2.
Proof. intros H. by rewrite H. Qed.

Lemma run_step_events (s : Simulation) (cls : Z) :
  engine_ok s → cls = _URLLC_ARRIVAL ∨ cls = _mMTC_ARRIVAL →
  ∃ s', run_step s = Ok s' ∧ engine_ok s'
    ∧ ((known cls s' ≡ₚ known cls s
        ∧ stats s' !! arrivals_counter cls = stats s !! arrivals_counter cls)
       ∨ (∃ new v,
            known cls s' ≡ₚ new :: known cls s
            ∧ stats s !! arrivals_counter cls = Some v
            ∧ stats s' !! arrivals_counter cls = Some (v + 1)
            ∧ counter new = v + 1)).
Proof.
  intros Hok Hcls.
  destruct (run_step_shape s Hok) as (ev0 & rest0 & s' & new0 & more & _ & Hstep & Hok' & _).
  exists s'. split; [exact Hstep|]. split; [exact Hok'|].
  destruct (run_step_cases s Hok) as (ev & rest & _ & Hperm & Hcases). cbv zeta in Hcases.
  destruct Hok as [Hst HL Hstats Hheap Hdep HqU HqM].
  pose proof (engine_counters_some _ Hstats) as (_ & _ & HmU & HmM).
  destruct Hcases as [(Hev & s2 & s3 & Hexp & Hrun & Heq)
                     |[(Hev & nd & v & Hnd & Hv & Heq)|(Hev & nd & v & Hnd & Hv & Heq)]];
    rewrite Hstep in Heq; injection Heq as ->.
  - (* a frame boundary *)
    left.
    set (s1 := set_time (etime ev) (set_event_heap rest s)) in *.
    destruct (handle_expired_events_shape s1 HqU HqM HmU HmM)
      as (s2' & Hexp' & HqU2 & HqM2 & Htr2 & Ht2 & Hh2 & Hst2 & Hl2 & _ & _ & _ & _ & Hpools2).
    rewrite Hexp in Hexp'. injection Hexp' as <-.
    destruct (handle_expired_events_counters s1 s2 cls HqU HqM HmU HmM Hcls Hexp)
      as [Harr2 _].
    destruct (Hpools2 _ profile ltac:(intros; reflexivity)) as [HpU2 HpM2].
    pose proof (map_length_eq _ _ _ HpU2) as HlU2.
    pose proof (map_length_eq _ _ _ HpM2) as HlM2.
    destruct (assign_pilots_pass_ok s2)
      as (s3' & Hrun' & (svA & svB & HcA & HcB & new3 & Htr3 & Hnew3) & Hset).
    { rewrite Hst2. exact Hst. }
    { rewrite Hl2. exact HL. }
    { rewrite HqU2, HlU2. apply Forall_forall. intros e He.
      apply list_elem_of_filter in He as [_ He].
      by destruct (proj1 (Forall_forall _ _) HqU e He). }
    { rewrite HqM2, HlM2. apply Forall_forall. intros e He.
      apply list_elem_of_filter in He as [_ He].
      by destruct (proj1 (Forall_forall _ _) HqM e He). }
    rewrite Hrun in Hrun'. injection Hrun' as <-.
    destruct Hset as (S1 & _ & _ & _ & _ & _ & S7 & _).
    split; [|cbn; rewrite S1; exact Harr2].
    assert (Hall : [ev] ++ all_events
                     (set_event_heap
                        (EventHeap.push (departure_event (time s3 + frame_length s3))
                           (event_heap s3)) s3)
                   ≡ₚ [departure_event (time s3 + frame_length s3)] ++ all_events s).
    { unfold all_events, EventHeap.push. cbn [event_heap send_queue_URLLC send_queue_mMTC
        trace set_event_heap].
      rewrite S7, Hh2, Htr3, Htr2, !map_app, !entry_events_of.
      change (event_heap s1) with rest. change (trace s1) with (trace s).
      apply (departure_events_perm (event_heap s) rest (send_queue_URLLC s)
               (send_queue_mMTC s) (send_queue_URLLC s2) (send_queue_mMTC s2)
               (send_queue_URLLC s3) (send_queue_mMTC s3)
               (filter (expired (time s1)) (send_queue_URLLC s1))
               (filter (expired (time s1)) (send_queue_mMTC s1)) svA svB).
      - exact Hperm.
      - rewrite HqU2. apply filter_split_perm.
      - rewrite HqM2. apply filter_split_perm.
      - exact HcA.
      - exact HcB.
      - rewrite <- (entry_events_of (time s2) true (svA ++ svB)).
        change (map entry_event) with (fmap (M := list) entry_event). by rewrite Hnew3. }
    apply (known_perm cls) in Hall. rewrite !filter_app in Hall.
    unfold is_departure in Hev.
    rewrite (filter_none _ [ev]) in Hall
      by (apply Forall_singleton; rewrite Hev; by destruct Hcls as [-> | ->]).
    rewrite (filter_none _ [departure_event _]) in Hall
      by (apply Forall_singleton; cbn; by destruct Hcls as [-> | ->]).
    exact Hall.
  - (* an arrival of class A *)
    set (new := mkEvent _URLLC_ARRIVAL _ _ _ _).
    assert (Hall : all_events
                     (set_event_heap (EventHeap.push new rest)
                        (set_pool_URLLC
                           (<[node_id ev := set_generator (snd (get_next (event_generator nd)))
                                              (set_active true nd)]> (pool_URLLC s))
                           (set_send_queue K_URLLC (ev :: send_queue_URLLC s)
                              (set_stats (<["no_urllc_arrivals" := v + 1]> (stats s))
                                 (set_time (etime ev) (set_event_heap rest s))))))
                   ≡ₚ [new] ++ all_events s).
    { unfold all_events, EventHeap.push. cbn -[new].
      exact (proj1 (arrival_events_perm _ rest _ _ _ ev new Hperm)). }
    apply (known_perm cls) in Hall. rewrite filter_app in Hall. cbn -[new filter known].
    destruct Hcls as [-> | ->].
    + right. exists new, v. split; [|split; [exact Hv|split; [|done]]].
      * unfold known. rewrite Hall, filter_cons, decide_True by done. done.
      * change (arrivals_counter _URLLC_ARRIVAL) with "no_urllc_arrivals".
        by rewrite lookup_insert_eq.
    + left. split.
      * unfold known. rewrite Hall, filter_cons, decide_False by done. done.
      * change (arrivals_counter _mMTC_ARRIVAL) with "no_mmtc_arrivals".
        by rewrite lookup_insert_ne.
  - (* an arrival of class B *)
    set (new := mkEvent _mMTC_ARRIVAL _ _ _ _).
    assert (Hall : all_events
                     (set_event_heap (EventHeap.push new rest)
                        (set_pool_mMTC
                           (<[node_id ev := set_generator (snd (get_next (event_generator nd)))
                                              (set_active true nd)]> (pool_mMTC s))
                           (set_send_queue K_mMTC (ev :: send_queue_mMTC s)
                              (set_stats (<["no_mmtc_arrivals" := v + 1]> (stats s))
                                 (set_time (etime ev) (set_event_heap rest s))))))
                   ≡ₚ [new] ++ all_events s).
    { unfold all_events, EventHeap.push. cbn -[new].
      exact (proj2 (arrival_events_perm _ rest _ _ _ ev new Hperm)). }
    apply (known_perm cls) in Hall. rewrite filter_app in Hall. cbn -[new filter known].
    destruct Hcls as [-> | ->].
    + left. split.
      * unfold known. rewrite Hall, filter_cons, decide_False by done. done.
      * change (arrivals_counter _URLLC_ARRIVAL) with "no_urllc_arrivals".
        by rewrite lookup_insert_ne.
    + right. exists new, v. split; [|split; [exact Hv|split; [|done]]].
      * unfold known. rewrite Hall, filter_cons, decide_True by done. done.
      * change (arrivals_counter _mMTC_ARRIVAL) with "no_mmtc_arrivals".
        by rewrite lookup_insert_eq.
Qed.

Lemma numbered_step (cls : Z) (s s' : Simulation) :
  numbered cls s →
  (known cls s' ≡ₚ known cls s
   ∧ stats s' !! arrivals_counter cls = stats s !! arrivals_counter cls)
  ∨ (∃ new v,
       known cls s' ≡ₚ new :: known cls s
       ∧ stats s !! arrivals_counter cls = Some v
       ∧ stats s' !! arrivals_counter cls = Some (v + 1)
       ∧ counter new = v + 1) →
  numbered cls s'.
Proof.
  intros (v & Hv & Hle & Hnd) [[Hperm Hst]|(new & v' & Hperm & Hv' & Hst & Hnew)].
  - exists v. split; [by rewrite Hst|]. split; [by rewrite Hperm|].
    change (map counter) with (fmap (M := list) counter). by rewrite Hperm.
  - rewrite Hv in Hv'. injection Hv' as <-.
    exists (v + 1). split; [exact Hst|]. split.
    + rewrite Hperm. constructor; [lia|].
      eapply Forall_impl; [exact Hle|]. intros e He. cbn in He. lia.
    + change (map counter) with (fmap (M := list) counter). rewrite Hperm.
      cbn [fmap list_fmap]. apply NoDup_cons. split; [|exact Hnd].
      intros Hin. apply list_elem_of_fmap in Hin as (e & He & Hin).
      pose proof (proj1 (Forall_forall _ _) Hle e Hin) as Hbound. cbn in Hbound. lia.
Qed.

Lemma run_numbered (cls : Z) (n : nat) :
  cls = _URLLC_ARRIVAL ∨ cls = _mMTC_ARRIVAL →
  ∀ s, engine_ok s → numbered cls s →
       ∃ s', run n s = Ok s' ∧ engine_ok s' ∧ numbered cls s'.
Proof.
  intros Hcls. induction n as [|n IH]; intros s Hok Hnum; cbn [run].
  - by exists s.
  - case_decide; [|by exists s].
    destruct (run_step_events s cls Hok Hcls) as (s1 & Hstep & Hok1 & Hev).
    rewrite Hstep. cbn [rbind]. apply IH; [exact Hok1|].
    by apply (numbered_step cls s s1).
Qed.

Lemma first_arrivals_numbers (slice_type t : Z) (nodes : list Node) :
  ∀ (ind : nat) (cnt : Z),
    Forall (fun e => cnt < counter e <= cnt + Z.of_nat (length nodes))
           (first_arrivals slice_type t nodes ind cnt)
    ∧ NoDup (map counter (first_arrivals slice_type t nodes ind cnt)).
Proof.
  induction nodes as [|nd rest IH]; intros ind cnt; cbn [first_arrivals map length].
  - split; constructor.
  - destruct (IH (S ind) (cnt + 1)) as [Hle Hnd]. split.
    + constructor; [cbn; lia|].
      eapply Forall_impl; [exact Hle|]. intros e He. cbn in He. lia.
    + apply NoDup_cons. split; [|exact Hnd]. cbn [counter].
      change (map counter) with (fmap (M := list) counter).
      intros Hin. apply list_elem_of_fmap in Hin as (e & He & Hin).
      pose proof (proj1 (Forall_forall _ _) Hle e Hin) as Hbound. cbn in Hbound. lia.
Qed.

Lemma filter_all {A : Type} (P : A → Prop) `{∀ x, Decision (P x)} (l : list A) :
  Forall P l → filter P l = l.
Proof.
  induction 1 as [|x l Hx _ IH]; [done|]. by rewrite filter_cons, decide_True, IH.
Qed.

Lemma first_arrivals_known (cls slice_type t : Z) (nodes : list Node) (ind : nat) (cnt : Z) :
  filter (fun e => etype e = cls) (first_arrivals slice_type t nodes ind cnt)
  = if decide (cls = slice_type + 3) then first_arrivals slice_type t nodes ind cnt else [].
Proof.
  assert (H : Forall (fun e => etype e = slice_type + 3)
                (first_arrivals slice_type t nodes ind cnt)).
  { apply Forall_forall. intros e He. by destruct (first_arrivals_spec _ _ _ _ _ _ He). }
  destruct (decide (cls = slice_type + 3)) as [->|Hne].
  - by apply filter_all.
  - apply filter_none. eapply Forall_impl; [exact H|]. intros e He. cbn in He. congruence.
Qed.

(** X14. Requests are numbered apart, so no request is ever in two places or
    entered twice.  In a run of a simulation that is constructed properly
    with an empty trace, at every point and for each class, no request the
    engine knows of (in the heap, in a queue or in the trace) carries a
    number above the arrival counter of the class and no two of them carry
    the same number; so the requests of the class in heap, queues and
    trace are pairwise different. *)
Theorem requests_are_numbered_apart (config : Config) (st : gmap string Z)
    (urllc mmtc : list Node) (scheduler : option string) (node0 : Node) (k : Z) (cls : Z) :
  urllc !! 0%nat = Some node0 →
  cfg_frame_length config ≠ 0 →
  deadline node0 = k * cfg_frame_length config → k ≠ 0 →
  chosen_strategy config scheduler ∈ recognized →
  Forall (fun key => is_Some (st !! key)) engine_counters →
  cls = _URLLC_ARRIVAL ∨ cls = _mMTC_ARRIVAL →
  ∃ s, init config st [] urllc mmtc scheduler = Ok s
    ∧ ∀ n, ∃ s', run n s = Ok s' ∧ numbered cls s' ∧ NoDup (known cls s').
Proof.
  intros Hn0 Hfl Hk Hk0 Hst Hkeys Hcls.
  destruct (init_engine_ok config st [] urllc mmtc scheduler node0 k Hn0 Hfl Hk Hk0 Hst Hkeys)
    as (s & Hinit & Hok & _).
  exists s. split; [exact Hinit|].
  assert (Hnum : numbered cls s).
  { pose proof (engine_counters_some _ Hkeys) as ([vU HvU] & [vM HvM] & _).
    rewrite (init_run config st [] urllc mmtc scheduler node0 k vU vM Hn0 Hfl Hk HvU HvM) in Hinit.
    injection Hinit as <-. unfold numbered, known, all_events. cbn -[filter].
    rewrite !filter_app, !first_arrivals_known, !app_nil_r.
    rewrite (filter_none _ [departure_event _])
      by (apply Forall_singleton; cbn; by destruct Hcls as [-> | ->]).
    rewrite app_nil_r.
    destruct (first_arrivals_numbers _URLLC 0 urllc 0 vU) as [HleU HndU].
    destruct (first_arrivals_numbers _mMTC 0 mmtc 0 vM) as [HleM HndM].
    destruct Hcls as [-> | ->].
    - rewrite (decide_True (P := _URLLC_ARRIVAL = _URLLC + 3)) by done.
      rewrite (decide_False (P := _URLLC_ARRIVAL = _mMTC + 3)) by done.
      rewrite app_nil_r. exists (vU + Z.of_nat (length urllc)).
      change (arrivals_counter _URLLC_ARRIVAL) with "no_urllc_arrivals".
      rewrite lookup_insert_ne, lookup_insert_eq by done. split; [done|].
      split; [|exact HndU]. eapply Forall_impl; [exact HleU|]. intros e He. cbn in He. lia.
    - rewrite (decide_False (P := _mMTC_ARRIVAL = _URLLC + 3)) by done.
      rewrite (decide_True (P := _mMTC_ARRIVAL = _mMTC + 3)) by done.
      cbn [app]. exists (vM + Z.of_nat (length mmtc)).
      change (arrivals_counter _mMTC_ARRIVAL) with "no_mmtc_arrivals".
      rewrite lookup_insert_eq. split; [done|].
      split; [|exact HndM]. eapply Forall_impl; [exact HleM|]. intros e He. cbn in He. lia. }
  intros n.
  destruct (run_numbered cls n Hcls s Hok Hnum) as (s' & Hrun & _ & Hnum').
  exists s'. split; [exact Hrun|]. split; [exact Hnum'|].
  destruct Hnum' as (v & _ & _ & Hnd).
  change (map counter) with (fmap (M := list) counter) in Hnd.
  by apply NoDup_fmap_1 in Hnd.
Qed.

Lemma requests_are_numbered_apart_two_frames :
  ∃ s, init (mkConfig 2 20 10 "RRN_FCFS") fresh_stats [] two_frame_pool [] None = Ok s
    ∧ ∀ n, ∃ s', run n s = Ok s' ∧ numbered _URLLC_ARRIVAL s'
                 ∧ NoDup (known _URLLC_ARRIVAL s').
Proof.
  apply (requests_are_numbered_apart (mkConfig 2 20 10 "RRN_FCFS") fresh_stats
           two_frame_pool [] None (mkNode 2 30 false false (delays 1 [10])) 3
           _URLLC_ARRIVAL).
  - done.
  - done.
  - done.
  - done.
  - right. right. right. by left.
  - repeat constructor; by eexists.
  - by left.
Defined.

(** ** What the trace says *)

Lemma sorted_constant (t : Z) (l : list Z) :
  Forall (fun x => x = t) l → StronglySorted Z.le l.
Proof.
  induction 1 as [|x l -> Hl IH]; constructor; [exact IH|].
  eapply Forall_impl; [exact Hl|]. intros y ->. cbn. lia.
Qed.

Lemma trace_ok_later (s s' : Simulation) :
  trace s' = trace s → time s <= time s' → trace_ok s → trace_ok s'.
Proof.
  intros Htr Ht (Hv & Hnow & Hsorted). unfold trace_ok. rewrite Htr.
  split; [done|]. split; [|done].
  eapply Forall_impl; [exact Hnow|]. intros en Hen. cbn in Hen. lia.
Qed.

Lemma trace_ok_grow (s s' : Simulation) (more : list Entry) :
  trace s' = trace s ++ more → time s <= time s' →
  Forall verdict_ok more → Forall (fun en => entry_time en = time s') more →
  trace_ok s → trace_ok s'.
Proof.
  intros Htr Ht Hmore Hstamp (Hv & Hnow & Hsorted). unfold trace_ok. rewrite Htr.
  split; [by apply Forall_app|]. split.
  - apply Forall_app. split.
    + eapply Forall_impl; [exact Hnow|]. intros en Hen. cbn in Hen. lia.
    + eapply Forall_impl; [exact Hstamp|]. intros en Hen. cbn in Hen. lia.
  - rewrite map_app. apply StronglySorted_app_2.
    + intros x1 x2 H1 H2.
      change (map entry_time) with (fmap (M := list) entry_time) in H1, H2.
      apply list_elem_of_fmap in H1 as (e1 & -> & H1).
      apply list_elem_of_fmap in H2 as (e2 & -> & H2).
      pose proof (proj1 (Forall_forall _ _) Hnow e1 H1) as B1.
      pose proof (proj1 (Forall_forall _ _) Hstamp e2 H2) as B2.
      cbn in B1, B2. lia.
    + exact Hsorted.
    + apply (sorted_constant (time s')).
      change (map entry_time) with (fmap (M := list) entry_time).
      by apply Forall_fmap.
Qed.

Lemma run_step_trace (s : Simulation) :
  engine_ok s → clock_ok s → trace_ok s →
  ∃ s', run_step s = Ok s' ∧ engine_ok s' ∧ clock_ok s' ∧ trace_ok s'.
Proof.
  intros Hok Hclock Htrace.
  destruct (run_step_clock s Hok Hclock) as (s' & Hstep & Hok' & Hclock' & Hle).
  exists s'. split; [exact Hstep|]. split; [exact Hok'|]. split; [exact Hclock'|].
  destruct (run_step_cases s Hok) as (ev & rest & _ & Hperm & Hcases). cbv zeta in Hcases.
  destruct Hok as [Hst HL Hstats Hheap Hdep HqU HqM].
  pose proof (engine_counters_some _ Hstats) as (_ & _ & HmU & HmM).
  destruct Hcases as [(Hev & s2 & s3 & Hexp & Hrun & Heq)
                     |[(Hev & nd & v & Hnd & Hv & Heq)|(Hev & nd & v & Hnd & Hv & Heq)]];
    rewrite Hstep in Heq; injection Heq as Heq; subst s'.
  - (* a frame boundary *)
    set (s1 := set_time (etime ev) (set_event_heap rest s)) in *.
    destruct (handle_expired_events_shape s1 HqU HqM HmU HmM)
      as (s2' & Hexp' & HqU2 & HqM2 & Htr2 & Ht2 & Hh2 & Hst2 & Hl2 & _ & _ & _ & _ & Hpools2).
    rewrite Hexp in Hexp'. injection Hexp' as <-.
    destruct (Hpools2 _ profile ltac:(intros; reflexivity)) as [HpU2 HpM2].
    pose proof (map_length_eq _ _ _ HpU2) as HlU2.
    pose proof (map_length_eq _ _ _ HpM2) as HlM2.
    destruct (assign_pilots_pass_ok s2)
      as (s3' & Hrun' & (svA & svB & HcA & HcB & new3 & Htr3 & Hnew3) & Hset).
    { rewrite Hst2. exact Hst. }
    { rewrite Hl2. exact HL. }
    { rewrite HqU2, HlU2. apply Forall_forall. intros e He.
      apply list_elem_of_filter in He as [_ He].
      by destruct (proj1 (Forall_forall _ _) HqU e He). }
    { rewrite HqM2, HlM2. apply Forall_forall. intros e He.
      apply list_elem_of_filter in He as [_ He].
      by destruct (proj1 (Forall_forall _ _) HqM e He). }
    rewrite Hrun in Hrun'. injection Hrun' as <-.
    destruct Hset as (_ & S2 & _).
    assert (Ht3 : time s3 = etime ev) by (by rewrite S2, Ht2).
    cbn [time set_event_heap] in Hle.
    apply (trace_ok_grow s _
             (map (fun e => get_entry e (time s1) false)
                (reverse (filter (expired (time s1)) (send_queue_URLLC s1)) ++
                 reverse (filter (expired (time s1)) (send_queue_mMTC s1))) ++ new3)).
    + cbn. by rewrite Htr3, Htr2, <- app_assoc.
    + exact Hle.
    + apply Forall_app. split.
      * apply Forall_forall. intros en Hen.
        change (map ?f) with (fmap (M := list) f) in Hen.
        apply list_elem_of_fmap in Hen as (e & -> & He).
        unfold verdict_ok. cbn.
        apply elem_of_app in He as [He|He]; rewrite elem_of_reverse in He;
          by apply list_elem_of_filter in He as [He _].
      * apply Forall_forall. intros en Hen. rewrite Hnew3 in Hen.
        change (map ?f) with (fmap (M := list) f) in Hen.
        apply list_elem_of_fmap in Hen as (e & -> & He).
        unfold verdict_ok. cbn. rewrite Ht2.
        assert (Hlive : ¬ expired (time s1) e).
        { apply elem_of_app in He as [He|He].
          - assert (e ∈ send_queue_URLLC s2) as Hin by (rewrite HcA; apply elem_of_app; by left).
            rewrite HqU2 in Hin. by apply list_elem_of_filter in Hin as [? _].
          - assert (e ∈ send_queue_mMTC s2) as Hin by (rewrite HcB; apply elem_of_app; by left).
            rewrite HqM2 in Hin. by apply list_elem_of_filter in Hin as [? _]. }
        unfold expired in Hlive. lia.
    + apply Forall_app. split.
      * apply Forall_forall. intros en Hen.
        change (map ?f) with (fmap (M := list) f) in Hen.
        apply list_elem_of_fmap in Hen as (e & -> & He). cbn. by rewrite Ht3.
      * apply Forall_forall. intros en Hen. rewrite Hnew3 in Hen.
        change (map ?f) with (fmap (M := list) f) in Hen.
        apply list_elem_of_fmap in Hen as (e & -> & He). cbn. by rewrite Ht3, Ht2.
    + exact Htrace.
  - by apply (trace_ok_later s).
  - by apply (trace_ok_later s).
Qed.

Lemma run_trace (n : nat) :
  ∀ s, engine_ok s → clock_ok s → trace_ok s →
       ∃ s', run n s = Ok s' ∧ engine_ok s' ∧ clock_ok s' ∧ trace_ok s'.
Proof.
  induction n as [|n IH]; intros s Hok Hclock Htrace; cbn [run].
  - by exists s.
  - case_decide; [|by exists s].
    destruct (run_step_trace s Hok Hclock Htrace) as (s1 & Hstep & Hok1 & Hclock1 & Htrace1).
    rewrite Hstep. cbn [rbind]. by apply IH.
Qed.

(** X15. The trace tells the truth.  In a run of a simulation that is
    constructed properly with an empty trace, with delays and a frame
    length that are not negative, at every point every success of the
    trace is stamped at or before the deadline of its request and every
    failure after it, no entry is stamped later than the current time, and
    the entries are in the order of their time stamps. *)
Theorem trace_tells_the_truth (config : Config) (st : gmap string Z)
    (urllc mmtc : list Node) (scheduler : option string) (node0 : Node) (k : Z) :
  urllc !! 0%nat = Some node0 →
  cfg_frame_length config ≠ 0 →
  deadline node0 = k * cfg_frame_length config → k ≠ 0 →
  chosen_strategy config scheduler ∈ recognized →
  Forall (fun key => is_Some (st !! key)) engine_counters →
  0 <= cfg_frame_length config → delays_nonneg urllc → delays_nonneg mmtc →
  ∃ s, init config st [] urllc mmtc scheduler = Ok s
    ∧ ∀ n, ∃ s', run n s = Ok s' ∧ trace_ok s'.
Proof.
  intros Hn0 Hfl Hk Hk0 Hst Hkeys Hfl0 HdU HdM.
  destruct (init_engine_ok config st [] urllc mmtc scheduler node0 k Hn0 Hfl Hk Hk0 Hst Hkeys)
    as (s & Hinit & Hok & _ & _ & _ & _ & _ & Hclock).
  exists s. split; [exact Hinit|]. intros n.
  assert (Htrace : trace_ok s).
  { pose proof (engine_counters_some _ Hkeys) as ([vU HvU] & [vM HvM] & _).
    rewrite (init_run config st [] urllc mmtc scheduler node0 k vU vM Hn0 Hfl Hk HvU HvM) in Hinit.
    injection Hinit as <-. unfold trace_ok. cbn. repeat split; constructor. }
  destruct (run_trace n s Hok (Hclock Hfl0 HdU HdM) Htrace) as (s' & Hrun & _ & _ & Htrace').
  by exists s'.
Qed.

Lemma trace_tells_the_truth_two_frames :
  ∃ s, init (mkConfig 2 20 10 "RRN_FCFS") fresh_stats [] two_frame_pool [] None = Ok s
    ∧ ∀ n, ∃ s', run n s = Ok s' ∧ trace_ok s'.
Proof.
  apply (trace_tells_the_truth (mkConfig 2 20 10 "RRN_FCFS") fresh_stats
           two_frame_pool [] None (mkNode 2 30 false false (delays 1 [10])) 3).
  - done.
  - done.
  - done.
  - done.
  - right. right. right. by left.
  - repeat constructor; by eexists.
  - done.
  - repeat constructor; cbn; try done.
    + intros j. destruct j as [|[|j]]; cbn; lia.
    + intros j. destruct j as [|j]; cbn; lia.
  - constructor.
Defined.

(** ** A superframe of no frames *)

(** X16. With [frame_loops] at 0 both RRN policies raise a ZeroDivisionError at
    their first statement, the step of the frame counter, whatever the
    queues hold. *)
Theorem rrn_raises_without_frame_loops (s : Simulation) :
  frame_loops s = 0 →
  pilot_strategy s = "RRN_FCFS" ∨ pilot_strategy s = "RRN_RRQ" →
  __assign_pilots s = Raise ZeroDivisionError.
Proof.
  intros HL Hname. unfold __assign_pilots.
  destruct Hname as [-> | ->].
  - change (strategy_mapping !! "RRN_FCFS")
      with (Some __round_robin_no_queue_info_first_come_first_served).
    cbn [of_option rbind]. unfold __round_robin_no_queue_info_first_come_first_served,
      advance_frame. by rewrite decide_True.
  - change (strategy_mapping !! "RRN_RRQ") with (Some __round_robin_half_queue_info).
    cbn [of_option rbind]. unfold __round_robin_half_queue_info, advance_frame.
    by rewrite decide_True.
Qed.

Lemma rrn_raises_without_frame_loops_witness :
  __assign_pilots
    (mkSim fresh_stats [] 5 4 100 5 "RRN_FCFS" EventHeap.empty
       [mkEvent _URLLC_ARRIVAL 4 12 0 2] [] [node_profile 2 0] [] 0 0 0)
  = Raise ZeroDivisionError.
Proof.
  apply rrn_raises_without_frame_loops.
  - reflexivity.
  - by left.
Defined.

(** ** Requests do not linger *)

Lemma deadlines_nonneg_profile (l l' : list Node) :
  map profile l' = map profile l → deadlines_nonneg l → deadlines_nonneg l'.
Proof.
  intros Hmap H. unfold deadlines_nonneg in *.
  assert (Hc : ∀ k : list Node,
            Forall (fun n => 0 <= deadline n) k
            ↔ Forall (fun p : Z * Z => 0 <= snd p) (map profile k)).
  { intros k. change (map profile k) with (profile <$> k). by rewrite Forall_fmap. }
  apply Hc. rewrite Hmap. by apply Hc.
Qed.

Lemma run_step_timely (s : Simulation) :
  engine_ok s → clock_ok s → timely s →
  ∃ s', run_step s = Ok s' ∧ engine_ok s' ∧ clock_ok s' ∧ timely s'.
Proof.
  intros Hok Hclock (Hborn & Hqueue & HdlU & HdlM).
  destruct (run_step_clock s Hok Hclock) as (s' & Hstep & Hok' & Hclock' & Hle).
  exists s'. split; [exact Hstep|]. split; [exact Hok'|]. split; [exact Hclock'|].
  destruct (run_step_shape s Hok)
    as (ev & rest & s'' & new & more & Hpop & Hstep' & _ & Ht' & Hh' & _ & Hfl' & _ & _ & _
        & _ & _ & HpU & HpM & Hnew).
  rewrite Hstep in Hstep'. injection Hstep' as <-.
  destruct (pop_spec _ _ _ Hpop) as [Hperm _].
  assert (Hev : ev ∈ event_heap s) by (rewrite Hperm; by left).
  assert (Hrest : ∀ e, e ∈ rest → e ∈ event_heap s) by (intros e He; rewrite Hperm; by right).
  destruct Hclock as (Hfl0 & Hdue & Hnext & _).
  assert (Hnow : time s <= etime ev) by (by apply (proj1 (Forall_forall _ _) Hdue)).
  assert (Hdeps : ∀ d, d ∈ event_heap s' → is_departure d →
                       etime d <= etime ev + frame_length s).
  { intros d Hd Hdd. rewrite Hh' in Hd. apply elem_of_app in Hd as [Hd|Hd].
    - pose proof (proj1 (Forall_forall _ _) Hnext d (Hrest d Hd) Hdd). lia.
    - apply list_elem_of_singleton in Hd as ->.
      destruct Hnew as [[_ ->]|(Hnd & nd & k & _ & Hty & _)]; [cbn; lia|].
      exfalso. apply Hnd. unfold is_departure in *. by rewrite <- Hty. }
  split; [|split; [|split]].
  - rewrite Hh'. apply Forall_app. split.
    + apply Forall_forall. intros e He.
      apply (proj1 (Forall_forall _ _) Hborn e (Hrest e He)).
    + apply Forall_singleton. intros Hnd.
      destruct Hnew as [[_ ->]|(_ & nd & k & Hin & _ & _ & _ & ->)]; [by destruct Hnd|].
      cut (0 <= deadline nd); [lia|].
      destruct Hin as [Hin|Hin];
        [apply (proj1 (Forall_forall _ _) HdlU nd Hin)
        |apply (proj1 (Forall_forall _ _) HdlM nd Hin)].
  - rewrite Hfl'.
    destruct (run_step_cases s Hok) as (ev1 & rest1 & Hpop1 & _ & Hcases).
    rewrite Hpop in Hpop1. injection Hpop1 as <- <-. cbv zeta in Hcases.
    destruct Hok as [Hst HL Hstats Hheap Hdep HqU HqM].
    pose proof (engine_counters_some _ Hstats) as (_ & _ & HmU & HmM).
    destruct Hcases as [(Hevd & s2 & s3 & Hexp & Hrun & Heq)
                       |[(Hevt & nd & v & Hnd & Hv & Heq)|(Hevt & nd & v & Hnd & Hv & Heq)]];
      rewrite Hstep in Heq; injection Heq as Heq; subst s'.
    + (* a frame boundary *)
      set (s1 := set_time (etime ev) (set_event_heap rest s)) in *.
      destruct (handle_expired_events_shape s1 HqU HqM HmU HmM)
        as (s2' & Hexp' & HqU2 & HqM2 & _ & _ & _ & Hst2 & Hl2 & _ & _ & _ & _ & Hpools2).
      rewrite Hexp in Hexp'. injection Hexp' as <-.
      destruct (Hpools2 _ profile ltac:(intros; reflexivity)) as [HpU2 HpM2].
      pose proof (map_length_eq _ _ _ HpU2) as HlU2.
      pose proof (map_length_eq _ _ _ HpM2) as HlM2.
      destruct (assign_pilots_pass_ok s2)
        as (s3' & Hrun' & (svA & svB & HcA & HcB & _) & _).
      { rewrite Hst2. exact Hst. }
      { rewrite Hl2. exact HL. }
      { rewrite HqU2, HlU2. apply Forall_forall. intros e He.
        apply list_elem_of_filter in He as [_ He].
        by destruct (proj1 (Forall_forall _ _) HqU e He). }
      { rewrite HqM2, HlM2. apply Forall_forall. intros e He.
        apply list_elem_of_filter in He as [_ He].
        by destruct (proj1 (Forall_forall _ _) HqM e He). }
      rewrite Hrun in Hrun'. injection Hrun' as <-.
      intros d e Hd Hdd He. cbn [send_queue_URLLC send_queue_mMTC set_event_heap] in He.
      pose proof (Hdeps d Hd Hdd) as Hbound.
      assert (Hlive : ¬ expired (time s1) e).
      { apply elem_of_app in He as [He|He].
        - assert (e ∈ send_queue_URLLC s2) as Hin
            by (rewrite HcA; apply elem_of_app; by right).
          rewrite HqU2 in Hin. by apply list_elem_of_filter in Hin as [? _].
        - assert (e ∈ send_queue_mMTC s2) as Hin
            by (rewrite HcB; apply elem_of_app; by right).
          rewrite HqM2 in Hin. by apply list_elem_of_filter in Hin as [? _]. }
      unfold expired in Hlive. cbn in Hlive. lia.
    + (* an arrival of class A *)
      intros d e Hd Hdd He. pose proof (Hdeps d Hd Hdd) as Hbound.
      assert (Hd0 : d ∈ event_heap s).
      { rewrite Hh' in Hd. apply elem_of_app in Hd as [Hd|Hd]; [by apply Hrest|].
        apply list_elem_of_singleton in Hd as ->.
        destruct Hnew as [[Hx _]|(_ & nd' & k & _ & Hty & _)];
          [unfold is_departure in Hx; rewrite Hevt in Hx; done|].
        unfold is_departure in Hdd. rewrite Hty, Hevt in Hdd. done. }
      cbn in He. apply elem_of_cons in He as [->|He].
      * assert (Hb : etime ev <= dead_time ev).
        { apply (proj1 (Forall_forall _ _) Hborn ev Hev).
          unfold is_departure. by rewrite Hevt. }
        lia.
      * by apply (Hqueue d e).
    + (* an arrival of class B *)
      intros d e Hd Hdd He. pose proof (Hdeps d Hd Hdd) as Hbound.
      assert (Hd0 : d ∈ event_heap s).
      { rewrite Hh' in Hd. apply elem_of_app in Hd as [Hd|Hd]; [by apply Hrest|].
        apply list_elem_of_singleton in Hd as ->.
        destruct Hnew as [[Hx _]|(_ & nd' & k & _ & Hty & _)];
          [unfold is_departure in Hx; rewrite Hevt in Hx; done|].
        unfold is_departure in Hdd. rewrite Hty, Hevt in Hdd. done. }
      cbn in He. apply elem_of_app in He as [He|He].
      * apply (Hqueue d e Hd0 Hdd). apply elem_of_app. by left.
      * apply elem_of_cons in He as [->|He].
        -- assert (Hb : etime ev <= dead_time ev).
           { apply (proj1 (Forall_forall _ _) Hborn ev Hev).
             unfold is_departure. by rewrite Hevt. }
           lia.
        -- apply (Hqueue d e Hd0 Hdd). apply elem_of_app. by right.
  - by apply (deadlines_nonneg_profile _ _ HpU).
  - by apply (deadlines_nonneg_profile _ _ HpM).
Qed.

Lemma run_timely (n : nat) :
  ∀ s, engine_ok s → clock_ok s → timely s →
       ∃ s', run n s = Ok s' ∧ engine_ok s' ∧ clock_ok s' ∧ timely s'.
Proof.
  induction n as [|n IH]; intros s Hok Hclock Htimely; cbn [run].
  - by exists s.
  - case_decide; [|by exists s].
    destruct (run_step_timely s Hok Hclock Htimely) as (s1 & Hstep & Hok1 & Hclock1 & Ht1).
    rewrite Hstep. cbn [rbind]. by apply IH.
Qed.

Lemma timely_queues (s : Simulation) :
  engine_ok s → clock_ok s → timely s →
  Forall (fun e => time s <= dead_time e + frame_length s)
         (send_queue_URLLC s ++ send_queue_mMTC s).
Proof.
  intros [_ _ _ _ Hdep _ _] (_ & Hdue & _) (_ & Hqueue & _).
  destruct (filter is_departure (event_heap s : list Event)) as [|d ds] eqn:Hf; [done|].
  assert (Hd : d ∈ filter is_departure (event_heap s : list Event)) by (rewrite Hf; by left).
  apply list_elem_of_filter in Hd as [Hdd Hd].
  apply Forall_forall. intros e He.
  pose proof (proj1 (Forall_forall _ _) Hdue d Hd) as Hnow. cbn in Hnow.
  pose proof (Hqueue d e Hd Hdd He). lia.
Qed.

(** X17. Requests do not linger.  In a run of a simulation that is
    constructed properly, with delays, deadlines and a frame length that
    are not negative, at every point the deadline of every queued request
    lies at most one frame length in the past: a request whose deadline has
    passed is retired at the next frame boundary. *)
Theorem requests_do_not_linger (config : Config) (st : gmap string Z) (tr : list Entry)
    (urllc mmtc : list Node) (scheduler : option string) (node0 : Node) (k : Z) :
  urllc !! 0%nat = Some node0 →
  cfg_frame_length config ≠ 0 →
  deadline node0 = k * cfg_frame_length config → k ≠ 0 →
  chosen_strategy config scheduler ∈ recognized →
  Forall (fun key => is_Some (st !! key)) engine_counters →
  0 <= cfg_frame_length config →
  delays_nonneg urllc → delays_nonneg mmtc →
  deadlines_nonneg urllc → deadlines_nonneg mmtc →
  ∃ s, init config st tr urllc mmtc scheduler = Ok s
    ∧ ∀ n, ∃ s', run n s = Ok s'
        ∧ Forall (fun e => time s' <= dead_time e + frame_length s')
                 (send_queue_URLLC s' ++ send_queue_mMTC s').
Proof.
  intros Hn0 Hfl Hk Hk0 Hst Hkeys Hfl0 HdU HdM HlU HlM.
  destruct (init_engine_ok config st tr urllc mmtc scheduler node0 k Hn0 Hfl Hk Hk0 Hst Hkeys)
    as (s & Hinit & Hok & _ & _ & _ & _ & _ & Hclock).
  exists s. split; [exact Hinit|]. intros n.
  assert (Htimely : timely s).
  { pose proof (engine_counters_some _ Hkeys) as ([vU HvU] & [vM HvM] & _).
    rewrite (init_run config st tr urllc mmtc scheduler node0 k vU vM Hn0 Hfl Hk HvU HvM) in Hinit.
    injection Hinit as <-. unfold timely. cbn.
    split; [|split; [intros d e _ _ He; by apply elem_of_nil in He|done]].
    apply Forall_app. split; [|apply Forall_app; split].
    - apply Forall_forall. intros e He _.
      destruct (first_arrivals_spec _ _ _ _ _ _ He) as (_ & _ & nd & Hnd & _ & ->).
      pose proof (proj1 (Forall_forall _ _) HlU nd Hnd) as Hb. cbn in Hb. lia.
    - apply Forall_forall. intros e He _.
      destruct (first_arrivals_spec _ _ _ _ _ _ He) as (_ & _ & nd & Hnd & _ & ->).
      pose proof (proj1 (Forall_forall _ _) HlM nd Hnd) as Hb. cbn in Hb. lia.
    - apply Forall_singleton. intros Hnd. by destruct Hnd. }
  destruct (run_timely n s Hok (Hclock Hfl0 HdU HdM) Htimely)
    as (s' & Hrun & Hok' & Hclock' & Htimely').
  exists s'. split; [exact Hrun|]. by apply timely_queues.
Qed.

Lemma requests_do_not_linger_two_frames :
  ∃ s, init (mkConfig 2 20 10 "RRN_FCFS") fresh_stats [] two_frame_pool [] None = Ok s
    ∧ ∀ n, ∃ s', run n s = Ok s'
        ∧ Forall (fun e => time s' <= dead_time e + frame_length s')
                 (send_queue_URLLC s' ++ send_queue_mMTC s').
Proof.
  apply (requests_do_not_linger (mkConfig 2 20 10 "RRN_FCFS") fresh_stats []
           two_frame_pool [] None (mkNode 2 30 false false (delays 1 [10])) 3).
  - done.
  - done.
  - done.
  - done.
  - right. right. right. by left.
  - repeat constructor; by eexists.
  - done.
  - repeat constructor; cbn; try done.
    + intros j. destruct j as [|[|j]]; cbn; lia.
    + intros j. destruct j as [|j]; cbn; lia.
  - constructor.
  - repeat constructor; cbn; lia.
  - constructor.
Defined.
